(** * The authoritative game engine of [server/gameLogic.js]

    A shallow embedding of the server-side engine: the deck module
    ([createDeck], [shuffleDeck], [reshuffleDeck]), the rule validator
    ([canPlayCard], [hasPlayableCard]), the turn timer and the [Game]
    class with its public operations.

    Conventions of the embedding.
    - A JavaScript array is a list in the same order: index 0 is the head,
      [push] appends at the end and [pop] removes the last element.
    - [undefined] and [null] are [None].  [deck.pop()] on an empty array
      returns [undefined] without raising, so a hand is a list of
      [option Card].
    - A [TypeError] raised by a property access on [undefined] or [null]
      is the outcome [Throws], carrying the state as mutated so far.
    - [Math.random] is an oracle that is consumed one draw at a time;
      [Date.now()] is the argument [now] of the operations that read it.
    - [setTimeout] callbacks that re-arm the turn timer are recorded in
      the field [deferred]; the environment runs them with [fireDeferred].
    - The three outward hooks ([onStateChange], [onTurnStart],
      [onTurnTimeout]) only notify the transport and never feed back into
      the engine; they are left out, as is the write-only property
      [turnTransitioning]. *)

From stdpp Require Import prelude strings pretty.

Local Open Scope Z_scope.

(** ** Cards *)

(** The five strings a card's [color] takes. *)
Inductive Color := red | green | blue | yellow | wild.

(** The strings a card's [value] takes: ['0'] to ['9'], ['skip'],
    ['reverse'], ['draw2'], ['wild'] and ['draw4']. *)
Inductive Value :=
  | V0 | V1 | V2 | V3 | V4 | V5 | V6 | V7 | V8 | V9
  | skip | reverse | draw2 | wildV | draw4.

#[global] Instance Color_eq_dec : EqDecision Color.
Proof. solve_decision. Defined.

#[global] Instance Value_eq_dec : EqDecision Value.
Proof. solve_decision. Defined.

(** A card object [{ color, value }]. *)
Record Card := mkCard { color : Color; value : Value }.

#[global] Instance Card_eq_dec : EqDecision Card.
Proof. solve_decision. Defined.

(** ** Arrays *)

(** [arr.pop()]: the last element, or [undefined] on an empty array. *)
Fixpoint pop {A} (l : list A) : option A * list A :=
  match l with
  | [] => (None, [])
  | x :: l' =>
      match l' with
      | [] => (Some x, [])
      | _ => let '(o, r) := pop l' in (o, x :: r)
      end
  end.

(** [arr.splice(i, 1)] for an index inside the array. *)
Definition splice1 {A} (i : nat) (l : list A) : list A := delete i l.

(** [arr.some(f)] where [f] may raise: stops at the first element on
    which [f] is true, and raises if [f] raises before that. *)
Fixpoint some_exc {A} (f : A -> option bool) (l : list A) : option bool :=
  match l with
  | [] => Some false
  | x :: l' =>
      match f x with
      | None => None
      | Some true => Some true
      | Some false => some_exc f l'
      end
  end.

(** JavaScript's [%] on integers truncates towards zero.  With [n = 0]
    it is [NaN]; the engine is built for at least one seat and the
    properties below are stated for tables that have one. *)
Definition js_rem (a n : Z) : Z := Z.rem a n.

(** ** Randomness *)

(** The source of [Math.random]: the [cursor]-th draw is [oracle cursor]. *)
Record Random := mkRandom { oracle : nat -> nat; cursor : nat }.

(** [Math.floor(Math.random() * k)] for [k > 0]: some index below [k]. *)
Definition randomBelow (k : nat) (r : Random) : nat * Random :=
  ((oracle r (cursor r) `mod` k)%nat, mkRandom (oracle r) (S (cursor r))).

(** ** Deck module *)

(** The arrays [colors] and [values] of [createDeck]. *)
Definition colors : list Color := [red; green; blue; yellow].

Definition values : list Value :=
  [V0; V1; V2; V3; V4; V5; V6; V7; V8; V9; skip; reverse; draw2].

(** [createDeck()]: per colour one ['0'] and two of each other value,
    then four times a wild and a wild-draw-four. *)
Definition createDeck : list Card :=
  (c ← colors; v ← values;
   replicate (if decide (v = V0) then 1%nat else 2%nat) (mkCard c v))
  ++ (_ ← seq 0 4; [mkCard wild wildV; mkCard wild draw4]).

(** [[l[i], l[j]] = [l[j], l[i]]]. *)
Definition swap {A} (i j : nat) (l : list A) : list A :=
  match l !! i, l !! j with
  | Some a, Some b => <[j:=a]> (<[i:=b]> l)
  | _, _ => l
  end.

(** The Fisher-Yates loop [for (i = n; i > 0; i--)]. *)
Fixpoint shuffleFrom (i : nat) (l : list Card) (r : Random)
  : list Card * Random :=
  match i with
  | O => (l, r)
  | S i' =>
      let '(j, r') := randomBelow (S i) r in
      shuffleFrom i' (swap i j l) r'
  end.

(** [shuffleDeck(deck)]. *)
Definition shuffleDeck (deck : list Card) (r : Random) : list Card * Random :=
  shuffleFrom (length deck - 1)%nat deck r.

(** ** Rule validator *)

(** [canPlayCard(card, topCard, currentColor, playerHand = null)].
    [None] is the [TypeError] of reading a property of [undefined]. *)
Definition canPlayCard (card topCard : option Card)
    (currentColor : option Color)
    (playerHand : option (list (option Card))) : option bool :=
  c ← card;
  if bool_decide (color c = wild) && bool_decide (value c = draw4) then
    match playerHand with
    | Some (h :: hs) =>
        hasMatchingColor ←
          some_exc (fun handCard : option Card =>
                      hc ← handCard;
                      Some (bool_decide (Some (color hc) = currentColor)
                            && bool_decide (color hc ≠ wild)))
                   (h :: hs);
        if hasMatchingColor : bool then Some false else Some true
    | _ => Some true
    end
  else if bool_decide (color c = wild) then Some true
  else if bool_decide (Some (color c) = currentColor) then Some true
  else
    t ← topCard;
    if bool_decide (value c = value t) && bool_decide (color c ≠ wild)
    then Some true
    else Some false.

(** [hasPlayableCard(playerHand, topCard, currentColor)]. *)
Definition hasPlayableCard (playerHand : list (option Card))
    (topCard : option Card) (currentColor : option Color) : option bool :=
  match playerHand with
  | [] => Some false
  | _ =>
      some_exc (fun card => canPlayCard card topCard currentColor
                              (Some playerHand))
               playerHand
  end.

(** ** Game state *)

(** The three values of [gameState.status]. *)
Inductive Status := dealing | playing | finished.

#[global] Instance Status_eq_dec : EqDecision Status.
Proof. solve_decision. Defined.

(** A seat.  [originalName] exists only while the seat is disconnected;
    [disconnected] is absent (falsy) until the first disconnect. *)
Record Player := mkPlayer {
  id : string;
  socketId : string;
  hand : list (option Card);
  name : string;
  wallet : option string;
  hasUno : bool;
  originalName : option string;
  disconnected : bool
}.

(** Assignments to the fields of a seat. *)
Definition set_id (v : string) (p : Player) : Player :=
  mkPlayer v (socketId p) (hand p) (name p) (wallet p) (hasUno p)
           (originalName p) (disconnected p).
Definition set_socketId (v : string) (p : Player) : Player :=
  mkPlayer (id p) v (hand p) (name p) (wallet p) (hasUno p)
           (originalName p) (disconnected p).
Definition set_hand (v : list (option Card)) (p : Player) : Player :=
  mkPlayer (id p) (socketId p) v (name p) (wallet p) (hasUno p)
           (originalName p) (disconnected p).
Definition set_name (v : string) (p : Player) : Player :=
  mkPlayer (id p) (socketId p) (hand p) v (wallet p) (hasUno p)
           (originalName p) (disconnected p).
Definition set_hasUno (v : bool) (p : Player) : Player :=
  mkPlayer (id p) (socketId p) (hand p) (name p) (wallet p) v
           (originalName p) (disconnected p).
Definition set_originalName (v : option string) (p : Player) : Player :=
  mkPlayer (id p) (socketId p) (hand p) (name p) (wallet p) (hasUno p)
           v (disconnected p).
Definition set_disconnected (v : bool) (p : Player) : Player :=
  mkPlayer (id p) (socketId p) (hand p) (name p) (wallet p) (hasUno p)
           (originalName p) v.

(** The object [this.gameState]. *)
Record GameState := mkGameState {
  players : list Player;
  deck : list Card;
  discardPile : list Card;
  topCard : option Card;
  currentPlayerIndex : Z;
  direction : Z;
  status : Status;
  winner : option Z;
  currentColor : option Color;
  hasDrawnPlayableCard : bool;
  hasPlayedCardThisTurn : bool;
  waitingForUno : bool
}.

(** Assignments to the fields of the game state. *)
Definition set_players (v : list Player) (s : GameState) : GameState :=
  mkGameState v (deck s) (discardPile s) (topCard s) (currentPlayerIndex s)
    (direction s) (status s) (winner s) (currentColor s)
    (hasDrawnPlayableCard s) (hasPlayedCardThisTurn s) (waitingForUno s).
Definition set_deck (v : list Card) (s : GameState) : GameState :=
  mkGameState (players s) v (discardPile s) (topCard s) (currentPlayerIndex s)
    (direction s) (status s) (winner s) (currentColor s)
    (hasDrawnPlayableCard s) (hasPlayedCardThisTurn s) (waitingForUno s).
Definition set_discardPile (v : list Card) (s : GameState) : GameState :=
  mkGameState (players s) (deck s) v (topCard s) (currentPlayerIndex s)
    (direction s) (status s) (winner s) (currentColor s)
    (hasDrawnPlayableCard s) (hasPlayedCardThisTurn s) (waitingForUno s).
Definition set_topCard (v : option Card) (s : GameState) : GameState :=
  mkGameState (players s) (deck s) (discardPile s) v (currentPlayerIndex s)
    (direction s) (status s) (winner s) (currentColor s)
    (hasDrawnPlayableCard s) (hasPlayedCardThisTurn s) (waitingForUno s).
Definition set_currentPlayerIndex (v : Z) (s : GameState) : GameState :=
  mkGameState (players s) (deck s) (discardPile s) (topCard s) v
    (direction s) (status s) (winner s) (currentColor s)
    (hasDrawnPlayableCard s) (hasPlayedCardThisTurn s) (waitingForUno s).
Definition set_direction (v : Z) (s : GameState) : GameState :=
  mkGameState (players s) (deck s) (discardPile s) (topCard s)
    (currentPlayerIndex s) v (status s) (winner s) (currentColor s)
    (hasDrawnPlayableCard s) (hasPlayedCardThisTurn s) (waitingForUno s).
Definition set_status (v : Status) (s : GameState) : GameState :=
  mkGameState (players s) (deck s) (discardPile s) (topCard s)
    (currentPlayerIndex s) (direction s) v (winner s) (currentColor s)
    (hasDrawnPlayableCard s) (hasPlayedCardThisTurn s) (waitingForUno s).
Definition set_winner (v : option Z) (s : GameState) : GameState :=
  mkGameState (players s) (deck s) (discardPile s) (topCard s)
    (currentPlayerIndex s) (direction s) (status s) v (currentColor s)
    (hasDrawnPlayableCard s) (hasPlayedCardThisTurn s) (waitingForUno s).
Definition set_currentColor (v : option Color) (s : GameState) : GameState :=
  mkGameState (players s) (deck s) (discardPile s) (topCard s)
    (currentPlayerIndex s) (direction s) (status s) (winner s) v
    (hasDrawnPlayableCard s) (hasPlayedCardThisTurn s) (waitingForUno s).
Definition set_hasDrawnPlayableCard (v : bool) (s : GameState) : GameState :=
  mkGameState (players s) (deck s) (discardPile s) (topCard s)
    (currentPlayerIndex s) (direction s) (status s) (winner s)
    (currentColor s) v (hasPlayedCardThisTurn s) (waitingForUno s).
Definition set_hasPlayedCardThisTurn (v : bool) (s : GameState) : GameState :=
  mkGameState (players s) (deck s) (discardPile s) (topCard s)
    (currentPlayerIndex s) (direction s) (status s) (winner s)
    (currentColor s) (hasDrawnPlayableCard s) v (waitingForUno s).
Definition set_waitingForUno (v : bool) (s : GameState) : GameState :=
  mkGameState (players s) (deck s) (discardPile s) (topCard s)
    (currentPlayerIndex s) (direction s) (status s) (winner s)
    (currentColor s) (hasDrawnPlayableCard s) (hasPlayedCardThisTurn s) v.

(** Statements of the source read top to bottom as [s |> f |> g]. *)
Notation "x |> f" := (f x) (at level 45, left associativity, only parsing).

(** [players[i]] for a JavaScript number [i]. *)
Definition playerAt (gs : GameState) (i : Z) : option Player :=
  if bool_decide (i < 0) then None else players gs !! Z.to_nat i.

(** [players[i].hand.push(card)]. *)
Definition pushHand (i : Z) (card : option Card) (gs : GameState) : GameState :=
  if bool_decide (i < 0) then gs
  else gs |> set_players
         (alter (fun p => set_hand (hand p ++ [card]) p) (Z.to_nat i)
                (players gs)).

(** [players.length]. *)
Definition playerCount (gs : GameState) : Z := Z.of_nat (length (players gs)).

(** [reshuffleDeck(gameState)]. *)
Definition reshuffleDeck (gs : GameState) (r : Random) : GameState * Random :=
  if bool_decide (length (discardPile gs) ≤ 1)%nat then (gs, r)
  else
    let '(top, rest) := pop (discardPile gs) in
    let '(shuffled, r') := shuffleDeck rest r in
    (gs |> set_deck shuffled |> set_discardPile (option_list top), r').

(** The pair of statements
    [if (deck.length === 0) reshuffleDeck(gameState); ... deck.pop()]
    that precedes every draw. *)
Definition popDeck (gs : GameState) (r : Random)
  : option Card * GameState * Random :=
  let '(gs1, r1) :=
    if bool_decide (length (deck gs) = 0)%nat then reshuffleDeck gs r
    else (gs, r) in
  let '(card, rest) := pop (deck gs1) in
  (card, gs1 |> set_deck rest, r1).

(** [nextTurn(gameState)]. *)
Definition nextTurn (gs : GameState) : GameState :=
  gs |> set_currentPlayerIndex
          (js_rem (currentPlayerIndex gs + direction gs + playerCount gs)
                  (playerCount gs))
     |> set_hasDrawnPlayableCard false
     |> set_hasPlayedCardThisTurn false
     |> set_waitingForUno false
     |> set_players (set_hasUno false <$> players gs).

(** ** The [Game] object *)

(** A [Game] instance: the game state, the three timer fields, the
    pending deferred callbacks and the random source. *)
Record Game := mkGame {
  gameState : GameState;
  turnTimer : option Z;      (* pending expiry callback and its delay *)
  turnStartTime : option Z;
  turnExpiresAt : option Z;
  deferred : list Z;         (* delays of the pending re-arm callbacks *)
  random : Random
}.

(** Assignments to the fields of the instance. *)
Definition set_gameState (v : GameState) (g : Game) : Game :=
  mkGame v (turnTimer g) (turnStartTime g) (turnExpiresAt g) (deferred g)
         (random g).
Definition set_random (v : Random) (g : Game) : Game :=
  mkGame (gameState g) (turnTimer g) (turnStartTime g) (turnExpiresAt g)
         (deferred g) v.
Definition set_deferred (v : list Z) (g : Game) : Game :=
  mkGame (gameState g) (turnTimer g) (turnStartTime g) (turnExpiresAt g) v
         (random g).

(** [setTimeout(() => this.startTurnTimer(), delay)]. *)
Definition defer (delay : Z) (g : Game) : Game :=
  g |> set_deferred (deferred g ++ [delay]).

(** The constants set by the constructor, in milliseconds. *)
Definition turnTimeLimit : Z := 15000.
Definition dealingAnimationDelay : Z := 5000.
Definition ANIMATION_DURATION : Z := 1200.

(** [clearTurnTimer()]. *)
Definition clearTurnTimer (g : Game) : Game :=
  mkGame (gameState g) None None None (deferred g) (random g).

(** The common body of [startTurnTimer()] and
    [startTurnTimerWithDuration(duration)]. *)
Definition startTurnTimerWithDuration (duration now : Z) (g : Game) : Game :=
  let g := clearTurnTimer g in
  let gs := gameState g in
  if bool_decide (status gs ≠ playing) then g
  else if bool_decide (length (players gs) = 0)%nat then g
  else if bool_decide (currentPlayerIndex gs < 0)
          || bool_decide (currentPlayerIndex gs >= playerCount gs) then g
  else
    match playerAt gs (currentPlayerIndex gs) with
    | None => g
    | Some _ =>
        mkGame gs (Some duration) (Some now) (Some (now + duration))
               (deferred g) (random g)
    end.

(** [startTurnTimer()]. *)
Definition startTurnTimer (now : Z) (g : Game) : Game :=
  startTurnTimerWithDuration turnTimeLimit now g.

(** A JavaScript string is truthy unless it is empty. *)
Definition truthy (s : option string) : bool :=
  match s with
  | Some s => negb (bool_decide (s = ""%string))
  | None => false
  end.

(** The seat record built by the constructor for [playerIds[index]]. *)
Definition newPlayer (playerNames : list string)
    (playerWallets : list string) (index : nat) (pid : string) : Player :=
  mkPlayer pid pid []
    (if truthy (playerNames !! index) then default ""%string (playerNames !! index)
     else ("Player " +:+ pretty (S index))%string)
    (if truthy (playerWallets !! index) then playerWallets !! index else None)
    false None false.

(** One pass of the inner loop of [dealCards()]. *)
Definition dealOne (gs : GameState) (playerIndex : nat) : GameState :=
  if bool_decide (0 < length (deck gs))%nat then
    let '(card, rest) := pop (deck gs) in
    gs |> set_deck rest |> pushHand (Z.of_nat playerIndex) card
  else gs.

(** [dealCards()]: seven rounds of one card to each seat. *)
Definition dealCards (gs : GameState) : GameState :=
  foldl (fun gs _ => foldl dealOne gs (seq 0 (length (players gs))))
        gs (seq 0 7).

(** [new Game(playerIds, playerNames, playerWallets)]. *)
Definition newGame (playerIds playerNames playerWallets : list string)
    (r : Random) : Game :=
  let '(shuffled, r') := shuffleDeck createDeck r in
  let gs :=
    mkGameState (imap (newPlayer playerNames playerWallets) playerIds)
                shuffled [] None 0 1 dealing None None false false false in
  mkGame (dealCards gs) None None None [] r'.

(** ** Outcomes of a method call *)

(** How a call ends, and the instance it leaves. *)
Inductive Outcome (A : Type) :=
  | Returns (a : A) (g : Game)   (* normal completion *)
  | Throws (g : Game)            (* a TypeError escaped the method *)
  | Spins (g : Game).            (* a loop did not finish within its fuel *)
Arguments Returns {A} a g.
Arguments Throws {A} g.
Arguments Spins {A} g.

(** The instance after the call, however it ended. *)
Definition finalState {A} (o : Outcome A) : Game :=
  match o with Returns _ g | Throws g | Spins g => g end.

(** [drawFirstCard()]. *)
Definition drawFirstCard (g : Game) : Outcome unit :=
  let '(firstCard, gs, r) := popDeck (gameState g) (random g) in
  match firstCard with
  | None => Throws (g |> set_gameState gs |> set_random r)
  | Some firstCard =>
      let '(firstCard, r) :=
        if bool_decide (color firstCard = wild) then
          let '(k, r') := randomBelow 4 r in
          (mkCard (default red (colors !! k)) (value firstCard), r')
        else (firstCard, r) in
      let gs :=
        if bool_decide (value firstCard = skip) then
          gs |> set_currentPlayerIndex
                  (js_rem (currentPlayerIndex gs + direction gs)
                          (playerCount gs))
        else if bool_decide (value firstCard = reverse) then
          if bool_decide (length (players gs) = 2)%nat then
            gs |> set_currentPlayerIndex
                    (js_rem (currentPlayerIndex gs + direction gs)
                            (playerCount gs))
          else gs |> set_direction (-1)
        else gs in
      let gs :=
        gs |> set_discardPile (discardPile gs ++ [firstCard])
           |> set_topCard (Some firstCard)
           |> set_currentColor (Some (color firstCard))
           |> set_status playing in
      Returns tt (g |> set_gameState gs |> set_random r
                    |> defer dealingAnimationDelay)
  end.

(** ** Snapshots and results *)

Module Snapshot.

(** One entry of [publicState.players]. *)
Record PlayerView := mkPlayerView {
  id : string;
  name : string;
  hand : list (option Card);
  handSize : nat;
  hasUno : bool
}.

(** The object returned by [getPublicState]. *)
Record PublicState := mkPublicState {
  waitingForUno : bool;
  players : list PlayerView;
  deckCount : nat;
  discardPile : list Card;
  topCard : option Card;
  currentPlayerIndex : Z;
  direction : Z;
  status : Status;
  winner : option Z;
  currentColor : option Color;
  hasDrawnPlayableCard : bool
}.

End Snapshot.

(** [getPublicState(playerId = null)].  The local [turnTimeRemaining] is
    computed by the source but is not part of the returned object. *)
Definition getPublicState (playerId : option string) (g : Game)
  : Snapshot.PublicState :=
  let gs := gameState g in
  Snapshot.mkPublicState
    (waitingForUno gs || false)
    ((fun player =>
        if truthy playerId && bool_decide (Some (id player) ≠ playerId)
        then Snapshot.mkPlayerView (id player) (name player) []
               (length (hand player)) (hasUno player)
        else Snapshot.mkPlayerView (id player) (name player) (hand player)
               (length (hand player)) (hasUno player))
     <$> players gs)
    (length (deck gs)) (discardPile gs) (topCard gs) (currentPlayerIndex gs)
    (direction gs) (status gs) (winner gs) (currentColor gs)
    (hasDrawnPlayableCard gs).

(** The objects returned by the public methods. *)
Inductive Result :=
  | Failure (message : string)
  | Success (message : string) (snapshot : Snapshot.PublicState)
  | Drawn (message : string) (card : option Card)
          (canPlayImmediately : bool) (snapshot : Snapshot.PublicState)
  | DisconnectInfo (disconnectedPlayerIndex : nat)
                   (disconnectedPlayerName : string)
  | ReconnectInfo (playerIndex : nat) (playerName : string).

(** The [success] field of a result. *)
Definition success (r : Result) : bool :=
  match r with Failure _ => false | _ => true end.

(** [players.findIndex(p => p.id === playerId)], with the seat found. *)
Definition findPlayer (playerId : string) (gs : GameState)
  : option (nat * Player) :=
  list_find (fun p => id p = playerId) (players gs).

(** ** Timeouts *)

(** The loop [while (players[currentPlayerIndex].disconnected)] of
    [handleTurnTimeout], where [origIndex] is the seat that timed out. *)
Inductive SkipExit :=
  | Found (gs : GameState)
  | Paused (gs : GameState)
  | Raised (gs : GameState)
  | OutOfFuel (gs : GameState).

Fixpoint skipDisconnected (fuel : nat) (origIndex : Z) (gs : GameState)
  : SkipExit :=
  match playerAt gs (currentPlayerIndex gs) with
  | None => Raised gs
  | Some p =>
      if disconnected p then
        let nextIndex :=
          js_rem (currentPlayerIndex gs + direction gs + playerCount gs)
                 (playerCount gs) in
        if bool_decide (nextIndex = origIndex) then Paused gs
        else
          match fuel with
          | O => OutOfFuel gs
          | S fuel' =>
              skipDisconnected fuel' origIndex
                (gs |> set_currentPlayerIndex nextIndex)
          end
      else Found gs
  end.

(** [currentPlayer.hasUno = false] for the seat at [i]. *)
Definition clearUno (i : Z) (gs : GameState) : GameState :=
  if bool_decide (i < 0) then gs
  else gs |> set_players (alter (set_hasUno false) (Z.to_nat i) (players gs)).

(** One penalty draw into the hand of seat [i]. *)
Definition drawInto (i : Z) (st : GameState * Random) : GameState * Random :=
  let '(card, gs, r) := popDeck st.1 st.2 in
  (gs |> pushHand i card, r).

(** The three-way penalty of [handleTurnTimeout] for [currentPlayer]. *)
Definition timeoutPenalty (i : Z) (currentPlayer : Player)
    (gs : GameState) (r : Random) : GameState * Random :=
  if waitingForUno gs && bool_decide (length (hand currentPlayer) = 1)%nat
     && negb (hasUno currentPlayer) then
    let '(gs, r) := drawInto i (drawInto i (gs, r)) in
    (gs |> clearUno i |> set_waitingForUno false, r)
  else if hasDrawnPlayableCard gs then
    (gs |> set_hasDrawnPlayableCard false, r)
  else
    let '(gs, r) := drawInto i (gs, r) in
    let gs :=
      match playerAt gs i with
      | Some p =>
          if bool_decide (1 < length (hand p))%nat then gs |> clearUno i
          else gs
      | None => gs
      end in
    (gs |> set_waitingForUno false, r).

(** [handleTurnTimeout()]. *)
Definition handleTurnTimeout (now : Z) (g : Game) : Outcome unit :=
  let gs := gameState g in
  if bool_decide (status gs ≠ playing) then Returns tt g
  else if bool_decide (turnExpiresAt g = None) then Returns tt g
  else
    let currentPlayerIndex0 := currentPlayerIndex gs in
    match playerAt gs currentPlayerIndex0 with
    | None => Throws g
    | Some currentPlayer =>
        let '(gs, r) :=
          timeoutPenalty currentPlayerIndex0 currentPlayer gs (random g) in
        let gs := gs |> set_hasDrawnPlayableCard false |> nextTurn in
        let g := g |> set_random r in
        match skipDisconnected (S (length (players gs))) currentPlayerIndex0 gs
        with
        | Raised gs => Throws (g |> set_gameState gs)
        | OutOfFuel gs => Spins (g |> set_gameState gs)
        | Paused gs => Returns tt (g |> set_gameState gs |> clearTurnTimer)
        | Found gs => Returns tt (g |> set_gameState gs |> startTurnTimer now)
        end
    end.

(** The callback scheduled by [setTimeout] in the mutating methods:
    the oldest pending re-arm runs [startTurnTimer()]. *)
Definition fireDeferred (now : Z) (g : Game) : Game :=
  match deferred g with
  | [] => g
  | _ :: rest => g |> set_deferred rest |> startTurnTimer now
  end.

(** ** Player actions *)

(** [['red', 'green', 'blue', 'yellow'].includes(chosenColor)], with the
    colour the string names. *)
Definition parseColor (s : string) : option Color :=
  if bool_decide (s = "red"%string) then Some red
  else if bool_decide (s = "green"%string) then Some green
  else if bool_decide (s = "blue"%string) then Some blue
  else if bool_decide (s = "yellow"%string) then Some yellow
  else None.

(** The colour that becomes current when [card] is played. *)
Definition resolveColor (card : Card) (chosenColor : option string) : Color :=
  if bool_decide (color card = wild) then
    match chosenColor with
    | Some s => if truthy (Some s) then default red (parseColor s) else red
    | None => red
    end
  else color card.

(** The values that give a two-seat player another turn. *)
Definition isActionValue (v : Value) : bool :=
  bool_decide (v = skip) || bool_decide (v = reverse)
  || bool_decide (v = draw2) || bool_decide (v = draw4).

(** The automatic draw of [drawAmount] cards by the seat that a draw-two
    or a wild-draw-four hits. *)
Definition drawForNext (drawAmount : nat) (g : Game) : Outcome unit :=
  let gs := gameState g in
  let nextPlayerIndex := currentPlayerIndex gs in
  match drawAmount with
  | O => Returns tt g
  | S _ =>
      match playerAt gs nextPlayerIndex with
      | None =>
          (* [nextPlayer.hand] raises after the first reshuffle test *)
          let '(gs1, r1) :=
            if bool_decide (length (deck gs) = 0)%nat
            then reshuffleDeck gs (random g) else (gs, random g) in
          Throws (g |> set_gameState gs1 |> set_random r1)
      | Some _ =>
          let '(gs, r) :=
            Nat.iter drawAmount (drawInto nextPlayerIndex) (gs, random g) in
          Returns tt (g |> set_gameState gs |> set_random r)
      end
  end.

(** [playCard(playerId, cardIndex, chosenColor = null)].  The transport
    hands over [cardIndex] as the client sent it: [Some i] is the integer
    [i], [None] is [undefined] (the field was left out).  Both range
    comparisons are false on [undefined] and [player.hand[undefined]] is
    [undefined], on which [canPlayCard] raises at [card.color]. *)
Definition playCard (playerId : string) (cardIndex : option Z)
    (chosenColor : option string) (g : Game) : Outcome Result :=
  let gs := gameState g in
  if bool_decide (status gs ≠ playing) then
    Returns (Failure "Game is not in playing state") g
  else
    match findPlayer playerId gs with
    | None => Returns (Failure "Player not found") g
    | Some (playerIndex, player) =>
      if bool_decide (Z.of_nat playerIndex ≠ currentPlayerIndex gs) then
        Returns (Failure "Not your turn") g
      else if waitingForUno gs then
        Returns (Failure "You must call UNO first") g
      else if bool_decide (length (hand player) = 1)%nat
              && negb (hasUno player) && hasPlayedCardThisTurn gs then
        Returns (Failure "You must call UNO before playing another card") g
      else
      match cardIndex with
      | None => Throws g
      | Some cardIndex =>
      if bool_decide (cardIndex < 0)
         || bool_decide (cardIndex >= Z.of_nat (length (hand player)))
      then Returns (Failure "Invalid card index") g
      else
        let card := mjoin (hand player !! Z.to_nat cardIndex) in
        match canPlayCard card (topCard gs) (currentColor gs)
                (Some (hand player)), card with
        | None, _ | _, None => Throws g
        | Some false, Some card =>
            if bool_decide (color card = wild) && bool_decide (value card = draw4)
            then Returns (Failure "Cannot play Wild Draw 4: You have a card matching the current color") g
            else Returns (Failure "Cannot play this card") g
        | Some true, Some card =>
            let hand' := splice1 (Z.to_nat cardIndex) (hand player) in
            let gs :=
              gs |> set_players (alter (set_hand hand') playerIndex (players gs))
                 |> set_hasPlayedCardThisTurn true
                 |> set_discardPile (discardPile gs ++ [card])
                 |> set_topCard (Some card)
                 |> set_currentColor (Some (resolveColor card chosenColor)) in
            if bool_decide (length hand' = 0)%nat then
              let g :=
                g |> set_gameState (gs |> set_status finished
                                       |> set_winner (Some (Z.of_nat playerIndex)))
                  |> clearTurnTimer in
              Returns (Success "Player wins!" (getPublicState None g)) g
            else
              let isActionCardGivingAnotherTurn :=
                bool_decide (length (players gs) = 2)%nat
                && isActionValue (value card) in
              if bool_decide (length hand' = 1)%nat && negb (hasUno player)
                 && negb isActionCardGivingAnotherTurn
                 && hasPlayedCardThisTurn gs then
                let g :=
                  g |> set_gameState (gs |> set_waitingForUno true
                                         |> set_hasDrawnPlayableCard false) in
                Returns (Success "Card played - call UNO!"
                           (getPublicState None g)) g
              else
                let '(skipTurn, drawAmount, gs) :=
                  if bool_decide (value card = draw4) then (true, 4%nat, gs)
                  else if bool_decide (value card = skip) then (true, 0%nat, gs)
                  else if bool_decide (value card = reverse) then
                    (bool_decide (length (players gs) = 2)%nat, 0%nat,
                     gs |> set_direction (direction gs * -1))
                  else if bool_decide (value card = draw2) then
                    (true, 2%nat, gs)
                  else (false, 0%nat, gs) in
                let gs := gs |> set_hasDrawnPlayableCard false in
                let g := g |> set_gameState gs |> clearTurnTimer in
                let playAnimationDelay := ANIMATION_DURATION in
                let drawAnimationDelay :=
                  if bool_decide (0 < drawAmount)%nat then ANIMATION_DURATION
                  else 0 in
                let totalDelay := playAnimationDelay + drawAnimationDelay in
                if negb skipTurn then
                  let g :=
                    g |> set_gameState (nextTurn (gameState g))
                      |> defer playAnimationDelay in
                  Returns (Success "Card played" (getPublicState None g)) g
                else
                  match drawForNext drawAmount
                          (g |> set_gameState (nextTurn (gameState g))) with
                  | Returns _ g =>
                      let g :=
                        g |> set_gameState (nextTurn (gameState g))
                          |> defer totalDelay in
                      Returns (Success "Card played" (getPublicState None g)) g
                  | Throws g => Throws g
                  | Spins g => Spins g
                  end
        end
      end
    end.

(** [drawCard(playerId)]. *)
Definition drawCard (playerId : string) (now : Z) (g : Game) : Outcome Result :=
  let gs := gameState g in
  if bool_decide (status gs ≠ playing) then
    Returns (Failure "Game is not in playing state") g
  else
    match findPlayer playerId gs with
    | None => Returns (Failure "Player not found") g
    | Some (playerIndex, player) =>
      if bool_decide (Z.of_nat playerIndex ≠ currentPlayerIndex gs) then
        Returns (Failure "Not your turn") g
      else if waitingForUno gs then
        Returns (Failure "You must call UNO first") g
      else
        let remainingTime :=
          match turnExpiresAt g with
          | Some t => if bool_decide (t = 0) then turnTimeLimit
                      else Z.max 0 (t - now)
          | None => turnTimeLimit
          end in
        let g := clearTurnTimer g in
        if hasDrawnPlayableCard gs then
          Returns (Failure "You must play the drawn card or end your turn") g
        else
          match hasPlayableCard (hand player) (topCard gs) (currentColor gs) with
          | None => Throws g
          | Some true =>
              Returns (Failure "You have a playable card. You must play a card before drawing.") g
          | Some false =>
              let '(drawnCard, gs, r) := popDeck gs (random g) in
              let hand' := hand player ++ [drawnCard] in
              let gs := gs |> pushHand (Z.of_nat playerIndex) drawnCard in
              let gs :=
                if bool_decide (1 < length hand')%nat
                then gs |> clearUno (Z.of_nat playerIndex) else gs in
              let g := g |> set_gameState gs |> set_random r in
              match canPlayCard drawnCard (topCard gs) (currentColor gs)
                      (Some hand') with
              | None => Throws g
              | Some true =>
                  let g :=
                    g |> set_gameState (gs |> set_hasDrawnPlayableCard true)
                      |> startTurnTimerWithDuration remainingTime now in
                  Returns (Drawn "Card drawn - you can play it or end your turn"
                             drawnCard true (getPublicState None g)) g
              | Some false =>
                  let g :=
                    g |> set_gameState (nextTurn gs)
                      |> defer ANIMATION_DURATION in
                  Returns (Drawn "Card drawn - not playable, turn ends"
                             drawnCard false (getPublicState None g)) g
              end
          end
    end.

(** [endTurn(playerId)]. *)
Definition endTurn (playerId : string) (g : Game) : Outcome Result :=
  let gs := gameState g in
  if bool_decide (status gs ≠ playing) then
    Returns (Failure "Game is not in playing state") g
  else
    match findPlayer playerId gs with
    | None => Returns (Failure "Player not found") g
    | Some (playerIndex, _) =>
      if bool_decide (Z.of_nat playerIndex ≠ currentPlayerIndex gs) then
        Returns (Failure "Not your turn") g
      else if negb (hasDrawnPlayableCard gs) then
        Returns (Failure "You can only end your turn after drawing a playable card") g
      else
        let g :=
          clearTurnTimer g
            |> set_gameState (gs |> set_hasDrawnPlayableCard false |> nextTurn)
            |> defer ANIMATION_DURATION in
        Returns (Success "Turn ended" (getPublicState None g)) g
    end.

(** [callUno(playerId)]. *)
Definition callUno (playerId : string) (g : Game) : Outcome Result :=
  let gs := gameState g in
  if bool_decide (status gs ≠ playing) then
    Returns (Failure "Game is not in playing state") g
  else
    match findPlayer playerId gs with
    | None => Returns (Failure "Player not found") g
    | Some (playerIndex, player) =>
      if bool_decide (Z.of_nat playerIndex ≠ currentPlayerIndex gs) then
        Returns (Failure "Not your turn") g
      else if bool_decide (length (hand player) = 1)%nat
              && negb (hasUno player) then
        let gs :=
          gs |> set_players (alter (set_hasUno true) playerIndex (players gs))
             |> set_hasDrawnPlayableCard false in
        let g :=
          clearTurnTimer g |> set_gameState (nextTurn gs)
                           |> defer ANIMATION_DURATION in
        Returns (Success "UNO called" (getPublicState None g)) g
      else Returns (Failure "Cannot call UNO") g
    end.

(** ** Disconnect and reconnect *)

(** The marker appended to the name of a disconnected seat. *)
Definition disconnectedSuffix : string := " (Disconnected)".

(** [s.replace(pat, '')]: the first occurrence of [pat] is removed. *)
Definition removeFirst (pat s : string) : string :=
  match String.index 0 pat s with
  | Some i =>
      (String.substring 0 i s
       +:+ String.substring (i + String.length pat)
             (String.length s - (i + String.length pat)) s)%string
  | None => s
  end.

(** [handlePlayerDisconnect(playerId)]. *)
Definition handlePlayerDisconnect (playerId : string) (g : Game)
  : Outcome Result :=
  let gs := gameState g in
  match findPlayer playerId gs with
  | None => Returns (Failure "Player not found in game") g
  | Some (playerIndex, disconnectedPlayer) =>
      if bool_decide (status gs = finished) then
        Returns (DisconnectInfo playerIndex (name disconnectedPlayer)) g
      else
        let originalName0 :=
          removeFirst disconnectedSuffix (name disconnectedPlayer) in
        let newName := (originalName0 +:+ disconnectedSuffix)%string in
        let mark p :=
          p |> set_originalName (Some originalName0)
            |> set_disconnected true
            |> set_name newName in
        Returns (DisconnectInfo playerIndex newName)
          (g |> set_gameState
                  (gs |> set_players (alter mark playerIndex (players gs))))
  end.

(** [handlePlayerReconnect(oldPlayerId, newPlayerId, playerName)]. *)
Definition handlePlayerReconnect (oldPlayerId newPlayerId playerName : string)
    (now : Z) (g : Game) : Outcome Result :=
  let gs := gameState g in
  match list_find
          (fun p => id p = oldPlayerId
                    ∨ (if truthy (originalName p)
                       then default ""%string (originalName p)
                       else removeFirst disconnectedSuffix (name p))
                      = playerName)
          (players gs) with
  | None => Returns (Failure "Player not found in game") g
  | Some (playerIndex, player) =>
      let restore p :=
        let p := p |> set_id newPlayerId |> set_socketId newPlayerId in
        let p :=
          if truthy (originalName p)
          then p |> set_name (default ""%string (originalName p))
                 |> set_originalName None
          else p |> set_name playerName in
        p |> set_disconnected false in
      let gs := gs |> set_players (alter restore playerIndex (players gs)) in
      let g := g |> set_gameState gs in
      let activePlayers := filter (fun p => disconnected p = false) (players gs) in
      let g :=
        if bool_decide (0 < length activePlayers)%nat
           && bool_decide (status gs = playing)
           && negb (match turnExpiresAt g with
                    | Some t => negb (bool_decide (t = 0))
                    | None => false
                    end)
        then startTurnTimer now g else g in
      Returns (ReconnectInfo playerIndex
                 (from_option name ""%string (players gs !! playerIndex))) g
  end.

(** ** Card counting *)

(** [|deck| + |discardPile| + Σ |hand_i|], by array lengths. *)
Definition totalCards (gs : GameState) : nat :=
  (length (deck gs) + length (discardPile gs)
   + sum_list ((fun p => length (hand p)) <$> players gs))%nat.

(** * Vocabulary of the properties *)

(** The validator, the snapshot and the turn advance are reasoned about
    through their lemmas; simplification leaves them folded. *)
Arguments canPlayCard : simpl never.

Arguments hasPlayableCard : simpl never.

Arguments getPublicState : simpl never.

Arguments nextTurn : simpl never.

Arguments popDeck : simpl never.

Arguments reshuffleDeck : simpl never.

(** Reads a field through the chain of assignments in front of it. *)
Ltac fields :=
  cbn [players deck discardPile topCard currentPlayerIndex direction status
       winner currentColor hasDrawnPlayableCard hasPlayedCardThisTurn
       waitingForUno set_players set_deck set_discardPile set_topCard
       set_currentPlayerIndex set_direction set_status set_winner
       set_currentColor set_hasDrawnPlayableCard set_hasPlayedCardThisTurn
       set_waitingForUno gameState turnTimer turnStartTime turnExpiresAt
       deferred random set_gameState set_random set_deferred defer
       clearTurnTimer id socketId hand name wallet hasUno originalName
       disconnected set_id set_socketId set_hand set_name set_hasUno
       set_originalName set_disconnected].

Tactic Notation "fields" "in" hyp(H) :=
  cbn [players deck discardPile topCard currentPlayerIndex direction status
       winner currentColor hasDrawnPlayableCard hasPlayedCardThisTurn
       waitingForUno set_players set_deck set_discardPile set_topCard
       set_currentPlayerIndex set_direction set_status set_winner
       set_currentColor set_hasDrawnPlayableCard set_hasPlayedCardThisTurn
       set_waitingForUno gameState turnTimer turnStartTime turnExpiresAt
       deferred random set_gameState set_random set_deferred defer
       clearTurnTimer id socketId hand name wallet hasUno originalName
       disconnected set_id set_socketId set_hand set_name set_hasUno
       set_originalName set_disconnected] in H.

(** [card] holds a colour of [currentColor] that is not the wild colour. *)
Definition matchesCurrentColor (currentColor : option Color) (c : Card) : Prop :=
  color c ≠ wild /\ Some (color c) = currentColor.

(** The scan of the hand made for a wild-draw-four. *)
Definition clashes (cur : option Color) (c : Card) : bool :=
  bool_decide (Some (color c) = cur) && bool_decide (color c ≠ wild).

(** The rule set as the specification words it, for a defined card, a
    defined top card and a hand of defined cards: the last clause reads
    its parenthesis, a coloured card is never accepted on a wild top
    card unless its colour is the current one. *)
Definition ruleSetAsWorded : Prop :=
  forall (card top : Card) (cur : option Color) (h : list Card),
    let verdict := canPlayCard (Some card) (Some top) cur (Some (Some <$> h)) in
    (color card = wild /\ value card = draw4 ->
       (verdict = Some true <-> ~ exists c, c ∈ h /\ matchesCurrentColor cur c))
    /\ (color card = wild /\ value card ≠ draw4 -> verdict = Some true)
    /\ (color card ≠ wild ->
          (verdict = Some true <->
             Some (color card) = cur \/ value card = value top))
    /\ (color card ≠ wild -> color top = wild ->
          verdict = Some true -> Some (color card) = cur).

(** The wild card that [drawFirstCard] recoloured red, offered on a plain
    wild top card while the current colour is blue. *)
Definition recolouredWild : Card := mkCard red wildV.

(** Closes the clauses of the rule set that the case at hand decides. *)
Ltac settle_rules :=
  repeat split; intros;
  repeat match goal with
         | H : _ /\ _ |- _ => destruct H
         | H : _ \/ _ |- _ => destruct H
         end;
  try done; try congruence; try tauto.

(** The idle sub-state in which a turn begins. *)
Definition idleTurn (gs : GameState) : Prop :=
  hasDrawnPlayableCard gs = false
  /\ hasPlayedCardThisTurn gs = false
  /\ waitingForUno gs = false
  /\ Forall (fun p => hasUno p = false) (players gs).

(** Splits the decision tree of a method whose result is known. *)
Ltac method_cases :=
  repeat (case_match; simplify_eq; try done).

(** [p2] is [p1] with the cards of its hand replaced by as many others. *)
Definition sameButCards (p1 p2 : Player) : Prop :=
  exists h, length h = length (hand p1) /\ p2 = set_hand h p1.

(** Two seat lists that differ at most in the cards held by seats other
    than [viewer]; with no viewer every seat is another seat. *)
Definition differInHiddenCards (viewer : option string)
    (ps1 ps2 : list Player) : Prop :=
  Forall2 (fun p1 p2 =>
             p1 = p2 \/ (Some (id p1) <> viewer /\ sameButCards p1 p2))
          ps1 ps2.

(** The game [g] with the seat list [ps] in place of its own. *)
Definition withPlayers (ps : list Player) (g : Game) : Game :=
  g |> set_gameState (gameState g |> set_players ps).

(** The redaction as the specification words it, the viewer being
    optional. *)
Definition redactsForAnyViewer : Prop :=
  forall (viewer : option string) (g : Game) (ps1 ps2 : list Player),
    differInHiddenCards viewer ps1 ps2 ->
    getPublicState viewer (withPlayers ps1 g)
    = getPublicState viewer (withPlayers ps2 g).

(** A connected, undeclared seat named after its id and holding [h]. *)
Definition seatOf (pid : string) (h : list (option Card)) : Player :=
  mkPlayer pid pid h pid None false None false.

(** A game in play at the seats [ps]: seat 0 is active, a green three
    is on top, four cards are left in the deck and no timer is armed. *)
Definition tableOf (ps : list Player) : Game :=
  mkGame (mkGameState ps
            [mkCard yellow V1; mkCard yellow V2; mkCard green V6; mkCard blue V2]
            [mkCard green V3] (Some (mkCard green V3)) 0 1
            playing None (Some green) false false false)
         None None None [] (mkRandom (fun _ => 0%nat) 0).

(** Two seatings that differ only in the card held by seat "b". *)
Definition seatsWithBlue : list Player :=
  [seatOf "a" [Some (mkCard red V5)]; seatOf "b" [Some (mkCard blue V7)]].

(** The same seating, seat "b" holding a yellow nine instead. *)
Definition seatsWithYellow : list Player :=
  [seatOf "a" [Some (mkCard red V5)]; seatOf "b" [Some (mkCard yellow V9)]].

(** A two-seat table on which seat "a" is active, holds a green five and
    a red five, and faces a green three. *)
Definition greenTable : Game :=
  tableOf [seatOf "a" [Some (mkCard green V5); Some (mkCard red V5)];
           seatOf "b" [Some (mkCard blue V7); Some (mkCard blue V8)]].


(** The scenario of the specification: seat "a" holds only a red five,
    never declared, and plays it on a red nine. *)
Definition lastCardTable : Game :=
  mkGame (mkGameState [seatOf "a" [Some (mkCard red V5)];
                       seatOf "b" [Some (mkCard blue V7); Some (mkCard blue V8)]]
            [mkCard green V1] [mkCard red V9] (Some (mkCard red V9)) 0 1
            playing None (Some red) false false false)
         (Some 15000) (Some 0) (Some 15000) [] (mkRandom (fun _ => 0%nat) 0).

(** The conditions under which [playCard] accepts [card], the card at
    [idx] in the hand of the active seat [i]. *)
Definition legalPlay (pid : string) (idx : Z) (g : Game) (i : nat)
    (p : Player) (card : Card) : Prop :=
  status (gameState g) = playing
  /\ findPlayer pid (gameState g) = Some (i, p)
  /\ Z.of_nat i = currentPlayerIndex (gameState g)
  /\ waitingForUno (gameState g) = false
  /\ (length (hand p) = 1%nat -> hasUno p = false ->
      hasPlayedCardThisTurn (gameState g) = false)
  /\ 0 <= idx < Z.of_nat (length (hand p))
  /\ mjoin (hand p !! Z.to_nat idx) = Some card
  /\ canPlayCard (Some card) (topCard (gameState g))
                 (currentColor (gameState g)) (Some (hand p)) = Some true.

(** A two-seat table whose direction is one of the two the engine uses. *)
Definition twoSeats (g : Game) : Prop :=
  length (players (gameState g)) = 2%nat
  /\ (direction (gameState g) = 1 \/ direction (gameState g) = -1).

(** Seat "a" is active at a two-seat table, faces a green three and
    holds a green reverse, a green skip and a red five. *)
Definition actionSeat : Player :=
  seatOf "a" [Some (mkCard green reverse); Some (mkCard green skip);
              Some (mkCard red V5)].

(** The green table with that seat as seat "a". *)
Definition actionTable : Game :=
  tableOf [actionSeat;
           seatOf "b" [Some (mkCard blue V7); Some (mkCard blue V8)]].

(** The seat [k] steps after [orig] in direction [d] at a table of [n]. *)
Definition seatAt (n d orig k : Z) : Z := (orig + k * d) `mod` n.

(** Whether the seat at index [c] is marked disconnected. *)
Definition seatDisconnected (gs : GameState) (c : Z) : bool :=
  from_option disconnected false (playerAt gs c).

(** What the penalty and the turn advance leave alone: the seating. *)
Definition sameSeating (gs gs' : GameState) : Prop :=
  direction gs' = direction gs
  /\ currentPlayerIndex gs' = currentPlayerIndex gs
  /\ status gs' = status gs
  /\ disconnected <$> players gs' = disconnected <$> players gs.

(** The branch of the penalty that applies to the seat that timed out. *)
Definition declarationMissed (gs : GameState) (p : Player) : bool :=
  waitingForUno gs && bool_decide (length (hand p) = 1)%nat && negb (hasUno p).

(** The hand that the penalty leaves to the seat that timed out. *)
Definition penalised (gs : GameState) (p : Player)
    (h' : list (option Card)) : Prop :=
  if declarationMissed gs p then exists c1 c2, h' = hand p ++ [c1; c2]
  else if hasDrawnPlayableCard gs then h' = hand p
  else exists c, h' = hand p ++ [c].

(** The state on which the skipping loop of [handleTurnTimeout] starts. *)
Definition beforeSkip (g : Game) (p : Player) : GameState * Random :=
  let '(gs, r) :=
    timeoutPenalty (currentPlayerIndex (gameState g)) p (gameState g)
                   (random g) in
  (gs |> set_hasDrawnPlayableCard false |> nextTurn, r).

(** The seat that ends the scan when no connected seat is met. *)
Definition lastScanned (n : Z) : Z := Z.max 1 (n - 1).

(** The pause as the specification words it: when every seat is
    disconnected the turn does not advance and the timer is unarmed. *)
Definition pauseKeepsTurn : Prop :=
  forall (now : Z) (g : Game),
    status (gameState g) = playing -> turnExpiresAt g <> None ->
    (forall c, 0 <= c < playerCount (gameState g) ->
               seatDisconnected (gameState g) c = true) ->
    forall g', handleTurnTimeout now g = Returns tt g' ->
               currentPlayerIndex (gameState g')
               = currentPlayerIndex (gameState g)
               /\ turnExpiresAt g' = None.

(** The green table after both seats disconnected during seat "a"'s
    turn, the deadline still armed. *)
Definition desertedTable : Game :=
  finalState (handlePlayerDisconnect "b"
                (finalState (handlePlayerDisconnect "a"
                               (startTurnTimer 0 greenTable)))).

(** Seat "b" left the green table while seat "a"'s deadline was armed. *)
Definition halfDesertedTable : Game :=
  finalState (handlePlayerDisconnect "b" (startTurnTimer 0 greenTable)).

(** One event handled by the engine: a client action, an expiry of the
    turn timer, a deferred re-arm, a disconnect or a reconnect.  A call
    that raises takes the process down, so only returning calls step. *)
Inductive step : Game -> Game -> Prop :=
  | step_playCard pid idx ch g r g' :
      playCard pid idx ch g = Returns r g' -> step g g'
  | step_drawCard pid now g r g' :
      drawCard pid now g = Returns r g' -> step g g'
  | step_endTurn pid g r g' :
      endTurn pid g = Returns r g' -> step g g'
  | step_callUno pid g r g' :
      callUno pid g = Returns r g' -> step g g'
  | step_timeout now g g' :
      handleTurnTimeout now g = Returns tt g' -> step g g'
  | step_deferred now g :
      step g (fireDeferred now g)
  | step_disconnect pid g r g' :
      handlePlayerDisconnect pid g = Returns r g' -> step g g'
  | step_reconnect old new nm now g r g' :
      handlePlayerReconnect old new nm now g = Returns r g' -> step g g'.

(** The server builds the game, reveals the opening card once, and then
    feeds the engine one event at a time. *)
Inductive served : Game -> Prop :=
  | served_start ids names wallets r g :
      drawFirstCard (newGame ids names wallets r) = Returns tt g -> served g
  | served_step g g' : served g -> step g g' -> served g'.

(** A seat is asked to declare only while it holds one undeclared card. *)
Definition declaring (g : Game) : Prop :=
  waitingForUno (gameState g) = true ->
  exists p, playerAt (gameState g) (currentPlayerIndex (gameState g)) = Some p
            /\ length (hand p) = 1%nat /\ hasUno p = false.

(** Seat "a" played down to one card, has not declared, and its deadline
    is armed; the deck holds three cards. *)
Definition unoTable : Game :=
  mkGame (mkGameState [seatOf "a" [Some (mkCard red V5)];
                       seatOf "b" [Some (mkCard blue V7); Some (mkCard blue V8)]]
            [mkCard green V1; mkCard green V2; mkCard yellow V4]
            [mkCard red V9; mkCard red V7] (Some (mkCard red V7)) 0 1
            playing None (Some red) false true true)
         (Some 15000) (Some 0) (Some 15000) [] (mkRandom (fun _ => 0%nat) 0).

(** The cards in a hand: its entries that are not [undefined]. *)
Definition heldIn (h : list (option Card)) : nat := length (omap (fun c => c) h).

(** The cards in the deck, on the discard pile and in the hands. *)
Definition cardsHeld (gs : GameState) : nat :=
  (length (deck gs) + length (discardPile gs)
   + sum_list ((fun p => heldIn (hand p)) <$> players gs))%nat.

(** The [undefined] entries of the hands. *)
Definition undefinedEntries (gs : GameState) : nat :=
  sum_list ((fun p => length (filter (fun c => c = None) (hand p)))
              <$> players gs).

(** [1] for a card, [0] for [undefined]. *)
Definition oneIf (c : option Card) : nat :=
  match c with Some _ => 1%nat | None => 0%nat end.

(** The turn timer fires at its deadline. *)
Definition expire (g : Game) : Game :=
  finalState (handleTurnTimeout (default 0 (turnExpiresAt g)) g).

(** A two-seat game on the shuffle that the all-zero oracle gives: the
    opening card is revealed and the first timer started. *)
Definition idleGame : Game :=
  fireDeferred 5000
    (finalState (drawFirstCard
                   (newGame ["a"; "b"] ["A"; "B"] []
                            (mkRandom (fun _ => 0%nat) 0)))).

(** [k] expiries in a row, as long as each of them returns. *)
Fixpoint expireAll (k : nat) (g : Game) : option Game :=
  match k with
  | O => Some g
  | S k' =>
      match handleTurnTimeout (default 0 (turnExpiresAt g)) g with
      | Returns _ g' => expireAll k' g'
      | _ => None
      end
  end.

(** A two-seat game whose shuffle leaves a plain wild on top of the deck
    after the deal; the oracle then colours it red. *)
Definition wildOpeningGame : Game :=
  fireDeferred 5000
    (finalState (drawFirstCard
                   (newGame ["a"; "b"] ["A"; "B"] []
                      (mkRandom (fun k => if decide (k = 7)%nat then 93%nat
                                          else (107 - k)%nat) 0)))).

(** Seat "a" lets its first turn expire, seat "b" plays a wild and
    names blue, then nobody acts until the deck has run out and been
    refilled from the discard pile. *)
Definition afterReshuffle : Game :=
  Nat.iter 93 expire
    (fireDeferred 40000
       (finalState (playCard "b" (Some 0) (Some "blue"%string)
                      (expire wildOpeningGame)))).

(** Whether the call completed normally. *)
Definition returned {A} (o : Outcome A) : bool :=
  match o with Returns _ _ => true | _ => false end.

(** ** Vocabulary of the further properties *)

(** How often [createDeck] is meant to hold a card: a coloured zero once,
    every other coloured number or action card twice, a wild and a
    wild-draw-four four times each, and nothing else. *)
Definition copiesInDeck (c : Card) : nat :=
  match color c, value c with
  | wild, wildV | wild, draw4 => 4
  | wild, _ => 0
  | _, wildV | _, draw4 => 0
  | _, V0 => 1
  | _, _ => 2
  end%nat.

(** The verdict of the validator on a card, a top card and a hand that
    are all defined. *)
Definition accepts (card top : Card) (cur : option Color) (h : list Card)
  : bool :=
  if bool_decide (color card = wild) then
    if bool_decide (value card = draw4) then negb (existsb (clashes cur) h)
    else true
  else bool_decide (Some (color card) = cur)
       || bool_decide (value card = value top).

(** The state right after the card at [k] in the hand of seat [i] went
    onto the discard pile: the first five assignments of a play. *)
Definition playedState (i k : nat) (p : Player) (card : Card)
    (ch : option string) (gs : GameState) : GameState :=
  gs |> set_players (alter (set_hand (splice1 k (hand p))) i (players gs))
     |> set_hasPlayedCardThisTurn true
     |> set_discardPile (discardPile gs ++ [card])
     |> set_topCard (Some card)
     |> set_currentColor (Some (resolveColor card ch)).

(** The cards that the seat after the player is made to draw. *)
Definition drawAmountOf (v : Value) : nat :=
  match v with draw4 => 4 | draw2 => 2 | _ => 0 end%nat.

(** Whether the seat after the player loses its turn. *)
Definition skipsNext (seats : nat) (v : Value) : bool :=
  match v with
  | draw4 | skip | draw2 => true
  | reverse => bool_decide (seats = 2%nat)
  | _ => false
  end.

(** A reverse turns the direction of play round. *)
Definition turned (v : Value) (gs : GameState) : GameState :=
  match v with
  | reverse => gs |> set_direction (direction gs * -1)
  | _ => gs
  end.

(** Whether a play that leaves [hand'] to a seat asks it to declare. *)
Definition mustDeclare (seats : nat) (p : Player) (hand' : list (option Card))
    (v : Value) : bool :=
  bool_decide (length hand' = 1)%nat && negb (hasUno p)
  && negb (bool_decide (seats = 2%nat) && isActionValue v).

(** The three ways in which an accepted play of [card], the card at [k]
    in the hand of the active seat [i], ends: the game is won; the seat
    is asked to declare; or the card takes effect and the turn moves on. *)
Definition playOutcome (i k : nat) (p : Player) (card : Card)
    (ch : option string) (g : Game) (r : Result) (g' : Game) : Prop :=
  let gsP := playedState i k p card ch (gameState g) in
  let hand' := splice1 k (hand p) in
  let seats := length (players (gameState g)) in
  if bool_decide (length hand' = 0)%nat then
    g' = clearTurnTimer
           (g |> set_gameState (gsP |> set_status finished
                                    |> set_winner (Some (Z.of_nat i))))
    /\ r = Success "Player wins!" (getPublicState None g')
  else if mustDeclare seats p hand' (value card) then
    g' = g |> set_gameState (gsP |> set_waitingForUno true
                                 |> set_hasDrawnPlayableCard false)
    /\ r = Success "Card played - call UNO!" (getPublicState None g')
  else
    let gsN :=
      nextTurn (turned (value card) gsP |> set_hasDrawnPlayableCard false) in
    exists gsD rD,
      Nat.iter (drawAmountOf (value card))
               (drawInto (currentPlayerIndex gsN)) (gsN, random g) = (gsD, rD)
      /\ g' = mkGame (if skipsNext seats (value card) then nextTurn gsD else gsD)
                None None None
                (deferred g
                 ++ [ANIMATION_DURATION
                     + (if bool_decide (0 < drawAmountOf (value card))%nat
                        then ANIMATION_DURATION else 0)])
                rD
      /\ r = Success "Card played" (getPublicState None g').

(** The time that [drawCard] leaves on the clock of a seat that drew a
    playable card. *)
Definition remainingTime (now : Z) (g : Game) : Z :=
  match turnExpiresAt g with
  | Some t => if bool_decide (t = 0) then turnTimeLimit else Z.max 0 (t - now)
  | None => turnTimeLimit
  end.

(** The two ways in which an accepted draw by the active seat [i] ends:
    the card drawn is playable and the seat has to decide, or it is not
    and the turn moves on. *)
Definition drawOutcome (i : nat) (p : Player) (now : Z) (g : Game)
    (r : Result) (g' : Game) : Prop :=
  exists card gs1 r1,
    popDeck (gameState g) (random g) = (card, gs1, r1)
    /\ let hand' := hand p ++ [card] in
       let gs2 :=
         if bool_decide (1 < length hand')%nat
         then gs1 |> pushHand (Z.of_nat i) card |> clearUno (Z.of_nat i)
         else gs1 |> pushHand (Z.of_nat i) card in
       exists playable : bool,
         canPlayCard card (topCard gs2) (currentColor gs2) (Some hand')
         = Some playable
         /\ g' = (if playable then
                    startTurnTimerWithDuration (remainingTime now g) now
                      (mkGame (gs2 |> set_hasDrawnPlayableCard true)
                         None None None (deferred g) r1)
                  else
                    mkGame (nextTurn gs2) None None None
                      (deferred g ++ [ANIMATION_DURATION]) r1)
         /\ exists msg, r = Drawn msg card playable (getPublicState None g').

(** The mark that [handlePlayerDisconnect] puts on a seat. *)
Definition markDisconnected (p : Player) : Player :=
  p |> set_originalName (Some (removeFirst disconnectedSuffix (name p)))
    |> set_disconnected true
    |> set_name (removeFirst disconnectedSuffix (name p) +:+ disconnectedSuffix)%string.

(** The seat as [handlePlayerReconnect] gives it back to its player. *)
Definition restoreSeat (newPlayerId playerName : string) (p : Player) : Player :=
  (if truthy (originalName p)
   then p |> set_id newPlayerId |> set_socketId newPlayerId
          |> set_name (default ""%string (originalName p))
          |> set_originalName None
   else p |> set_id newPlayerId |> set_socketId newPlayerId
          |> set_name playerName)
  |> set_disconnected false.

(** The name under which [handlePlayerReconnect] looks a seat up. *)
Definition reconnectName (p : Player) : string :=
  if truthy (originalName p) then default ""%string (originalName p)
  else removeFirst disconnectedSuffix (name p).

(** A seat after draws: who sits there is unchanged, a declaration may
    have been taken back, and cards were added at the end of the hand. *)
Definition seatGrown (p p' : Player) : Prop :=
  id p' = id p /\ socketId p' = socketId p /\ name p' = name p
  /\ wallet p' = wallet p /\ originalName p' = originalName p
  /\ disconnected p' = disconnected p
  /\ (hasUno p' = hasUno p \/ hasUno p' = false)
  /\ exists ext, hand p' = hand p ++ ext.

(** A game state after draws: apart from the deck and the discards under
    the top card, only the hands changed, and they grew. *)
Definition drawnFrom (gs gs' : GameState) : Prop :=
  Forall2 seatGrown (players gs) (players gs')
  /\ topCard gs' = topCard gs
  /\ currentPlayerIndex gs' = currentPlayerIndex gs
  /\ direction gs' = direction gs
  /\ status gs' = status gs
  /\ winner gs' = winner gs
  /\ currentColor gs' = currentColor gs
  /\ hasDrawnPlayableCard gs' = hasDrawnPlayableCard gs
  /\ hasPlayedCardThisTurn gs' = hasPlayedCardThisTurn gs
  /\ waitingForUno gs' = waitingForUno gs
  /\ last (discardPile gs') = last (discardPile gs).

(** The seat the opening card leaves the turn with, and the direction of
    play it sets: a skip, and a reverse at a two-seat table, pass over
    the first seat; a reverse at any other table turns the direction. *)
Definition openingMove (v : Value) (gs : GameState) : GameState :=
  if bool_decide (v = skip) then
    gs |> set_currentPlayerIndex
            (js_rem (currentPlayerIndex gs + direction gs) (playerCount gs))
  else if bool_decide (v = reverse) then
    if bool_decide (length (players gs) = 2)%nat then
      gs |> set_currentPlayerIndex
              (js_rem (currentPlayerIndex gs + direction gs) (playerCount gs))
    else gs |> set_direction (-1)
  else gs.

(** The game state that the constructor hands to [dealCards]. *)
Definition undealt (playerIds playerNames playerWallets : list string)
    (shuffled : list Card) : GameState :=
  mkGameState (imap (newPlayer playerNames playerWallets) playerIds)
              shuffled [] None 0 1 dealing None None false false false.

(** The turn index names a seat, play runs in one of the two directions
    and the deal is over. *)
Definition wellSeated (gs : GameState) : Prop :=
  0 <= currentPlayerIndex gs < playerCount gs
  /\ (direction gs = 1 \/ direction gs = -1)
  /\ status gs <> dealing.

(** How the declaration flags hang together: no seat is marked as having
    declared; a seat is asked to declare only right after its play and
    never while it decides on a drawn card; and while the game is in
    play a card has been played this turn only if the declaration is
    pending. *)
Definition unoFlags (gs : GameState) : Prop :=
  Forall (fun p => hasUno p = false) (players gs)
  /\ (waitingForUno gs = true ->
      hasDrawnPlayableCard gs = false /\ hasPlayedCardThisTurn gs = true
      /\ status gs = playing)
  /\ (status gs = playing -> hasPlayedCardThisTurn gs = true ->
      waitingForUno gs = true).

(** The top card is the last discard, and the colour in play is one of
    the four colours: that of the top card unless the top card is wild. *)
Definition topShown (gs : GameState) : Prop :=
  exists top c,
    topCard gs = Some top /\ last (discardPile gs) = Some top
    /\ currentColor gs = Some c /\ c <> wild
    /\ (color top <> wild -> c = color top).


(** The three timer fields are set and cleared together: either no
    deadline is armed, or the game is in play, the pending expiry has a
    delay that is not negative and the deadline is the start of the turn
    plus that delay. *)
Definition timerCoherent (g : Game) : Prop :=
  (turnTimer g = None /\ turnStartTime g = None /\ turnExpiresAt g = None)
  \/ (status (gameState g) = playing
      /\ exists d s, turnTimer g = Some d /\ turnStartTime g = Some s
                     /\ turnExpiresAt g = Some (s + d) /\ 0 <= d).

(** The hands at the table, seat by seat. *)
Definition handsOf (gs : GameState) : list (list (option Card)) :=
  hand <$> players gs.

(** The last-card table after seat "a" has played its red five: the game
    is finished. *)
Definition wonTable : Game :=
  finalState (playCard "a" (Some 0) None lastCardTable).

(** A three-seat table at which seat "a" is active, faces a green three
    and holds a green draw-two and a red five. *)
Definition threeSeatTable : Game :=
  tableOf [seatOf "a" [Some (mkCard green draw2); Some (mkCard red V5)];
           seatOf "b" [Some (mkCard blue V7); Some (mkCard blue V8)];
           seatOf "c" [Some (mkCard red V1); Some (mkCard red V2)]].

(** Seat "a" holds a red five alone and faces a green three: it has no
    playable card and must draw. *)
Definition drawTable : Game :=
  tableOf [seatOf "a" [Some (mkCard red V5)];
           seatOf "b" [Some (mkCard blue V7); Some (mkCard blue V8)]].

(** Seat "a" plays the card at [idx], naming red if the card is wild. *)
Definition playsA (idx : Z) (g : Game) : Game :=
  finalState (playCard "a" (Some idx) (Some "red"%string) g).

(** The oldest pending re-arm runs and the seat then lets its turn
    expire. *)
Definition sitsOut (g : Game) : Game := expire (fireDeferred 0 g).

(** The idle game played on: seat "b" never acts; seat "a" plays its
    yellow draw-two, its yellow reverse and three of its wilds, and then
    the fourth wild from a hand of two. *)
Definition declarationPending : Game :=
  playsA 1 (sitsOut (playsA 1 (sitsOut (playsA 1 (sitsOut
    (playsA 1 (playsA 5 (playsA 5 (expire idleGame))))))))).

(** Whether a reconnect finds the game paused: it is in play and no
    deadline is armed. *)
Definition paused (g : Game) : bool :=
  bool_decide (status (gameState g) = playing)
  && negb (match turnExpiresAt g with
           | Some t => negb (bool_decide (t = 0))
           | None => false
           end).

(** Seat "a" drew a blue two that it cannot play; seat "b" then drew a
    green six, which it can play, and has to decide. *)
Definition decidingTable : Game :=
  finalState (drawCard "b" 2000 (finalState (drawCard "a" 1000 drawTable))).

(** Seat "a" has to draw, the deck is empty and the discard pile holds
    the top card only. *)
Definition exhaustedTable : Game :=
  mkGame (mkGameState [seatOf "a" [Some (mkCard red V5)];
                       seatOf "b" [Some (mkCard blue V7); Some (mkCard blue V8)]]
            [] [mkCard green V3] (Some (mkCard green V3)) 0 1
            playing None (Some green) false false false)
         (Some 15000) (Some 0) (Some 15000) [] (mkRandom (fun _ => 0%nat) 0).

(** [getFullState()]: a deep copy of the game state made by a round trip
    through JSON, which keeps every field the engine reads ([undefined]
    entries come back as [null], and both are [None] here). *)
Definition getFullState (g : Game) : GameState := gameState g.

(** [broadcastGameState(gameId, game)] of [server.js]: one
    [game_state_update] per seat, sent to the room named by the id of
    the seat and carrying the snapshot made for that id.  The messages
    are listed in the order in which they are emitted, as pairs of room
    and payload. *)
Definition broadcastGameState (g : Game)
  : list (string * Snapshot.PublicState) :=
  (fun player => (id player, getPublicState (Some (id player)) g))
    <$> players (getFullState g).

(** The cards that draws can still take: the deck and the discards
    under the top card. *)
Definition supply (gs : GameState) : nat :=
  (length (deck gs) + (length (discardPile gs) - 1))%nat.

(** The entries [ext] that draws appended to a hand while the game
    state went from [gs] to [gs']: the cards among them left the deck
    and the discard pile; they are all cards when the supply covers
    them; and when the deck alone covers them they are its last cards,
    taken from the end, the discard pile staying as it is. *)
Definition drewCards (gs gs' : GameState) (ext : list (option Card)) : Prop :=
  deck gs ++ discardPile gs
  ≡ₚ deck gs' ++ discardPile gs' ++ omap (fun c => c) ext
  /\ ((length ext <= supply gs)%nat ->
      Forall is_Some ext /\ supply gs' = (supply gs - length ext)%nat)
  /\ ((length ext <= length (deck gs))%nat ->
      exists cards,
        ext = Some <$> cards /\ deck gs = deck gs' ++ rev cards
        /\ discardPile gs' = discardPile gs).

(** The idle game after 93 expiries: the deck is empty, the discard
    pile holds the top card alone and seat "a" is to play. *)
Definition exhaustedGame : Game := Nat.iter 93 expire idleGame.

(** [p'] is the seat [p] with some hand and with whatever it had
    declared taken back: every other field is as in [p]. *)
Definition undeclared (p p' : Player) : Prop :=
  p' = p |> set_hand (hand p') |> set_hasUno false.

(** A two-seat table at which seat "b" is marked as having declared
    while seat "a", who holds a green five, a red five and a red seven,
    is to play on a green three. *)
Definition declaredTable : Game :=
  tableOf [seatOf "a" [Some (mkCard green V5); Some (mkCard red V5);
                       Some (mkCard red V7)];
           mkPlayer "b" "b" [Some (mkCard blue V7)] "b" None true None false].

(** * Properties *)

(** ** Arrays and the deck *)

Lemma pop_snoc {A} (l : list A) (x : A) : pop (l ++ [x]) = (Some x, l).
Proof.
  induction l as [|y l IH]; [done|].
  cbn [app pop]. rewrite IH. by destruct l.
Qed.

Lemma pop_nil_inv {A} (l : list A) : (pop l).1 = None -> l = [].
Proof.
  destruct l as [|x l] using rev_ind; [done|].
  by rewrite pop_snoc.
Qed.

Lemma pop_length {A} (l : list A) :
  length (pop l).2 = (length l - 1)%nat.
Proof.
  destruct l as [|x l _] using rev_ind; [done|].
  rewrite pop_snoc, length_app. simpl. lia.
Qed.

Lemma createDeck_length : length createDeck = 108%nat.
Proof. reflexivity. Qed.

Lemma swap_length {A} (i j : nat) (l : list A) : length (swap i j l) = length l.
Proof.
  unfold swap. destruct (l !! i), (l !! j); try done.
  by rewrite !length_insert.
Qed.

Lemma shuffleFrom_length i l r : length (shuffleFrom i l r).1 = length l.
Proof.
  revert l r. induction i as [|i IH]; intros l r; [done|].
  simpl. rewrite IH. apply swap_length.
Qed.

Lemma shuffleDeck_length l r : length (shuffleDeck l r).1 = length l.
Proof. apply shuffleFrom_length. Qed.

(** ** The rule validator *)

Lemma some_exc_defined {A} (f : A -> bool) (l : list A) :
  some_exc (fun x : option A => y ← x; Some (f y)) (Some <$> l)
  = Some (existsb f l).
Proof.
  induction l as [|x l IH]; [done|].
  cbn. destruct (f x); [done|]. exact IH.
Qed.

Lemma existsb_elem_of {A} (f : A -> bool) (l : list A) :
  existsb f l = true <-> exists x, x ∈ l /\ f x = true.
Proof.
  rewrite existsb_exists. setoid_rewrite list_elem_of_In. done.
Qed.

Lemma clash_exists (cur : option Color) (h : list Card) :
  existsb (clashes cur) h = true
  <-> exists c, c ∈ h /\ matchesCurrentColor cur c.
Proof.
  rewrite existsb_elem_of. unfold clashes, matchesCurrentColor.
  split; intros (c & Hin & Hc); exists c; split; try done.
  - apply andb_true_iff in Hc as [?%bool_decide_eq_true ?%bool_decide_eq_true].
    done.
  - destruct Hc. apply andb_true_iff. by rewrite !bool_decide_eq_true.
Qed.

Lemma canPlayCard_draw4_scan (cur : option Color) (h : list Card) :
  match Some <$> h with
  | [] => Some true
  | c :: cs =>
      hasMatchingColor ←
        some_exc (fun handCard : option Card =>
                    hc ← handCard;
                    Some (bool_decide (Some (color hc) = cur)
                          && bool_decide (color hc ≠ wild)))
                 (c :: cs);
      if hasMatchingColor : bool then Some false else Some true
  end
  = (if existsb (clashes cur) h then Some false else Some true).
Proof.
  destruct h as [|c0 h']; [done|].
  rewrite fmap_cons. cbv beta iota. rewrite <- fmap_cons.
  unfold clashes. by rewrite (some_exc_defined _ (c0 :: h')).
Qed.

(** C2, as worded, fails: a coloured card carrying a wild value is
    accepted on a wild top card by value although its colour is not the
    current colour. *)
Lemma canPlayCard_value_match_on_wild_top :
  canPlayCard (Some recolouredWild) (Some (mkCard wild wildV)) (Some blue)
              (Some [Some recolouredWild]) = Some true
  /\ ~ ruleSetAsWorded.
Proof.
  split; [reflexivity|].
  intros H.
  destruct (H recolouredWild (mkCard wild wildV) (Some blue) [recolouredWild])
    as (_ & _ & _ & Hno).
  by specialize (Hno ltac:(done) eq_refl eq_refl).
Qed.

(** C2, amended: [canPlayCard] always answers on defined cards; a
    wild-draw-four is accepted iff no card of the hand has the current
    colour (wild cards apart); a plain wild is always accepted; a coloured
    card is accepted iff its colour is the current colour or its value is
    the top card's value, whatever the top card's colour; and between two
    cards of [createDeck] a coloured card never has the value of a wild
    top card, so there it is accepted by colour only. *)
Theorem canPlayCard_rules (card top : Card) (cur : option Color)
    (h : list Card) :
  exists b : bool,
    canPlayCard (Some card) (Some top) cur (Some (Some <$> h)) = Some b
    /\ (color card = wild /\ value card = draw4 ->
          (b = true <-> ~ exists c, c ∈ h /\ matchesCurrentColor cur c))
    /\ (color card = wild /\ value card ≠ draw4 -> b = true)
    /\ (color card ≠ wild ->
          (b = true <-> Some (color card) = cur \/ value card = value top))
    /\ (card ∈ createDeck -> top ∈ createDeck ->
        color card ≠ wild -> color top = wild ->
          value card ≠ value top /\ (b = true <-> Some (color card) = cur)).
Proof.
  assert (Hdeck : card ∈ createDeck -> top ∈ createDeck ->
                  color card ≠ wild -> color top = wild ->
                  value card ≠ value top).
  { intros Hc Ht Hcc Htc.
    assert (Hv : value top = wildV \/ value top = draw4).
    { clear Hc. vm_compute in Ht.
      repeat (apply elem_of_cons in Ht as [->|Ht]; [by (done || auto)|]).
      by apply elem_of_nil in Ht. }
    clear Ht. vm_compute in Hc.
    repeat (apply elem_of_cons in Hc as [->|Hc];
            [by (done || (destruct Hv as [-> | ->]; done))|]).
    by apply elem_of_nil in Hc. }
  unfold canPlayCard. cbn [mbind option_bind].
  destruct (decide (color card = wild)) as [Hw|Hw].
  - rewrite (bool_decide_eq_true_2 _ Hw). cbn [andb].
    destruct (decide (value card = draw4)) as [Hd|Hd].
    + rewrite (bool_decide_eq_true_2 _ Hd).
      rewrite (canPlayCard_draw4_scan cur h).
      pose proof (clash_exists cur h) as Hex.
      destruct (existsb _ h) eqn:E.
      * exists false. split; [done|]. settle_rules.
      * exists true. split; [done|]. settle_rules.
        intros Hc. by apply Hex in Hc.
    + rewrite (bool_decide_eq_false_2 _ Hd).
      exists true. split; [done|]. settle_rules.
  - rewrite (bool_decide_eq_false_2 (color card = wild) Hw). cbn [andb].
    destruct (decide (Some (color card) = cur)) as [Hc|Hc].
    + rewrite (bool_decide_eq_true_2 _ Hc).
      exists true. split; [done|]. settle_rules. all: by eapply Hdeck.
    + rewrite (bool_decide_eq_false_2 _ Hc).
      rewrite (bool_decide_eq_true_2 (color card ≠ wild) Hw), andb_true_r.
      destruct (decide (value card = value top)) as [Hv|Hv].
      * rewrite (bool_decide_eq_true_2 _ Hv).
        exists true. split; [done|]. settle_rules.
        all: exfalso; by eapply Hdeck.
      * rewrite (bool_decide_eq_false_2 _ Hv).
        exists false. split; [done|]. settle_rules.
Qed.

(** ** Turn advance *)

Lemma nextTurn_idle gs : idleTurn (nextTurn gs).
Proof.
  unfold idleTurn, nextTurn. cbn. repeat split.
  apply Forall_fmap, Forall_true. done.
Qed.

Lemma nextTurn_players_length gs :
  length (players (nextTurn gs)) = length (players gs).
Proof. unfold nextTurn. cbn. by rewrite length_fmap. Qed.

Lemma idleTurn_set_index i gs :
  idleTurn gs -> idleTurn (gs |> set_currentPlayerIndex i).
Proof. done. Qed.

Lemma skipDisconnected_idle fuel orig gs :
  idleTurn gs ->
  match skipDisconnected fuel orig gs with
  | Found gs' | Paused gs' | Raised gs' | OutOfFuel gs' => idleTurn gs'
  end.
Proof.
  revert gs. induction fuel as [|fuel IH]; intros gs Hidle; simpl.
  - destruct (playerAt gs _) as [p|]; [|done].
    destruct (disconnected p); [|done]. by case_bool_decide.
  - destruct (playerAt gs _) as [p|]; [|done].
    destruct (disconnected p); [|done]. case_bool_decide; [done|].
    by apply IH.
Qed.

Lemma startTurnTimerWithDuration_gameState d now g :
  gameState (startTurnTimerWithDuration d now g) = gameState g.
Proof.
  unfold startTurnTimerWithDuration. cbn.
  repeat case_bool_decide; try done.
  all: destruct (_ || _); try done; by destruct (playerAt _ _).
Qed.

Lemma startTurnTimer_gameState now g :
  gameState (startTurnTimer now g) = gameState g.
Proof. apply startTurnTimerWithDuration_gameState. Qed.

Lemma playCard_advances pid idx ch g snap g' :
  playCard pid idx ch g = Returns (Success "Card played" snap) g' ->
  exists gs0, gameState g' = nextTurn gs0.
Proof. unfold playCard. intros H. method_cases; eauto. Qed.

Lemma drawCard_advances pid now g msg card snap g' :
  drawCard pid now g = Returns (Drawn msg card false snap) g' ->
  exists gs0, gameState g' = nextTurn gs0.
Proof. unfold drawCard. intros H. method_cases; eauto. Qed.

Lemma endTurn_advances pid g msg snap g' :
  endTurn pid g = Returns (Success msg snap) g' ->
  exists gs0, gameState g' = nextTurn gs0.
Proof. unfold endTurn. intros H. method_cases; eauto. Qed.

Lemma callUno_advances pid g msg snap g' :
  callUno pid g = Returns (Success msg snap) g' ->
  exists gs0, gameState g' = nextTurn gs0.
Proof. unfold callUno. intros H. method_cases; eauto. Qed.

Lemma handleTurnTimeout_idle now g g' :
  status (gameState g) = playing -> turnExpiresAt g <> None ->
  handleTurnTimeout now g = Returns tt g' ->
  idleTurn (gameState g').
Proof.
  unfold handleTurnTimeout. intros Hst Hexp H.
  rewrite bool_decide_eq_false_2 in H by (by rewrite Hst; intros []).
  rewrite bool_decide_eq_false_2 in H by done.
  destruct (playerAt _ _) as [p|]; [|done].
  destruct (timeoutPenalty _ _ _ _) as [gs r].
  pose proof (skipDisconnected_idle
                (S (length (players (nextTurn (set_hasDrawnPlayableCard false gs)))))
                (currentPlayerIndex (gameState g))
                (nextTurn (set_hasDrawnPlayableCard false gs))
                (nextTurn_idle _)) as Hidle.
  destruct (skipDisconnected _ _ _); simplify_eq; try done.
  by rewrite startTurnTimer_gameState.
Qed.

(** ** Snapshots *)

Lemma seats_differ_in_hidden_cards (viewer : option string) :
  viewer <> Some "b"%string ->
  differInHiddenCards viewer seatsWithBlue seatsWithYellow.
Proof.
  intros Hv. constructor; [by left|].
  constructor; [|constructor].
  right. split; [cbn; congruence|].
  by exists [Some (mkCard yellow V9)].
Qed.

(** C8, as worded, fails: without a viewer the snapshot carries every
    hand in full, so two tables that differ only in the card held by the
    second seat give different snapshots. *)
Lemma getPublicState_without_viewer_shows_hands :
  Snapshot.hand <$> Snapshot.players
      (getPublicState None (tableOf seatsWithBlue))
    = [[Some (mkCard red V5)]; [Some (mkCard blue V7)]]
  /\ Snapshot.hand <$> Snapshot.players
      (getPublicState None (tableOf seatsWithYellow))
    = [[Some (mkCard red V5)]; [Some (mkCard yellow V9)]]
  /\ ~ redactsForAnyViewer.
Proof.
  split; [reflexivity|]. split; [reflexivity|].
  intros H.
  specialize (H None (tableOf []) seatsWithBlue seatsWithYellow
                (seats_differ_in_hidden_cards None ltac:(done))).
  discriminate H.
Qed.

Lemma playerView_hidden (viewer : string) (p1 p2 : Player) :
  viewer <> ""%string ->
  p1 = p2 \/ (Some (id p1) <> Some viewer /\ sameButCards p1 p2) ->
  (if truthy (Some viewer) && bool_decide (Some (id p1) ≠ Some viewer)
   then Snapshot.mkPlayerView (id p1) (name p1) []
          (length (hand p1)) (hasUno p1)
   else Snapshot.mkPlayerView (id p1) (name p1) (hand p1)
          (length (hand p1)) (hasUno p1))
  = (if truthy (Some viewer) && bool_decide (Some (id p2) ≠ Some viewer)
     then Snapshot.mkPlayerView (id p2) (name p2) []
            (length (hand p2)) (hasUno p2)
     else Snapshot.mkPlayerView (id p2) (name p2) (hand p2)
            (length (hand p2)) (hasUno p2)).
Proof.
  intros Hv [->|[Hne (h & Hlen & ->)]]; [done|].
  cbn [truthy]. rewrite (bool_decide_eq_false_2 _ Hv). cbn.
  rewrite (bool_decide_eq_true_2 _ Hne). by rewrite Hlen.
Qed.

(** C8, amended: for a viewer given by a non-empty id, every seat whose
    id is not the viewer's appears in the snapshot with an empty hand and
    its hand size, and two states that differ only in the cards (not the
    number of cards) held by such seats have the same snapshot. *)
Theorem getPublicState_redacts (viewer : string) (g : Game)
    (ps1 ps2 : list Player) :
  viewer <> ""%string ->
  differInHiddenCards (Some viewer) ps1 ps2 ->
  getPublicState (Some viewer) (withPlayers ps1 g)
  = getPublicState (Some viewer) (withPlayers ps2 g)
  /\ (forall i p, ps1 !! i = Some p -> id p <> viewer ->
        exists v, Snapshot.players (getPublicState (Some viewer)
                                      (withPlayers ps1 g)) !! i = Some v
                  /\ Snapshot.hand v = []
                  /\ Snapshot.handSize v = length (hand p)).
Proof.
  intros Hv Hd. split.
  - unfold getPublicState, withPlayers. cbn. f_equal.
    induction Hd as [|p1 p2 l1 l2 Hp _ IH]; [done|].
    rewrite !fmap_cons. f_equal; [|exact IH].
    by apply playerView_hidden.
  - intros i p Hi Hne. unfold getPublicState, withPlayers. cbn.
    rewrite list_lookup_fmap, Hi. cbn.
    rewrite (bool_decide_eq_false_2 _ Hv). cbn.
    rewrite bool_decide_eq_true_2 by congruence.
    by eexists.
Qed.

(** The redaction at work on a two-seat table viewed by seat "a". *)
Lemma getPublicState_redacts_witness :
  getPublicState (Some "a"%string) (withPlayers seatsWithBlue (tableOf []))
  = getPublicState (Some "a"%string) (withPlayers seatsWithYellow (tableOf []))
  /\ (forall i p, seatsWithBlue !! i = Some p -> id p <> "a"%string ->
        exists v, Snapshot.players
                    (getPublicState (Some "a"%string)
                       (withPlayers seatsWithBlue (tableOf []))) !! i = Some v
                  /\ Snapshot.hand v = []
                  /\ Snapshot.handSize v = length (hand p)).
Proof.
  apply (getPublicState_redacts "a" (tableOf []) seatsWithBlue seatsWithYellow).
  - done.
  - apply seats_differ_in_hidden_cards. done.
Defined.

(** ** Drawing *)

(** C6: in the playing state, when the active seat is neither waiting to
    declare nor deciding on a drawn card and [hasPlayableCard] is true for
    its hand, [drawCard] returns a failure and leaves the game state, and
    so every hand and the deck, as it was. *)
Theorem drawCard_rejected_when_playable (pid : string) (now : Z) (g : Game)
    (i : nat) (p : Player) :
  status (gameState g) = playing ->
  findPlayer pid (gameState g) = Some (i, p) ->
  Z.of_nat i = currentPlayerIndex (gameState g) ->
  waitingForUno (gameState g) = false ->
  hasDrawnPlayableCard (gameState g) = false ->
  hasPlayableCard (hand p) (topCard (gameState g))
                  (currentColor (gameState g)) = Some true ->
  exists msg g',
    drawCard pid now g = Returns (Failure msg) g'
    /\ success (Failure msg) = false
    /\ gameState g' = gameState g
    /\ hand <$> players (gameState g') = hand <$> players (gameState g)
    /\ deck (gameState g') = deck (gameState g).
Proof.
  intros Hst Hfind Hcur Hwait Hdrawn Hplay.
  unfold drawCard. rewrite Hst, Hfind, Hwait, Hdrawn, Hplay.
  rewrite bool_decide_eq_false_2 by (by intros []).
  rewrite bool_decide_eq_false_2 by (by intros []).
  by eexists _, _.
Qed.

Lemma drawCard_rejected_when_playable_witness :
  exists msg g',
    drawCard "a" 1000 (startTurnTimer 0 greenTable) = Returns (Failure msg) g'
    /\ success (Failure msg) = false
    /\ gameState g' = gameState (startTurnTimer 0 greenTable)
    /\ hand <$> players (gameState g')
       = hand <$> players (gameState (startTurnTimer 0 greenTable))
    /\ deck (gameState g') = deck (gameState (startTurnTimer 0 greenTable)).
Proof.
  apply (drawCard_rejected_when_playable "a" 1000 (startTurnTimer 0 greenTable) 0
           (seatOf "a" [Some (mkCard green V5); Some (mkCard red V5)]));
    reflexivity.
Defined.

(** C7 fails on the code: a rejected [drawCard] has already cleared the
    turn timer.  Seat "a" holds a playable card while its deadline is
    armed at 15000; the draw is refused and the deadline is gone, so that
    the timeout that was due is ignored.  And a [playCard] whose card
    index was left out does not return a failure: it raises. *)
Theorem drawCard_rejection_clears_timer :
  turnExpiresAt (startTurnTimer 0 greenTable) = Some 15000
  /\ drawCard "a" 1000 (startTurnTimer 0 greenTable)
     = Returns (Failure "You have a playable card. You must play a card before drawing.")
               (clearTurnTimer (startTurnTimer 0 greenTable))
  /\ turnExpiresAt (clearTurnTimer (startTurnTimer 0 greenTable)) = None
  /\ turnTimer (clearTurnTimer (startTurnTimer 0 greenTable)) = None
  /\ handleTurnTimeout 15000 (clearTurnTimer (startTurnTimer 0 greenTable))
     = Returns tt (clearTurnTimer (startTurnTimer 0 greenTable))
  /\ playCard "a" None None (startTurnTimer 0 greenTable)
     = Throws (startTurnTimer 0 greenTable).
Proof.
  split; [vm_compute; reflexivity|]. split; [vm_compute; reflexivity|].
  split; [vm_compute; reflexivity|]. split; [vm_compute; reflexivity|].
  split; vm_compute; reflexivity.
Qed.

(** The same on every state: whenever [drawCard] gets past the turn and
    declaration checks, the timer is cleared, also when the draw is then
    refused. *)
Lemma drawCard_rejection_clears_any_timer (pid : string) (now : Z) (g : Game)
    (i : nat) (p : Player) :
  status (gameState g) = playing ->
  findPlayer pid (gameState g) = Some (i, p) ->
  Z.of_nat i = currentPlayerIndex (gameState g) ->
  waitingForUno (gameState g) = false ->
  forall msg g', drawCard pid now g = Returns (Failure msg) g' ->
                 g' = clearTurnTimer g.
Proof.
  intros Hst Hfind Hcur Hwait msg g'.
  unfold drawCard. rewrite Hst, Hfind, Hwait.
  rewrite bool_decide_eq_false_2 by (by intros []).
  rewrite bool_decide_eq_false_2 by (by intros []).
  intros H. method_cases.
Qed.

(** The other failing calls leave the whole game untouched. *)
Lemma playCard_failure_atomic pid idx ch g msg g' :
  playCard pid idx ch g = Returns (Failure msg) g' -> g' = g.
Proof. unfold playCard. intros H. method_cases. Qed.

Lemma endTurn_failure_atomic pid g msg g' :
  endTurn pid g = Returns (Failure msg) g' -> g' = g.
Proof. unfold endTurn. intros H. method_cases. Qed.

Lemma callUno_failure_atomic pid g msg g' :
  callUno pid g = Returns (Failure msg) g' -> g' = g.
Proof. unfold callUno. intros H. method_cases. Qed.

(** ** Playing *)

Lemma delete_singleton {A} (n : nat) (x : A) :
  (n < 1)%nat -> delete n [x] = [].
Proof. destruct n; [done|lia]. Qed.



(** Two turn advances at a two-seat table come back to the same seat. *)
Lemma nextTurn_twice_two_seats gs :
  length (players gs) = 2%nat ->
  direction gs = 1 \/ direction gs = -1 ->
  currentPlayerIndex gs = 0 \/ currentPlayerIndex gs = 1 ->
  currentPlayerIndex (nextTurn (nextTurn gs)) = currentPlayerIndex gs.
Proof.
  intros Hn Hd Hc. unfold nextTurn, playerCount. cbn.
  rewrite length_fmap, Hn.
  destruct Hd as [-> | ->], Hc as [-> | ->]; reflexivity.
Qed.

Lemma findPlayer_lookup pid gs i p :
  findPlayer pid gs = Some (i, p) -> players gs !! i = Some p /\ id p = pid.
Proof.
  unfold findPlayer. intros H. apply list_find_Some in H as (H1 & H2 & _).
  done.
Qed.

(** The seat on which a successful two-seat play of a skip or of a
    reverse leaves the turn. *)
Lemma playCard_two_seat_action_keeps_seat pid idx ch g i p card r g' :
  length (players (gameState g)) = 2%nat ->
  direction (gameState g) = 1 \/ direction (gameState g) = -1 ->
  findPlayer pid (gameState g) = Some (i, p) ->
  mjoin (hand p !! Z.to_nat idx) = Some card ->
  value card = skip \/ value card = reverse ->
  playCard pid (Some idx) ch g = Returns r g' -> success r = true ->
  currentPlayerIndex (gameState g') = Z.of_nat i
  /\ currentPlayerIndex (gameState g') = currentPlayerIndex (gameState g).
Proof.
  intros Hn Hd Hfind Hcard Hval.
  pose proof (findPlayer_lookup _ _ _ _ Hfind) as [Hlk _].
  assert (Hi : (i < 2)%nat) by (rewrite <- Hn; by eapply lookup_lt_Some).
  unfold playCard; cbv beta iota. rewrite Hfind, Hcard.
  intros H Hs.
  destruct (bool_decide (status (gameState g) ≠ playing));
    simplify_eq; try done.
  destruct (bool_decide (Z.of_nat i ≠ _)) eqn:Hcur; simplify_eq; try done.
  apply bool_decide_eq_false in Hcur. apply dec_stable in Hcur.
  destruct (waitingForUno (gameState g)); simplify_eq; try done.
  destruct (_ && _ && _); simplify_eq; try done.
  destruct (_ || _); simplify_eq; try done.
  destruct (canPlayCard _ _ _ _) as [[|]|]; simplify_eq;
    [|by destruct (_ && _); simplify_eq].
  fields in H.
  rewrite length_alter, Hn in H.
  rewrite (bool_decide_eq_true_2 (2%nat = 2%nat)) in H by done.
  assert (Hact : isActionValue (value card) = true)
    by (by destruct Hval as [-> | ->]).
  rewrite Hact in H. cbn [andb negb] in H. rewrite andb_false_r in H.
  cbn [andb] in H.
  case_bool_decide; simplify_eq; [by cbn|].
  destruct Hval as [Hv | Hv]; rewrite Hv in H;
    repeat (case_bool_decide; try done); try lia;
    cbn in H; simplify_eq; fields;
    (rewrite nextTurn_twice_two_seats; fields; rewrite ?length_alter;
     [done|done| |lia]);
    try done; destruct Hd as [-> | ->]; auto.
Qed.

Lemma playCard_skip_or_reverse_succeeds pid idx ch g i p card :
  legalPlay pid idx g i p card ->
  value card = skip \/ value card = reverse ->
  exists msg snap g', playCard pid (Some idx) ch g = Returns (Success msg snap) g'.
Proof.
  intros (Hst & Hfind & Hcur & Hwait & Hbar & Hidx & Hcard & Hcan) Hval.
  unfold playCard; cbv beta iota. rewrite Hst, Hfind, Hwait, Hcard, Hcan.
  rewrite bool_decide_eq_false_2 by (by intros []).
  rewrite bool_decide_eq_false_2 by (by intros []).
  assert (Hb : bool_decide (length (hand p) = 1%nat) && negb (hasUno p)
               && hasPlayedCardThisTurn (gameState g) = false).
  { case_bool_decide; [|done]. destruct (hasUno p) eqn:Hu; [done|].
    by rewrite Hbar. }
  rewrite Hb. clear Hb.
  rewrite (bool_decide_eq_false_2 (idx < 0)) by lia.
  rewrite (bool_decide_eq_false_2 (idx >= _)) by lia.
  cbn [orb].
  case_bool_decide; [by eexists _, _, _|].
  destruct (_ && _ && _ && _); [by eexists _, _, _|].
  destruct Hval as [Hv | Hv]; rewrite Hv;
    repeat (case_bool_decide; try done); cbn; by eexists _, _, _.
Qed.

(** C9: at a two-seat table a legal play of a reverse and a legal play
    of a skip by the same active seat both succeed and both leave
    [currentPlayerIndex] on that seat, so the turn stays with the player
    in the same way for the two cards. *)
Theorem two_seat_reverse_continues_like_skip
    (pid : string) (ch : option string) (i : nat)
    (gR gS : Game) (idxR idxS : Z) (pR pS : Player) (cR cS : Card) :
  twoSeats gR -> twoSeats gS ->
  legalPlay pid idxR gR i pR cR -> value cR = reverse ->
  legalPlay pid idxS gS i pS cS -> value cS = skip ->
  exists msgR snapR gR' msgS snapS gS',
    playCard pid (Some idxR) ch gR = Returns (Success msgR snapR) gR'
    /\ playCard pid (Some idxS) ch gS = Returns (Success msgS snapS) gS'
    /\ currentPlayerIndex (gameState gR') = Z.of_nat i
    /\ currentPlayerIndex (gameState gS') = Z.of_nat i
    /\ currentPlayerIndex (gameState gR') = currentPlayerIndex (gameState gR)
    /\ currentPlayerIndex (gameState gS') = currentPlayerIndex (gameState gS).
Proof.
  intros [HnR HdR] [HnS HdS] HR HvR HS HvS.
  destruct (playCard_skip_or_reverse_succeeds pid idxR ch gR i pR cR HR
              (or_intror HvR)) as (msgR & snapR & gR' & HretR).
  destruct (playCard_skip_or_reverse_succeeds pid idxS ch gS i pS cS HS
              (or_introl HvS)) as (msgS & snapS & gS' & HretS).
  exists msgR, snapR, gR', msgS, snapS, gS'.
  destruct HR as (_ & HfR & _ & _ & _ & _ & HcR & _).
  destruct HS as (_ & HfS & _ & _ & _ & _ & HcS & _).
  destruct (playCard_two_seat_action_keeps_seat pid idxR ch gR i pR cR _ gR'
              HnR HdR HfR HcR (or_intror HvR) HretR eq_refl).
  destruct (playCard_two_seat_action_keeps_seat pid idxS ch gS i pS cS _ gS'
              HnS HdS HfS HcS (or_introl HvS) HretS eq_refl).
  done.
Qed.

Lemma actionTable_legal (idx : Z) (card : Card) :
  0 <= idx < 3 ->
  mjoin (hand actionSeat !! Z.to_nat idx) = Some card ->
  color card = green ->
  legalPlay "a" idx actionTable 0 actionSeat card.
Proof.
  intros Hidx Hcard Hcol. repeat split; try done; try (cbn; lia).
  unfold canPlayCard. cbn. rewrite Hcol. by destruct (value card).
Qed.

Lemma two_seat_reverse_continues_like_skip_witness :
  exists msgR snapR gR' msgS snapS gS',
    playCard "a" (Some 0) None actionTable = Returns (Success msgR snapR) gR'
    /\ playCard "a" (Some 1) None actionTable = Returns (Success msgS snapS) gS'
    /\ currentPlayerIndex (gameState gR') = Z.of_nat 0
    /\ currentPlayerIndex (gameState gS') = Z.of_nat 0
    /\ currentPlayerIndex (gameState gR')
       = currentPlayerIndex (gameState actionTable)
    /\ currentPlayerIndex (gameState gS')
       = currentPlayerIndex (gameState actionTable).
Proof.
  apply (two_seat_reverse_continues_like_skip "a" None 0 actionTable actionTable
           0 1 actionSeat actionSeat (mkCard green reverse) (mkCard green skip)).
  - split; [reflexivity|by left].
  - split; [reflexivity|by left].
  - by apply actionTable_legal.
  - reflexivity.
  - by apply actionTable_legal.
  - reflexivity.
Defined.

(** ** Timeouts *)

Lemma seatAt_range n d orig k : 0 < n -> 0 <= seatAt n d orig k < n.
Proof. intros. unfold seatAt. by apply Z.mod_pos_bound. Qed.

Lemma seatAt_0 n d orig : 0 <= orig < n -> seatAt n d orig 0 = orig.
Proof. intros. unfold seatAt. rewrite Z.mod_small; lia. Qed.

Lemma seatAt_step n d orig k :
  0 < n -> d = 1 \/ d = -1 ->
  js_rem (seatAt n d orig k + d + n) n = seatAt n d orig (k + 1).
Proof.
  intros Hn Hd. pose proof (seatAt_range n d orig k Hn).
  unfold js_rem. rewrite Z.rem_mod_nonneg by (destruct Hd; lia).
  unfold seatAt in *.
  replace ((orig + k * d) `mod` n + d + n)
    with ((orig + k * d) `mod` n + (d + n)) by lia.
  rewrite Z.add_mod_idemp_l by lia.
  replace (orig + k * d + (d + n)) with (orig + (k + 1) * d + 1 * n) by lia.
  by rewrite Z_mod_plus_full.
Qed.

Lemma seatAt_n n d orig :
  0 <= orig < n -> d = 1 \/ d = -1 -> seatAt n d orig n = orig.
Proof.
  intros Ho Hd. unfold seatAt.
  replace (orig + n * d) with (orig + d * n) by lia.
  rewrite Z_mod_plus_full. apply Z.mod_small. lia.
Qed.

Lemma seatAt_ne_orig n d orig k :
  0 <= orig < n -> d = 1 \/ d = -1 -> 0 < k < n -> seatAt n d orig k <> orig.
Proof.
  intros Ho Hd Hk. unfold seatAt.
  destruct Hd as [-> | ->]; intros Heq.
  - destruct (decide (orig + k < n)).
    + rewrite Z.mod_small in Heq; lia.
    + replace (orig + k * 1) with ((orig + k - n) + 1 * n) in Heq by lia.
      rewrite Z_mod_plus_full, Z.mod_small in Heq; lia.
  - destruct (decide (0 <= orig - k)).
    + rewrite Z.mod_small in Heq; lia.
    + replace (orig + k * -1) with ((orig - k + n) + (-1) * n) in Heq by lia.
      rewrite Z_mod_plus_full, Z.mod_small in Heq; lia.
Qed.

Lemma playerAt_in_range gs c :
  0 <= c < playerCount gs -> is_Some (playerAt gs c).
Proof.
  intros Hc. unfold playerAt, playerCount in *.
  rewrite bool_decide_eq_false_2 by lia.
  apply lookup_lt_is_Some. lia.
Qed.

Lemma set_currentPlayerIndex_same gs :
  set_currentPlayerIndex (currentPlayerIndex gs) gs = gs.
Proof. by destruct gs. Qed.

Lemma set_currentPlayerIndex_twice a b gs :
  set_currentPlayerIndex a (set_currentPlayerIndex b gs)
  = set_currentPlayerIndex a gs.
Proof. done. Qed.

Lemma playerCount_set_index i gs :
  playerCount (set_currentPlayerIndex i gs) = playerCount gs.
Proof. done. Qed.

Lemma seatDisconnected_set_index i gs c :
  seatDisconnected (set_currentPlayerIndex i gs) c = seatDisconnected gs c.
Proof. done. Qed.

(** The loop stops on the first connected seat it meets. *)
Lemma skipDisconnected_found (orig : Z) (m : nat) :
  forall (fuel : nat) (gs : GameState) (j : Z),
    let n := playerCount gs in
    let d := direction gs in
    0 <= orig < n -> d = 1 \/ d = -1 ->
    (m <= fuel)%nat -> 1 <= j -> j + Z.of_nat m <= Z.max 1 (n - 1) ->
    currentPlayerIndex gs = seatAt n d orig j ->
    (forall t, j <= t < j + Z.of_nat m ->
               seatDisconnected gs (seatAt n d orig t) = true) ->
    seatDisconnected gs (seatAt n d orig (j + Z.of_nat m)) = false ->
    skipDisconnected fuel orig gs
    = Found (gs |> set_currentPlayerIndex (seatAt n d orig (j + Z.of_nat m))).
Proof.
  induction m as [|m IH]; intros fuel gs j n d Ho Hd Hfuel Hj Hjm Hcur Hdis Hcon.
  - replace (j + Z.of_nat 0) with j in * by lia.
    rewrite <- Hcur, set_currentPlayerIndex_same.
    unfold seatDisconnected in Hcon. rewrite <- Hcur in Hcon.
    destruct (playerAt_in_range gs (currentPlayerIndex gs)) as [p Hp].
    { rewrite Hcur. apply seatAt_range. fold n. lia. }
    rewrite Hp in Hcon. cbn in Hcon.
    destruct fuel; cbn; by rewrite Hp, Hcon.
  - destruct fuel as [|fuel]; [lia|].
    pose proof (Hdis j ltac:(lia)) as Hdj.
    unfold seatDisconnected in Hdj. rewrite <- Hcur in Hdj.
    destruct (playerAt_in_range gs (currentPlayerIndex gs)) as [p Hp].
    { rewrite Hcur. apply seatAt_range. fold n. lia. }
    rewrite Hp in Hdj. cbn in Hdj.
    cbn [skipDisconnected]. rewrite Hp, Hdj.
    fold n d. rewrite Hcur, seatAt_step by (done || lia).
    rewrite bool_decide_eq_false_2
      by (apply seatAt_ne_orig; done || lia).
    rewrite (IH fuel _ (j + 1)); fields;
      rewrite ?playerCount_set_index; fold n d; try done; try lia.
    + rewrite set_currentPlayerIndex_twice.
      by replace (j + 1 + Z.of_nat m) with (j + Z.of_nat (S m)) by lia.
    + intros t Ht. rewrite seatDisconnected_set_index. apply (Hdis t). lia.
    + rewrite seatDisconnected_set_index.
      replace (j + 1 + Z.of_nat m) with (j + Z.of_nat (S m)) by lia. done.
Qed.

(** The loop pauses when no connected seat is met before the seat that
    timed out comes up again. *)
Lemma skipDisconnected_paused (orig : Z) (m : nat) :
  forall (fuel : nat) (gs : GameState) (j : Z),
    let n := playerCount gs in
    let d := direction gs in
    0 <= orig < n -> d = 1 \/ d = -1 ->
    (m <= fuel)%nat -> 1 <= j -> j + Z.of_nat m = Z.max 1 (n - 1) ->
    currentPlayerIndex gs = seatAt n d orig j ->
    (forall t, j <= t <= j + Z.of_nat m ->
               seatDisconnected gs (seatAt n d orig t) = true) ->
    skipDisconnected fuel orig gs
    = Paused (gs |> set_currentPlayerIndex (seatAt n d orig (j + Z.of_nat m))).
Proof.
  induction m as [|m IH]; intros fuel gs j n d Ho Hd Hfuel Hj Hjm Hcur Hdis.
  - replace (j + Z.of_nat 0) with j in * by lia.
    rewrite <- Hcur, set_currentPlayerIndex_same.
    pose proof (Hdis j ltac:(lia)) as Hdj.
    unfold seatDisconnected in Hdj. rewrite <- Hcur in Hdj.
    destruct (playerAt_in_range gs (currentPlayerIndex gs)) as [p Hp].
    { rewrite Hcur. apply seatAt_range. fold n. lia. }
    rewrite Hp in Hdj. cbn in Hdj.
    assert (Hnext : js_rem (currentPlayerIndex gs + d + n) n = orig).
    { rewrite Hcur, seatAt_step by (done || lia).
      destruct (decide (n = 1)) as [Hn1|Hn1].
      - unfold seatAt. rewrite Hn1, Z.mod_1_r. lia.
      - replace (j + 1) with n by lia. by apply seatAt_n. }
    destruct fuel; cbn; fold n d; by rewrite Hp, Hdj, Hnext, bool_decide_eq_true_2.
  - destruct fuel as [|fuel]; [lia|].
    pose proof (Hdis j ltac:(lia)) as Hdj.
    unfold seatDisconnected in Hdj. rewrite <- Hcur in Hdj.
    destruct (playerAt_in_range gs (currentPlayerIndex gs)) as [p Hp].
    { rewrite Hcur. apply seatAt_range. fold n. lia. }
    rewrite Hp in Hdj. cbn in Hdj.
    cbn [skipDisconnected]. rewrite Hp, Hdj.
    fold n d. rewrite Hcur, seatAt_step by (done || lia).
    rewrite bool_decide_eq_false_2
      by (apply seatAt_ne_orig; done || lia).
    rewrite (IH fuel _ (j + 1)); fields;
      rewrite ?playerCount_set_index; fold n d; try done; try lia.
    + rewrite set_currentPlayerIndex_twice.
      by replace (j + 1 + Z.of_nat m) with (j + Z.of_nat (S m)) by lia.
    + intros t Ht. rewrite seatDisconnected_set_index. apply (Hdis t). lia.
Qed.

Lemma sameSeating_refl gs : sameSeating gs gs.
Proof. done. Qed.

Lemma sameSeating_trans gs1 gs2 gs3 :
  sameSeating gs1 gs2 -> sameSeating gs2 gs3 -> sameSeating gs1 gs3.
Proof.
  intros (? & ? & ? & ?) (? & ? & ? & ?). repeat split; congruence.
Qed.

Lemma sameFlags_playerCount gs gs' :
  disconnected <$> players gs' = disconnected <$> players gs ->
  playerCount gs' = playerCount gs.
Proof.
  intros H. unfold playerCount.
  by rewrite <- (length_fmap disconnected (players gs')), H, length_fmap.
Qed.

Lemma sameFlags_disconnected gs gs' c :
  disconnected <$> players gs' = disconnected <$> players gs ->
  seatDisconnected gs' c = seatDisconnected gs c.
Proof.
  intros H. unfold seatDisconnected, playerAt.
  case_bool_decide; [done|].
  assert (Hl : disconnected <$> (players gs' !! Z.to_nat c)
               = disconnected <$> (players gs !! Z.to_nat c))
    by (by rewrite <- !list_lookup_fmap, H).
  destruct (players gs' !! _), (players gs !! _); by simplify_eq/=.
Qed.

Lemma fmap_alter_preserved {A B} (f : A -> B) (g : A -> A) (i : nat)
    (l : list A) :
  (forall x, f (g x) = f x) -> f <$> alter g i l = f <$> l.
Proof.
  intros Hfg. revert i. induction l as [|x l IH]; intros [|i]; cbn; try done.
  - by rewrite Hfg.
  - by rewrite IH.
Qed.

Lemma reshuffleDeck_players gs r :
  players (reshuffleDeck gs r).1 = players gs
  /\ sameSeating gs (reshuffleDeck gs r).1.
Proof.
  unfold reshuffleDeck. case_bool_decide; [done|].
  destruct (pop _) as [top rest]. by destruct (shuffleDeck _ _).
Qed.

Lemma popDeck_players gs r :
  players (popDeck gs r).1.2 = players gs
  /\ sameSeating gs (popDeck gs r).1.2.
Proof.
  unfold popDeck. case_bool_decide.
  - pose proof (reshuffleDeck_players gs r) as [Hp Hs].
    destruct (reshuffleDeck gs r) as [gs1 r1]. cbn in *.
    destruct (pop _). cbn. split; [done|].
    destruct Hs as (? & ? & ? & ?). repeat split; by fields.
  - by destruct (pop _).
Qed.

Lemma pushHand_sameSeating i card gs : sameSeating gs (pushHand i card gs).
Proof.
  unfold pushHand. case_bool_decide; [done|].
  repeat split; fields. by apply fmap_alter_preserved.
Qed.

Lemma clearUno_sameSeating i gs : sameSeating gs (clearUno i gs).
Proof.
  unfold clearUno. case_bool_decide; [done|].
  repeat split; fields. by apply fmap_alter_preserved.
Qed.

Lemma drawInto_sameSeating i st : sameSeating st.1 (drawInto i st).1.
Proof.
  unfold drawInto. pose proof (popDeck_players st.1 st.2) as [_ Hs].
  destruct (popDeck _ _) as [[card gs] r]. cbn in *.
  eapply sameSeating_trans; [exact Hs|apply pushHand_sameSeating].
Qed.

Lemma nextTurn_seating gs :
  direction (nextTurn gs) = direction gs
  /\ status (nextTurn gs) = status gs
  /\ disconnected <$> players (nextTurn gs) = disconnected <$> players gs
  /\ hand <$> players (nextTurn gs) = hand <$> players gs
  /\ currentPlayerIndex (nextTurn gs)
     = js_rem (currentPlayerIndex gs + direction gs + playerCount gs)
              (playerCount gs).
Proof.
  unfold nextTurn. fields. repeat split.
  - rewrite <- list_fmap_compose. by apply list_fmap_ext.
  - rewrite <- list_fmap_compose. by apply list_fmap_ext.
Qed.

Lemma playerAt_alter (f : Player -> Player) (i : Z) (gs : GameState)
    (p : Player) :
  0 <= i -> playerAt gs i = Some p ->
  playerAt (gs |> set_players (alter f (Z.to_nat i) (players gs))) i
  = Some (f p).
Proof.
  unfold playerAt. intros Hi. rewrite !bool_decide_eq_false_2 by lia.
  fields. intros Hp. by rewrite list_lookup_alter_eq, Hp.
Qed.

Lemma playerAt_nonneg gs i p : playerAt gs i = Some p -> 0 <= i.
Proof. unfold playerAt. case_bool_decide; [done|lia]. Qed.

Lemma playerAt_range gs i p :
  playerAt gs i = Some p -> 0 <= i < playerCount gs.
Proof.
  intros H. pose proof (playerAt_nonneg _ _ _ H).
  unfold playerAt in H. rewrite bool_decide_eq_false_2 in H by lia.
  apply lookup_lt_Some in H. unfold playerCount. lia.
Qed.

Lemma drawInto_playerAt i gs r p :
  playerAt gs i = Some p ->
  exists c, playerAt (drawInto i (gs, r)).1 i
            = Some (set_hand (hand p ++ [c]) p).
Proof.
  intros Hp. pose proof (playerAt_nonneg _ _ _ Hp) as Hi.
  unfold drawInto. cbn [fst snd].
  pose proof (popDeck_players gs r) as [Hpl _].
  destruct (popDeck gs r) as [[card gs1] r1]. cbn in Hpl. cbn [fst].
  exists card. unfold pushHand. rewrite bool_decide_eq_false_2 by lia.
  apply (playerAt_alter (fun p => set_hand (hand p ++ [card]) p)); [done|].
  unfold playerAt in *. by rewrite Hpl.
Qed.

Lemma clearUno_playerAt i gs p :
  playerAt gs i = Some p ->
  playerAt (clearUno i gs) i = Some (set_hasUno false p).
Proof.
  intros Hp. pose proof (playerAt_nonneg _ _ _ Hp) as Hi.
  unfold clearUno. rewrite bool_decide_eq_false_2 by lia.
  by apply playerAt_alter.
Qed.

Lemma playerAt_set_waitingForUno b gs i :
  playerAt (set_waitingForUno b gs) i = playerAt gs i.
Proof. done. Qed.

Lemma playerAt_set_hasDrawnPlayableCard b gs i :
  playerAt (set_hasDrawnPlayableCard b gs) i = playerAt gs i.
Proof. done. Qed.

Lemma playerAt_set_index c gs i :
  playerAt (set_currentPlayerIndex c gs) i = playerAt gs i.
Proof. done. Qed.

Lemma playerAt_nextTurn gs i p :
  playerAt gs i = Some p -> playerAt (nextTurn gs) i = Some (set_hasUno false p).
Proof.
  unfold playerAt, nextTurn. fields. case_bool_decide; [done|].
  intros Hp. by rewrite list_lookup_fmap, Hp.
Qed.

Lemma timeoutPenalty_hand i p gs r :
  playerAt gs i = Some p ->
  exists p', playerAt (timeoutPenalty i p gs r).1 i = Some p'
             /\ penalised gs p (hand p')
             /\ (declarationMissed gs p = true ->
                 waitingForUno (timeoutPenalty i p gs r).1 = false).
Proof.
  intros Hp. unfold timeoutPenalty, penalised, declarationMissed.
  destruct (waitingForUno gs && _ && _) eqn:Hmiss.
  - destruct (drawInto_playerAt i gs r p Hp) as [c1 H1].
    destruct (drawInto i (gs, r)) as [gs1 r1] eqn:E1. cbn [fst] in H1.
    destruct (drawInto_playerAt i gs1 r1 _ H1) as [c2 H2].
    destruct (drawInto i (gs1, r1)) as [gs2 r2] eqn:E2. cbn [fst] in H2.
    cbn [fst]. eexists. split; [|split; [|done]].
    + rewrite playerAt_set_waitingForUno. by apply clearUno_playerAt.
    + exists c1, c2. cbn. by rewrite <- app_assoc.
  - destruct (hasDrawnPlayableCard gs).
    + cbn [fst]. exists p. by rewrite playerAt_set_hasDrawnPlayableCard.
    + destruct (drawInto_playerAt i gs r p Hp) as [c1 H1].
      destruct (drawInto i (gs, r)) as [gs1 r1] eqn:E1. cbn [fst] in H1.
      cbn [fst]. rewrite H1. fields. destruct (bool_decide (1 < _)%nat).
      * eexists. rewrite playerAt_set_waitingForUno.
        split; [by apply clearUno_playerAt|]. split; [by exists c1|done].
      * eexists. rewrite playerAt_set_waitingForUno.
        split; [done|]. split; [by exists c1|done].
Qed.

Lemma timeoutPenalty_sameSeating i p gs r :
  sameSeating gs (timeoutPenalty i p gs r).1.
Proof.
  unfold timeoutPenalty.
  destruct (waitingForUno gs && _ && _).
  - pose proof (drawInto_sameSeating i (gs, r)) as H1.
    destruct (drawInto i (gs, r)) as [gs1 r1] eqn:E1.
    pose proof (drawInto_sameSeating i (gs1, r1)) as H2.
    destruct (drawInto i (gs1, r1)) as [gs2 r2] eqn:E2. cbn [fst] in *.
    eapply sameSeating_trans; [exact H1|].
    eapply sameSeating_trans; [exact H2|].
    eapply sameSeating_trans; [apply clearUno_sameSeating|]. done.
  - destruct (hasDrawnPlayableCard gs); [done|].
    pose proof (drawInto_sameSeating i (gs, r)) as H1.
    destruct (drawInto i (gs, r)) as [gs1 r1] eqn:E1. cbn [fst] in *.
    eapply sameSeating_trans; [exact H1|].
    destruct (playerAt gs1 i); [|done].
    case_bool_decide; [|done].
    eapply sameSeating_trans; [apply clearUno_sameSeating|]. done.
Qed.

(** Scanning [m + 1] seats from [j] either meets a first connected one
    or finds them all disconnected. *)
Lemma first_connected (f : Z -> bool) (m : nat) (j : Z) :
  (forall t, j <= t <= j + Z.of_nat m -> f t = true)
  \/ exists k : nat,
       (k <= m)%nat /\ f (j + Z.of_nat k) = false
       /\ forall t, j <= t < j + Z.of_nat k -> f t = true.
Proof.
  induction m as [|m IH].
  - destruct (f j) eqn:E.
    + left. intros t Ht. by replace t with j by lia.
    + right. exists 0%nat. split; [lia|].
      replace (j + Z.of_nat 0) with j by lia. split; [done|]. intros; lia.
  - destruct IH as [Hall | (k & Hk & Hfk & Hlt)].
    + destruct (f (j + Z.of_nat (S m))) eqn:E.
      * left. intros t Ht.
        destruct (decide (t = j + Z.of_nat (S m))) as [-> | Hne]; [done|].
        apply Hall. lia.
      * right. exists (S m). split; [lia|]. split; [done|].
        intros t Ht. apply Hall. lia.
    + right. exists k. split; [lia|]. done.
Qed.

Lemma handleTurnTimeout_unfold now g p :
  status (gameState g) = playing -> turnExpiresAt g <> None ->
  playerAt (gameState g) (currentPlayerIndex (gameState g)) = Some p ->
  handleTurnTimeout now g
  = match skipDisconnected (S (length (players (beforeSkip g p).1)))
            (currentPlayerIndex (gameState g)) (beforeSkip g p).1 with
    | Raised gs =>
        Throws (g |> set_random (beforeSkip g p).2 |> set_gameState gs)
    | OutOfFuel gs =>
        Spins (g |> set_random (beforeSkip g p).2 |> set_gameState gs)
    | Paused gs =>
        Returns tt (g |> set_random (beforeSkip g p).2 |> set_gameState gs
                      |> clearTurnTimer)
    | Found gs =>
        Returns tt (g |> set_random (beforeSkip g p).2 |> set_gameState gs
                      |> startTurnTimer now)
    end.
Proof.
  intros Hst Hexp Hp. unfold handleTurnTimeout, beforeSkip.
  rewrite bool_decide_eq_false_2 by (by rewrite Hst; intros []).
  rewrite bool_decide_eq_false_2 by done.
  rewrite Hp. by destruct (timeoutPenalty _ _ _ _).
Qed.

Lemma beforeSkip_facts g p :
  let gs := gameState g in
  let orig := currentPlayerIndex gs in
  playerAt gs orig = Some p ->
  direction gs = 1 \/ direction gs = -1 ->
  let gsL := (beforeSkip g p).1 in
  direction gsL = direction gs
  /\ status gsL = status gs
  /\ playerCount gsL = playerCount gs
  /\ (forall c, seatDisconnected gsL c = seatDisconnected gs c)
  /\ currentPlayerIndex gsL
     = seatAt (playerCount gs) (direction gs) orig 1
  /\ idleTurn gsL
  /\ exists p', playerAt gsL orig = Some p' /\ penalised gs p (hand p').
Proof.
  intros gs orig Hp Hd gsL. subst gsL. unfold beforeSkip.
  pose proof (timeoutPenalty_sameSeating orig p gs (random g)) as Hs.
  destruct (timeoutPenalty_hand orig p gs (random g) Hp)
    as (p' & Hp' & Hpen & _).
  fold gs orig. destruct (timeoutPenalty orig p gs (random g)) as [gsP r].
  cbn [fst] in *.
  pose proof (nextTurn_seating (set_hasDrawnPlayableCard false gsP))
    as (Hnd & Hns & Hndis & _ & Hnc).
  fields in Hnd. fields in Hns. fields in Hndis. fields in Hnc.
  destruct Hs as (Hsd & Hsc & Hss & Hsdis).
  assert (Hflags : disconnected <$> players
                     (nextTurn (set_hasDrawnPlayableCard false gsP))
                   = disconnected <$> players gs) by congruence.
  pose proof (sameFlags_playerCount _ _ Hsdis) as Hcount.
  pose proof (playerAt_range _ _ _ Hp) as Hrange. fold gs in Hrange.
  split; [congruence|]. split; [congruence|].
  split; [by apply sameFlags_playerCount|].
  split; [intros c; by apply sameFlags_disconnected|].
  split.
  - rewrite Hnc.
    change (playerCount (set_hasDrawnPlayableCard false gsP))
      with (playerCount gsP).
    rewrite Hcount, Hsd, Hsc. fold orig.
    rewrite <- (seatAt_0 (playerCount gs) (direction gs) orig) at 1 by done.
    rewrite seatAt_step by (done || lia). done.
  - split; [apply nextTurn_idle|].
    exists (set_hasUno false p'). split; [|done].
    apply playerAt_nextTurn. by rewrite playerAt_set_hasDrawnPlayableCard.
Qed.

Lemma startTurnTimer_arms now g :
  status (gameState g) = playing ->
  0 <= currentPlayerIndex (gameState g) < playerCount (gameState g) ->
  startTurnTimer now g
  = mkGame (gameState g) (Some turnTimeLimit) (Some now)
           (Some (now + turnTimeLimit)) (deferred g) (random g).
Proof.
  intros Hst Hc. unfold startTurnTimer, startTurnTimerWithDuration. fields.
  rewrite bool_decide_eq_false_2 by (by rewrite Hst; intros []).
  unfold playerCount in Hc.
  rewrite bool_decide_eq_false_2 by lia.
  rewrite (bool_decide_eq_false_2 (_ < 0)) by lia.
  unfold playerCount.
  rewrite (bool_decide_eq_false_2 (_ >= _)) by lia. cbn [orb].
  destruct (playerAt_in_range (gameState g) (currentPlayerIndex (gameState g)))
    as [p Hp]; [done|].
  by rewrite Hp.
Qed.

(** [handleTurnTimeout] always returns on a well-formed playing state,
    in one of two ways: on the first connected seat after the one that
    timed out, with the timer armed; or paused on the last seat scanned,
    with the timer cleared. *)
Lemma handleTurnTimeout_outcome now g p :
  let gs := gameState g in
  let orig := currentPlayerIndex gs in
  let n := playerCount gs in
  let d := direction gs in
  status gs = playing -> turnExpiresAt g <> None ->
  playerAt gs orig = Some p -> d = 1 \/ d = -1 ->
  let gsL := (beforeSkip g p).1 in
  let r := (beforeSkip g p).2 in
  (exists k, 1 <= k <= lastScanned n
             /\ seatDisconnected gs (seatAt n d orig k) = false
             /\ (forall t, 1 <= t < k ->
                           seatDisconnected gs (seatAt n d orig t) = true)
             /\ handleTurnTimeout now g
                = Returns tt
                    (mkGame (gsL |> set_currentPlayerIndex (seatAt n d orig k))
                       (Some turnTimeLimit) (Some now)
                       (Some (now + turnTimeLimit)) (deferred g) r))
  \/ ((forall t, 1 <= t <= lastScanned n ->
                 seatDisconnected gs (seatAt n d orig t) = true)
      /\ handleTurnTimeout now g
         = Returns tt
             (mkGame (gsL |> set_currentPlayerIndex
                               (seatAt n d orig (lastScanned n)))
                None None None (deferred g) r)).
Proof.
  intros gs orig n d Hst Hexp Hp Hd gsL r.
  pose proof (beforeSkip_facts g p Hp Hd)
    as (HLd & HLs & HLn & HLdis & HLc & _ & _).
  fold gs orig n d gsL in HLd, HLs, HLn, HLdis, HLc.
  pose proof (playerAt_range _ _ _ Hp) as Hrange. fold gs orig n in Hrange.
  rewrite (handleTurnTimeout_unfold now g p Hst Hexp Hp).
  fold gs orig gsL r.
  assert (Hfuel : S (length (players gsL)) = S (Z.to_nat n)).
  { f_equal. rewrite <- HLn. unfold playerCount. lia. }
  rewrite Hfuel.
  destruct (first_connected
              (fun t => seatDisconnected gs (seatAt n d orig t))
              (Z.to_nat (lastScanned n - 1)) 1)
    as [Hall | (k & Hk & Hfk & Hlt)].
  - right.
    assert (Hall' : forall t, 1 <= t <= lastScanned n ->
                      seatDisconnected gs (seatAt n d orig t) = true).
    { intros t Ht. apply Hall. unfold lastScanned in *. lia. }
    split; [exact Hall'|].
    rewrite (skipDisconnected_paused orig (Z.to_nat (lastScanned n - 1))
               _ gsL 1).
    + rewrite HLn, HLd. fold n d.
      replace (1 + Z.of_nat (Z.to_nat (lastScanned n - 1)))
        with (lastScanned n) by (unfold lastScanned; lia).
      done.
    + rewrite HLn. fold n. lia.
    + by rewrite HLd.
    + unfold lastScanned. lia.
    + lia.
    + rewrite HLn. fold n. unfold lastScanned. lia.
    + by rewrite HLn, HLd.
    + intros t Ht. rewrite HLdis, HLn, HLd. apply Hall'.
      unfold lastScanned in *. lia.
  - left. exists (1 + Z.of_nat k).
    assert (Hkb : 1 <= 1 + Z.of_nat k <= lastScanned n)
      by (unfold lastScanned in *; lia).
    split; [exact Hkb|]. split; [exact Hfk|]. split; [exact Hlt|].
    rewrite (skipDisconnected_found orig k _ gsL 1).
    + rewrite HLn, HLd. fold n d.
      rewrite startTurnTimer_arms; fields; rewrite ?playerCount_set_index;
        [done|congruence|].
      rewrite HLn. apply seatAt_range. lia.
    + rewrite HLn. fold n. lia.
    + by rewrite HLd.
    + unfold lastScanned in *. lia.
    + lia.
    + rewrite HLn. fold n. unfold lastScanned in *. lia.
    + by rewrite HLn, HLd.
    + intros t Ht. rewrite HLdis, HLn, HLd. by apply Hlt.
    + by rewrite HLdis, HLn, HLd.
Qed.

(** C4, as worded, fails: with every seat disconnected the timeout pauses
    the game with the timer unarmed, but the turn index has moved from
    seat 0 to seat 1. *)
Lemma handleTurnTimeout_pause_moves_turn :
  (disconnected <$> players (gameState desertedTable)) = [true; true]
  /\ currentPlayerIndex (gameState desertedTable) = 0
  /\ turnExpiresAt desertedTable = Some 15000
  /\ (exists g', handleTurnTimeout 15000 desertedTable = Returns tt g'
                 /\ currentPlayerIndex (gameState g') = 1
                 /\ turnExpiresAt g' = None /\ turnTimer g' = None)
  /\ ~ pauseKeepsTurn.
Proof.
  split; [by vm_compute|]. split; [by vm_compute|]. split; [by vm_compute|].
  split; [eexists; split; [by vm_compute|by vm_compute]|].
  intros H.
  destruct (H 15000 desertedTable ltac:(by vm_compute)
              ltac:(by vm_compute)) with
    (g' := finalState (handleTurnTimeout 15000 desertedTable)) as [Hc _].
  - intros c Hc.
    assert (Hn : playerCount (gameState desertedTable) = 2) by (by vm_compute).
    rewrite Hn in Hc.
    assert (c = 0 \/ c = 1) as [-> | ->] by lia; by vm_compute.
  - by vm_compute.
  - vm_compute in Hc. discriminate Hc.
Qed.

(** C4, amended: after the penalty the turn advances.  When a seat other
    than the one that timed out is connected (at a one-seat table: when
    that seat is), [currentPlayerIndex] ends on the first connected seat
    after it in direction order and the timer is armed for the full turn
    limit.  When every seat is disconnected the engine pauses with the
    timer unarmed, the turn index having advanced to the seat that
    precedes the timed-out one in direction order. *)
Theorem handleTurnTimeout_advance (now : Z) (g : Game) (p : Player) :
  let gs := gameState g in
  let orig := currentPlayerIndex gs in
  let n := playerCount gs in
  let d := direction gs in
  status gs = playing -> turnExpiresAt g <> None ->
  playerAt gs orig = Some p -> d = 1 \/ d = -1 ->
  (forall k, 1 <= k <= lastScanned n ->
             seatDisconnected gs (seatAt n d orig k) = false ->
             (forall t, 1 <= t < k ->
                        seatDisconnected gs (seatAt n d orig t) = true) ->
             exists g', handleTurnTimeout now g = Returns tt g'
                        /\ currentPlayerIndex (gameState g') = seatAt n d orig k
                        /\ turnExpiresAt g' = Some (now + turnTimeLimit)
                        /\ turnTimer g' = Some turnTimeLimit)
  /\ ((forall c, 0 <= c < n -> seatDisconnected gs c = true) ->
      exists g', handleTurnTimeout now g = Returns tt g'
                 /\ currentPlayerIndex (gameState g')
                    = seatAt n d orig (n - 1)
                 /\ (2 <= n -> currentPlayerIndex (gameState g') <> orig)
                 /\ turnExpiresAt g' = None
                 /\ turnTimer g' = None).
Proof.
  intros gs orig n d Hst Hexp Hp Hd.
  pose proof (playerAt_range _ _ _ Hp) as Hrange. fold gs orig n in Hrange.
  pose proof (handleTurnTimeout_outcome now g p Hst Hexp Hp Hd) as Hout.
  fold gs orig n d in Hout.
  split.
  - intros k Hk Hcon Hdis.
    destruct Hout as [(k' & Hk' & Hcon' & Hdis' & ->) | (Hall & _)].
    + assert (k' = k) as ->.
      { destruct (Z.lt_trichotomy k' k) as [Hlt | [-> | Hlt]]; [|done|].
        - rewrite (Hdis k') in Hcon' by lia. done.
        - rewrite (Hdis' k) in Hcon by lia. done. }
      by eexists.
    + rewrite (Hall k Hk) in Hcon. done.
  - intros Hall.
    destruct Hout as [(k' & Hk' & Hcon' & _) | (_ & ->)].
    + rewrite Hall in Hcon' by (apply seatAt_range; lia). done.
    + eexists. split; [done|]. fields.
      assert (Hlast : seatAt n d orig (lastScanned n) = seatAt n d orig (n - 1)).
      { unfold lastScanned. destruct (decide (n = 1)) as [Hn1 | Hn1].
        - unfold seatAt. rewrite Hn1. by rewrite !Z.mod_1_r.
        - by replace (Z.max 1 (n - 1)) with (n - 1) by lia. }
      split; [exact Hlast|]. split; [|done].
      intros Hn2. rewrite Hlast. apply seatAt_ne_orig; (done || lia).
Qed.

(** The two readings of the amended statement on concrete tables: from
    the green table the timeout of seat "a" passes the turn to seat "b"
    and arms the timer; from the deserted table it pauses on seat "b". *)
Lemma handleTurnTimeout_advance_witness :
  (exists g', handleTurnTimeout 15000 (startTurnTimer 0 greenTable)
              = Returns tt g'
              /\ currentPlayerIndex (gameState g') = seatAt 2 1 0 1
              /\ turnExpiresAt g' = Some (15000 + turnTimeLimit)
              /\ turnTimer g' = Some turnTimeLimit)
  /\ (exists g', handleTurnTimeout 15000 desertedTable = Returns tt g'
                 /\ currentPlayerIndex (gameState g') = seatAt 2 1 0 (2 - 1)
                 /\ (2 <= 2 -> currentPlayerIndex (gameState g') <> 0)
                 /\ turnExpiresAt g' = None
                 /\ turnTimer g' = None).
Proof.
  split.
  - apply (proj1 (handleTurnTimeout_advance 15000 (startTurnTimer 0 greenTable)
             (seatOf "a" [Some (mkCard green V5); Some (mkCard red V5)])
             eq_refl ltac:(discriminate) eq_refl (or_introl eq_refl)) 1).
    + by vm_compute.
    + by vm_compute.
    + intros t Ht. lia.
  - apply (proj2 (handleTurnTimeout_advance 15000 desertedTable
             (mkPlayer "a" "a" [Some (mkCard green V5); Some (mkCard red V5)]
                "a (Disconnected)" None false (Some "a"%string) true)
             ltac:(by vm_compute) ltac:(by vm_compute) ltac:(by vm_compute)
             (or_introl eq_refl))).
    intros c Hc.
    assert (Hn : playerCount (gameState desertedTable) = 2) by (by vm_compute).
    rewrite Hn in Hc.
    assert (c = 0 \/ c = 1) as [-> | ->] by lia; by vm_compute.
Defined.

(** The pause is also taken when the seat that timed out is itself
    connected and every other seat is disconnected: the game then rests
    on a disconnected seat with no timer, although the log line and the
    comment of the source speak of all players being disconnected. *)
Lemma handleTurnTimeout_pauses_with_connected_seat :
  (disconnected <$> players (gameState halfDesertedTable)) = [false; true]
  /\ exists g', handleTurnTimeout 15000 halfDesertedTable = Returns tt g'
                /\ currentPlayerIndex (gameState g') = 1
                /\ turnExpiresAt g' = None /\ turnTimer g' = None.
Proof.
  split; [by vm_compute|]. eexists. split; [by vm_compute|]. by vm_compute.
Qed.

(** ** States that the server reaches *)

Lemma reshuffleDeck_waiting gs r :
  waitingForUno (reshuffleDeck gs r).1 = waitingForUno gs.
Proof.
  unfold reshuffleDeck. case_bool_decide; [done|].
  destruct (pop _) as [top rest]. by destruct (shuffleDeck _ _).
Qed.

Lemma popDeck_waiting gs r :
  waitingForUno (popDeck gs r).1.2 = waitingForUno gs.
Proof.
  unfold popDeck. case_bool_decide.
  - pose proof (reshuffleDeck_waiting gs r) as Hw.
    destruct (reshuffleDeck gs r) as [gs1 r1]. cbn in *.
    by destruct (pop _).
  - by destruct (pop _).
Qed.

Lemma pushHand_waiting i card gs :
  waitingForUno (pushHand i card gs) = waitingForUno gs.
Proof. unfold pushHand. by case_bool_decide. Qed.

Lemma clearUno_waiting i gs :
  waitingForUno (clearUno i gs) = waitingForUno gs.
Proof. unfold clearUno. by case_bool_decide. Qed.

Lemma dealOne_waiting gs i : waitingForUno (dealOne gs i) = waitingForUno gs.
Proof.
  unfold dealOne. case_bool_decide; [|done].
  destruct (pop _). by rewrite pushHand_waiting.
Qed.

Lemma dealCards_waiting gs : waitingForUno (dealCards gs) = waitingForUno gs.
Proof.
  unfold dealCards.
  assert (Hrow : forall l gs0,
             waitingForUno (foldl dealOne gs0 l) = waitingForUno gs0).
  { induction l as [|x l IH]; intros gs0; [done|].
    cbn. by rewrite IH, dealOne_waiting. }
  generalize (seq 0 7). intros l. revert gs.
  induction l as [|x l IH]; intros gs; [done|].
  cbn. by rewrite IH, Hrow.
Qed.

Lemma newGame_waiting ids names wallets r :
  waitingForUno (gameState (newGame ids names wallets r)) = false.
Proof.
  unfold newGame. destruct (shuffleDeck _ _) as [shuffled r'].
  fields. by rewrite dealCards_waiting.
Qed.

Lemma drawFirstCard_waiting g g' :
  drawFirstCard g = Returns tt g' ->
  waitingForUno (gameState g') = waitingForUno (gameState g).
Proof.
  unfold drawFirstCard.
  pose proof (popDeck_waiting (gameState g) (random g)) as Hw.
  destruct (popDeck _ _) as [[card gs] r]. cbn in Hw.
  destruct card as [card|]; [|done].
  intros H. method_cases; by fields.
Qed.

Lemma served_declaring g : served g -> declaring g.
Proof.
  induction 1 as [ids names wallets r g Hstart | g g' _ IH Hstep].
  - intros Hw. apply drawFirstCard_waiting in Hstart.
    by rewrite Hstart, newGame_waiting in Hw.
  - destruct Hstep.
    + (* playCard *)
      destruct r as [msg | msg snap | | |].
      * by apply playCard_failure_atomic in H as ->.
      * revert H. unfold playCard. intros H Hw.
        method_cases; fields in Hw; try congruence.
        all: try (by rewrite (proj1 (proj2 (proj2 (nextTurn_idle _)))) in Hw).
        match goal with
        | Hf : findPlayer _ _ = Some (?n, ?p0),
          Hc : bool_decide (Z.of_nat ?n ≠ _) = false,
          Hu : _ && _ && _ && _ = true |- _ =>
            apply bool_decide_eq_false in Hc; apply dec_stable in Hc;
            destruct (findPlayer_lookup _ _ _ _ Hf) as [Hl _];
            unfold playerAt; fields;
            rewrite <- Hc, bool_decide_eq_false_2 by lia;
            rewrite Nat2Z.id, list_lookup_alter_eq, Hl;
            eexists; split; [done|]; fields;
            apply andb_true_iff in Hu as [Hu _];
            apply andb_true_iff in Hu as [Hu _];
            apply andb_true_iff in Hu as [Hu1 Hu2];
            apply bool_decide_eq_true in Hu1;
            split; [done|]; by destruct (hasUno p0)
        end.
      * unfold playCard in H. method_cases.
      * unfold playCard in H. method_cases.
      * unfold playCard in H. method_cases.
    + (* drawCard *)
      destruct r as [msg | | msg card [|] snap | |].
      * assert (gameState g' = gameState g) as Hg.
        { revert H. unfold drawCard. intros H. method_cases. }
        unfold declaring. by rewrite Hg.
      * unfold drawCard in H. method_cases.
      * intros Hw. exfalso. revert H Hw. unfold drawCard. intros H.
        destruct (bool_decide (status _ ≠ playing)); [done|].
        destruct (findPlayer _ _) as [[i p]|]; [|done].
        destruct (bool_decide (Z.of_nat i ≠ _)); [done|].
        destruct (waitingForUno (gameState g)) eqn:Hw0; [done|].
        destruct (hasDrawnPlayableCard _); [done|].
        destruct (hasPlayableCard _ _ _) as [[|]|]; try done.
        pose proof (popDeck_waiting (gameState g)
                      (random (clearTurnTimer g))) as Hpw.
        destruct (popDeck _ _) as [[card' gs] r]. cbn in Hpw.
        destruct (canPlayCard _ _ _ _) as [[|]|]; simplify_eq.
        rewrite startTurnTimerWithDuration_gameState. fields.
        destruct (bool_decide (1 < _)%nat);
          rewrite ?clearUno_waiting, pushHand_waiting, Hpw, Hw0; done.
      * apply drawCard_advances in H as [gs0 Hgs]. intros Hw.
        by rewrite Hgs, (proj1 (proj2 (proj2 (nextTurn_idle _)))) in Hw.
      * unfold drawCard in H. method_cases.
      * unfold drawCard in H. method_cases.
    + (* endTurn *)
      destruct r as [msg | msg snap | | |].
      * by apply endTurn_failure_atomic in H as ->.
      * apply endTurn_advances in H as [gs0 Hgs]. intros Hw.
        by rewrite Hgs, (proj1 (proj2 (proj2 (nextTurn_idle _)))) in Hw.
      * unfold endTurn in H. method_cases.
      * unfold endTurn in H. method_cases.
      * unfold endTurn in H. method_cases.
    + (* callUno *)
      destruct r as [msg | msg snap | | |].
      * by apply callUno_failure_atomic in H as ->.
      * apply callUno_advances in H as [gs0 Hgs]. intros Hw.
        by rewrite Hgs, (proj1 (proj2 (proj2 (nextTurn_idle _)))) in Hw.
      * unfold callUno in H. method_cases.
      * unfold callUno in H. method_cases.
      * unfold callUno in H. method_cases.
    + (* timeout *)
      destruct (decide (status (gameState g) = playing)) as [Hst|Hst].
      * destruct (decide (turnExpiresAt g = None)) as [Hexp|Hexp].
        -- unfold handleTurnTimeout in H.
           rewrite bool_decide_eq_false_2 in H by (by rewrite Hst; intros []).
           rewrite bool_decide_eq_true_2 in H by done. by simplify_eq.
        -- intros Hw. apply handleTurnTimeout_idle in H; [|done..].
           destruct H as (_ & _ & Hf & _). congruence.
      * unfold handleTurnTimeout in H.
        rewrite bool_decide_eq_true_2 in H by done. by simplify_eq.
    + (* deferred re-arm *)
      unfold declaring, fireDeferred. destruct (deferred g); [done|].
      by rewrite startTurnTimer_gameState.
    + (* disconnect *)
      revert H. unfold handlePlayerDisconnect. intros H.
      destruct (findPlayer _ _) as [[i q]|]; [|by simplify_eq].
      case_bool_decide; simplify_eq; [done|].
      intros Hw. fields in Hw. destruct (IH Hw) as (p & Hp & Hlen & Hu).
      fields. unfold playerAt in *. fields.
      case_bool_decide; [done|].
      destruct (decide (i = Z.to_nat (currentPlayerIndex (gameState g))))
        as [-> | Hne].
      * rewrite list_lookup_alter_eq, Hp. by eexists.
      * rewrite list_lookup_alter_ne by done. by eexists.
    + (* reconnect *)
      revert H. unfold handlePlayerReconnect. intros H.
      destruct (list_find _ _) as [[i q]|]; [|by simplify_eq].
      assert (Hgs : exists f : Player -> Player,
                 (forall x, hand (f x) = hand x /\ hasUno (f x) = hasUno x)
                 /\ gameState g'
                    = gameState g
                      |> set_players (alter f i (players (gameState g)))).
      { eexists. split; [|method_cases; by rewrite ?startTurnTimer_gameState].
        intros x. cbn. by destruct (truthy (originalName _)). }
      destruct Hgs as (f & Hf & Hgs). unfold declaring. rewrite Hgs.
      intros Hw. fields in Hw. destruct (IH Hw) as (p & Hp & Hlen & Hu).
      fields. unfold playerAt in *. fields.
      case_bool_decide; [done|].
      destruct (decide (i = Z.to_nat (currentPlayerIndex (gameState g))))
        as [-> | Hne].
      * rewrite list_lookup_alter_eq, Hp. exists (f p).
        destruct (Hf p) as [-> ->]. done.
      * rewrite list_lookup_alter_ne by done. by eexists.
Qed.

(** ** Where the cards are *)

Lemma pop_spec {A} (l : list A) :
  (l = [] /\ pop l = (None, []))
  \/ exists x l', l = l' ++ [x] /\ pop l = (Some x, l').
Proof.
  destruct l as [|x l _] using rev_ind; [by left|].
  right. exists x, l. by rewrite pop_snoc.
Qed.

Lemma heldIn_snoc h c : heldIn (h ++ [c]) = (heldIn h + oneIf c)%nat.
Proof.
  unfold heldIn. rewrite omap_app, length_app. by destruct c.
Qed.

Lemma heldIn_delete h i card :
  h !! i = Some (Some card) -> heldIn h = S (heldIn (delete i h)).
Proof.
  unfold heldIn. revert i. induction h as [|c h IH]; intros [|i] Hi; try done.
  - cbn in Hi. by simplify_eq.
  - cbn in Hi. destruct c; cbn; [f_equal|]; by apply IH.
Qed.

Lemma hand_length_split h :
  length h = (heldIn h + length (filter (fun c => c = None) h))%nat.
Proof.
  unfold heldIn. induction h as [|[c|] h IH]; [done| |].
  - rewrite filter_cons_False by done. cbn. by rewrite IH.
  - rewrite filter_cons_True by done. cbn. rewrite IH. lia.
Qed.

(** The count by array lengths is the number of cards plus the number
    of [undefined] entries. *)
Lemma totalCards_split gs :
  totalCards gs = (cardsHeld gs + undefinedEntries gs)%nat.
Proof.
  unfold totalCards, cardsHeld, undefinedEntries.
  assert (Hsum : forall ps : list Player,
             sum_list ((fun p => length (hand p)) <$> ps)
             = (sum_list ((fun p => heldIn (hand p)) <$> ps)
                + sum_list ((fun p => length (filter (fun c => c = None)
                                                     (hand p))) <$> ps))%nat).
  { induction ps as [|p ps IH]; [done|].
    cbn. rewrite IH, (hand_length_split (hand p)). lia. }
  rewrite Hsum. lia.
Qed.

Lemma sum_list_alter {A} (f : A -> nat) (g : A -> A) (i : nat) (l : list A)
    (x : A) :
  l !! i = Some x ->
  (sum_list (f <$> alter g i l) + f x = sum_list (f <$> l) + f (g x))%nat.
Proof.
  revert i. induction l as [|y l IH]; intros [|i] Hi; try done.
  - cbn in *. simplify_eq. lia.
  - cbn in *. specialize (IH i Hi). lia.
Qed.

Lemma reshuffleDeck_cards gs r :
  deck gs = [] -> cardsHeld (reshuffleDeck gs r).1 = cardsHeld gs.
Proof.
  intros Hdeck. unfold reshuffleDeck. case_bool_decide as Hlen; [done|].
  destruct (pop_spec (discardPile gs)) as [[Hnil _] | (x & l' & Hl & Hpop)].
  { rewrite Hnil in Hlen. cbn in Hlen. lia. }
  rewrite Hpop. pose proof (shuffleDeck_length l' r) as Hsh.
  destruct (shuffleDeck l' r) as [shuffled r']. cbn in Hsh.
  unfold cardsHeld. cbn [fst]. fields.
  rewrite Hdeck, Hl, Hsh, length_app. cbn. lia.
Qed.

Lemma popDeck_cards gs r :
  players (popDeck gs r).1.2 = players gs
  /\ (length (deck (popDeck gs r).1.2)
      + length (discardPile (popDeck gs r).1.2)
      + oneIf (popDeck gs r).1.1
      = length (deck gs) + length (discardPile gs))%nat.
Proof.
  unfold popDeck.
  assert (Hre : exists gs1 r1,
             (if bool_decide (length (deck gs) = 0%nat)
              then reshuffleDeck gs r else (gs, r)) = (gs1, r1)
             /\ players gs1 = players gs
             /\ (length (deck gs1) + length (discardPile gs1)
                 = length (deck gs) + length (discardPile gs))%nat).
  { case_bool_decide as Hd; [|by eexists _, _].
    apply length_zero_iff_nil in Hd.
    pose proof (reshuffleDeck_cards gs r Hd) as Hc.
    pose proof (reshuffleDeck_players gs r) as [Hp _].
    destruct (reshuffleDeck gs r) as [gs1 r1]. cbn in *.
    eexists _, _. split; [done|]. split; [done|].
    unfold cardsHeld in Hc. rewrite Hp in Hc. lia. }
  destruct Hre as (gs1 & r1 & -> & Hp & Hlen).
  destruct (pop_spec (deck gs1)) as [[Hnil ->] | (x & l' & Hl & ->)]; cbn.
  - split; [done|]. rewrite Hnil in Hlen. cbn in *. lia.
  - split; [done|]. rewrite Hl, length_app in Hlen. cbn in *. lia.
Qed.

Lemma pushHand_cards i card gs p :
  playerAt gs i = Some p ->
  cardsHeld (pushHand i card gs) = (cardsHeld gs + oneIf card)%nat.
Proof.
  intros Hp. pose proof (playerAt_nonneg _ _ _ Hp) as Hi.
  unfold playerAt in Hp. rewrite bool_decide_eq_false_2 in Hp by lia.
  unfold pushHand. rewrite bool_decide_eq_false_2 by lia.
  unfold cardsHeld. fields.
  pose proof (sum_list_alter (fun p => heldIn (hand p))
                (fun p => set_hand (hand p ++ [card]) p) _ _ _ Hp) as Hs.
  cbv beta in Hs. fields in Hs. rewrite heldIn_snoc in Hs. lia.
Qed.

Lemma clearUno_cards i gs : cardsHeld (clearUno i gs) = cardsHeld gs.
Proof.
  unfold clearUno. case_bool_decide; [done|].
  unfold cardsHeld. fields. do 2 f_equal.
  by apply fmap_alter_preserved.
Qed.

Lemma drawInto_cards i gs r p :
  playerAt gs i = Some p ->
  cardsHeld (drawInto i (gs, r)).1 = cardsHeld gs.
Proof.
  intros Hp. unfold drawInto. cbn [fst snd].
  pose proof (popDeck_cards gs r) as [Hpl Hlen].
  destruct (popDeck gs r) as [[card gs1] r1]. cbn in *.
  erewrite pushHand_cards by (unfold playerAt in *; by rewrite Hpl).
  unfold cardsHeld. rewrite Hpl. lia.
Qed.

Lemma nextTurn_cards gs : cardsHeld (nextTurn gs) = cardsHeld gs.
Proof.
  unfold cardsHeld, nextTurn. fields. do 2 f_equal.
  rewrite <- list_fmap_compose. by apply list_fmap_ext.
Qed.

Lemma dealOne_cards gs i :
  (i < length (players gs))%nat ->
  cardsHeld (dealOne gs i) = cardsHeld gs
  /\ length (players (dealOne gs i)) = length (players gs).
Proof.
  intros Hi. unfold dealOne. case_bool_decide as Hd; [|done].
  destruct (pop_spec (deck gs)) as [[Hnil _] | (x & l' & Hl & ->)].
  { rewrite Hnil in Hd. cbn in Hd. lia. }
  destruct (lookup_lt_is_Some_2 (players gs) i Hi) as [p Hp].
  split.
  - erewrite pushHand_cards.
    + unfold cardsHeld. fields. rewrite Hl, length_app. cbn. lia.
    + unfold playerAt. rewrite bool_decide_eq_false_2 by lia.
      fields. rewrite Nat2Z.id. exact Hp.
  - unfold pushHand. rewrite bool_decide_eq_false_2 by lia.
    fields. by rewrite length_alter.
Qed.

Lemma dealCards_cards gs : cardsHeld (dealCards gs) = cardsHeld gs.
Proof.
  unfold dealCards.
  assert (Hrow : forall l gs0,
             Forall (fun i => (i < length (players gs0))%nat) l ->
             cardsHeld (foldl dealOne gs0 l) = cardsHeld gs0
             /\ length (players (foldl dealOne gs0 l))
                = length (players gs0)).
  { induction l as [|i l IH]; intros gs0 Hall; [done|].
    apply Forall_cons in Hall as [Hi Hall].
    destruct (dealOne_cards gs0 i Hi) as [Hc Hn].
    cbn. destruct (IH (dealOne gs0 i)) as [Hc' Hn'].
    { by rewrite Hn. }
    split; congruence. }
  generalize (seq 0 7). intros l. revert gs.
  induction l as [|x l IH]; intros gs; [done|].
  cbn. rewrite IH.
  apply Hrow, Forall_forall. intros i Hi.
  apply elem_of_seq in Hi. lia.
Qed.

Lemma newGame_cards ids names wallets r :
  cardsHeld (gameState (newGame ids names wallets r)) = 108%nat.
Proof.
  unfold newGame. pose proof (shuffleDeck_length createDeck r) as Hsh.
  destruct (shuffleDeck createDeck r) as [shuffled r']. cbn [fst] in Hsh.
  fields. rewrite dealCards_cards. unfold cardsHeld. fields.
  rewrite Hsh, createDeck_length.
  assert (Hempty : forall (l : list string) (f : nat -> string -> Player),
             (forall i x, hand (f i x) = []) ->
             sum_list ((fun p => heldIn (hand p)) <$> imap f l) = 0%nat).
  { induction l as [|x l IH]; intros f Hf; [done|].
    cbn. rewrite Hf. cbn. apply IH. intros i y. apply Hf. }
  by rewrite Hempty.
Qed.

Lemma drawFirstCard_cards g g' :
  drawFirstCard g = Returns tt g' ->
  cardsHeld (gameState g') = cardsHeld (gameState g).
Proof.
  unfold drawFirstCard.
  pose proof (popDeck_cards (gameState g) (random g)) as [Hp Hlen].
  destruct (popDeck _ _) as [[card gs] r]. cbn in Hp, Hlen.
  destruct card as [card|]; [|done].
  assert (Hgoal : forall c gs0,
             players gs0 = players gs -> deck gs0 = deck gs ->
             discardPile gs0 = discardPile gs ++ [c] ->
             cardsHeld gs0 = cardsHeld (gameState g)).
  { intros c gs0 H1 H2 H3. unfold cardsHeld.
    rewrite H1, H2, H3, Hp, length_app. cbn in *. lia. }
  intros H. method_cases; fields; by eapply Hgoal.
Qed.

Lemma skipDisconnected_cards fuel orig gs :
  match skipDisconnected fuel orig gs with
  | Found gs' | Paused gs' | Raised gs' | OutOfFuel gs' =>
      cardsHeld gs' = cardsHeld gs
  end.
Proof.
  revert gs. induction fuel as [|fuel IH]; intros gs; simpl.
  - destruct (playerAt gs _) as [p|]; [|done].
    destruct (disconnected p); [|done]. by case_bool_decide.
  - destruct (playerAt gs _) as [p|]; [|done].
    destruct (disconnected p); [|done]. case_bool_decide; [done|].
    apply (IH (set_currentPlayerIndex _ gs)).
Qed.

Lemma timeoutPenalty_cards i p gs r :
  playerAt gs i = Some p ->
  cardsHeld (timeoutPenalty i p gs r).1 = cardsHeld gs.
Proof.
  intros Hp. unfold timeoutPenalty.
  destruct (waitingForUno gs && _ && _).
  - pose proof (drawInto_cards i gs r p Hp) as H1.
    destruct (drawInto_playerAt i gs r p Hp) as [c1 Hp1].
    destruct (drawInto i (gs, r)) as [gs1 r1]. cbn [fst] in *.
    pose proof (drawInto_cards i gs1 r1 _ Hp1) as H2.
    destruct (drawInto i (gs1, r1)) as [gs2 r2]. cbn [fst] in *.
    change (cardsHeld (clearUno i gs2) = cardsHeld gs).
    rewrite clearUno_cards. congruence.
  - destruct (hasDrawnPlayableCard gs); [done|].
    pose proof (drawInto_cards i gs r p Hp) as H1.
    destruct (drawInto i (gs, r)) as [gs1 r1]. cbn [fst] in *.
    destruct (playerAt gs1 i); [|done].
    destruct (bool_decide _); [|done].
    change (cardsHeld (clearUno i gs1) = cardsHeld gs).
    by rewrite clearUno_cards.
Qed.

Lemma handleTurnTimeout_cards now g g' :
  handleTurnTimeout now g = Returns tt g' ->
  cardsHeld (gameState g') = cardsHeld (gameState g).
Proof.
  unfold handleTurnTimeout. intros H.
  destruct (bool_decide (status _ ≠ playing)); [by simplify_eq|].
  destruct (bool_decide (turnExpiresAt g = None)); [by simplify_eq|].
  destruct (playerAt _ _) as [p|] eqn:Hp; [|done].
  pose proof (timeoutPenalty_cards _ p _ (random g) Hp) as Hpen.
  destruct (timeoutPenalty _ _ _ _) as [gs r]. cbn [fst] in Hpen.
  pose proof (skipDisconnected_cards
                (S (length (players (nextTurn (set_hasDrawnPlayableCard false gs)))))
                (currentPlayerIndex (gameState g))
                (nextTurn (set_hasDrawnPlayableCard false gs))) as Hskip.
  rewrite nextTurn_cards in Hskip.
  change (cardsHeld (set_hasDrawnPlayableCard false gs)) with (cardsHeld gs)
    in Hskip.
  destruct (skipDisconnected _ _ _); simplify_eq; fields;
    rewrite ?startTurnTimer_gameState; fields; congruence.
Qed.

Lemma drawInto_iter_cards k i gs r p :
  playerAt gs i = Some p ->
  cardsHeld (Nat.iter k (drawInto i) (gs, r)).1 = cardsHeld gs
  /\ is_Some (playerAt (Nat.iter k (drawInto i) (gs, r)).1 i).
Proof.
  intros Hp. induction k as [|k [IHc [q Hq]]]; [by split; eauto|].
  rewrite Nat.iter_succ.
  destruct (Nat.iter k (drawInto i) (gs, r)) as [gs1 r1].
  cbn [fst] in *. split.
  - by erewrite drawInto_cards.
  - destruct (drawInto_playerAt i gs1 r1 q Hq) as [c Hc]. eauto.
Qed.

Lemma drawForNext_cards k g g' :
  drawForNext k g = Returns tt g' ->
  cardsHeld (gameState g') = cardsHeld (gameState g).
Proof.
  unfold drawForNext. destruct k as [|k]; [by intros; simplify_eq|].
  destruct (playerAt _ _) as [p|] eqn:Hp.
  - destruct (drawInto_iter_cards (S k) _ _ (random g) p Hp) as [Hc _].
    destruct (Nat.iter _ _ _) as [gs r]. cbn [fst] in Hc.
    intros H. by simplify_eq.
  - by destruct (if bool_decide _ then _ else _).
Qed.

(** The card that a play moves from the hand to the discard pile. *)
Lemma played_cards gs i p idx card gs' :
  players gs !! i = Some p ->
  hand p !! idx = Some (Some card) ->
  players gs' = alter (set_hand (splice1 idx (hand p))) i (players gs) ->
  deck gs' = deck gs ->
  discardPile gs' = discardPile gs ++ [card] ->
  cardsHeld gs' = cardsHeld gs.
Proof.
  intros Hp Hcard Hps Hdeck Hdisc. unfold cardsHeld.
  rewrite Hps, Hdeck, Hdisc, length_app.
  pose proof (sum_list_alter (fun p => heldIn (hand p))
                (set_hand (splice1 idx (hand p))) _ _ _ Hp) as Hs.
  cbv beta in Hs. fields in Hs.
  rewrite (heldIn_delete _ _ _ Hcard) in Hs. unfold splice1 in *.
  cbn. lia.
Qed.

Lemma playCard_cards pid idx ch g r g' :
  playCard pid idx ch g = Returns r g' ->
  cardsHeld (gameState g') = cardsHeld (gameState g).
Proof.
  unfold playCard. intros H.
  destruct (bool_decide (status _ ≠ playing)); [by simplify_eq|].
  destruct (findPlayer _ _) as [[i p]|] eqn:Hfind; [|by simplify_eq].
  destruct (findPlayer_lookup _ _ _ _ Hfind) as [Hp _].
  destruct (bool_decide (Z.of_nat i ≠ _)); [by simplify_eq|].
  destruct (waitingForUno _); [by simplify_eq|].
  destruct (_ && _ && _); [by simplify_eq|].
  destruct idx as [idx|]; [|done].
  destruct (_ || _); [by simplify_eq|].
  destruct (canPlayCard _ _ _ _) as [[|]|]; [| |done].
  2: { destruct (mjoin _); [|done]. by destruct (_ && _); simplify_eq. }
  destruct (mjoin _) as [card|] eqn:Hcard; [|done].
  assert (Hc : hand p !! Z.to_nat idx = Some (Some card)).
  { destruct (hand p !! Z.to_nat idx) as [[c|]|]; by simplify_eq/=. }
  assert (Hplayed : forall gs',
             players gs' = alter (set_hand (splice1 (Z.to_nat idx) (hand p)))
                                 i (players (gameState g)) ->
             deck gs' = deck (gameState g) ->
             discardPile gs' = discardPile (gameState g) ++ [card] ->
             cardsHeld gs' = cardsHeld (gameState g))
    by (intros; by eapply played_cards).
  clear Hcard Hfind.
  case_bool_decide; [simplify_eq; fields; by apply Hplayed|].
  destruct (_ && _ && _ && _); [simplify_eq; fields; by apply Hplayed|].
  match type of H with
  | context [set_currentColor ?c (set_topCard ?t (set_discardPile ?d ?s))] =>
      set (gsP := set_currentColor c (set_topCard t (set_discardPile d s)))
        in H
  end.
  assert (HP : cardsHeld gsP = cardsHeld (gameState g)) by (by apply Hplayed).
  clearbody gsP. clear Hplayed Hc Hp.
  assert (Hskip : forall gs (k : nat) g1,
             cardsHeld gs = cardsHeld (gameState g) ->
             drawForNext k
               (set_gameState
                  (nextTurn
                     (gameState
                        (clearTurnTimer
                           (set_gameState
                              (set_hasDrawnPlayableCard false gs) g))))
                  (clearTurnTimer
                     (set_gameState (set_hasDrawnPlayableCard false gs) g)))
             = Returns tt g1 ->
             cardsHeld (nextTurn (gameState g1)) = cardsHeld (gameState g)).
  { intros gs k g1 Hgs Hd.
    apply drawForNext_cards in Hd. fields in Hd.
    rewrite nextTurn_cards in Hd. rewrite nextTurn_cards, Hd. exact Hgs. }
  destruct (if bool_decide (value card = draw4) then _ else _)
    as [[skipTurn drawAmount] gs1] eqn:Htuple.
  assert (Hgs1 : cardsHeld gs1 = cardsHeld (gameState g)).
  { revert Htuple. repeat case_bool_decide; intros [= <- <- <-]; exact HP. }
  clear Htuple. destruct (negb skipTurn).
  - injection H as _ <-. fields. rewrite nextTurn_cards. exact Hgs1.
  - destruct (drawForNext drawAmount _) as [[] g1| |] eqn:Hd; [|done..].
    injection H as _ <-. fields. by eapply (Hskip gs1).
Qed.

Lemma drawCard_cards pid now g r g' :
  drawCard pid now g = Returns r g' ->
  cardsHeld (gameState g') = cardsHeld (gameState g).
Proof.
  unfold drawCard. intros H.
  destruct (bool_decide (status _ ≠ playing)); [by simplify_eq|].
  destruct (findPlayer _ _) as [[i p]|] eqn:Hfind; [|by simplify_eq].
  destruct (findPlayer_lookup _ _ _ _ Hfind) as [Hp _].
  destruct (bool_decide (Z.of_nat i ≠ _)); [by simplify_eq|].
  destruct (waitingForUno _); [by simplify_eq|].
  destruct (hasDrawnPlayableCard _); [by simplify_eq|].
  destruct (hasPlayableCard _ _ _) as [[|]|]; [by simplify_eq| |done].
  assert (Hat : playerAt (gameState g) (Z.of_nat i) = Some p).
  { unfold playerAt. rewrite bool_decide_eq_false_2 by lia.
    by rewrite Nat2Z.id. }
  pose proof (drawInto_cards (Z.of_nat i) (gameState g) (random g) p Hat)
    as Hdraw.
  unfold drawInto in Hdraw. cbn [fst snd] in Hdraw.
  change (random (clearTurnTimer g)) with (random g) in H.
  destruct (popDeck _ _) as [[card gs] r0]. cbn [fst] in Hdraw.
  assert (Hgs : cardsHeld
                  (if bool_decide (1 < length (hand p ++ [card]))%nat
                   then clearUno (Z.of_nat i) (pushHand (Z.of_nat i) card gs)
                   else pushHand (Z.of_nat i) card gs)
                = cardsHeld (gameState g)).
  { destruct (bool_decide _); by rewrite ?clearUno_cards. }
  destruct (canPlayCard _ _ _ _) as [[|]|]; simplify_eq.
  - rewrite startTurnTimerWithDuration_gameState. fields. exact Hgs.
  - fields. by rewrite nextTurn_cards.
Qed.

Lemma endTurn_cards pid g r g' :
  endTurn pid g = Returns r g' ->
  cardsHeld (gameState g') = cardsHeld (gameState g).
Proof.
  unfold endTurn. intros H. method_cases; fields.
  by rewrite nextTurn_cards.
Qed.

Lemma callUno_cards pid g r g' :
  callUno pid g = Returns r g' ->
  cardsHeld (gameState g') = cardsHeld (gameState g).
Proof.
  unfold callUno. intros H. method_cases; fields.
  rewrite nextTurn_cards. unfold cardsHeld. fields.
  do 2 f_equal. by apply fmap_alter_preserved.
Qed.

Lemma handlePlayerDisconnect_cards pid g r g' :
  handlePlayerDisconnect pid g = Returns r g' ->
  cardsHeld (gameState g') = cardsHeld (gameState g).
Proof.
  unfold handlePlayerDisconnect. intros H. method_cases; fields.
  unfold cardsHeld. fields. do 2 f_equal. by apply fmap_alter_preserved.
Qed.

Lemma handlePlayerReconnect_cards old new nm now g r g' :
  handlePlayerReconnect old new nm now g = Returns r g' ->
  cardsHeld (gameState g') = cardsHeld (gameState g).
Proof.
  unfold handlePlayerReconnect. intros H.
  method_cases; rewrite ?startTurnTimer_gameState; fields.
  all: unfold cardsHeld; fields; do 2 f_equal;
    apply fmap_alter_preserved; intros x; cbn;
    by destruct (truthy (originalName _)).
Qed.

(** X1: in every state the server reaches the 108 cards are all there: in
    the deck, on the discard pile or in the hands.  The count by array
    lengths exceeds 108 by the number of [undefined] entries that draws
    from an exhausted table have pushed onto the hands. *)
Theorem served_cards g :
  served g ->
  cardsHeld (gameState g) = 108%nat
  /\ totalCards (gameState g) = (108 + undefinedEntries (gameState g))%nat.
Proof.
  intros Hs.
  assert (Hc : cardsHeld (gameState g) = 108%nat).
  { induction Hs as [ids names wallets r g Hstart | g g' _ IH Hstep].
    - apply drawFirstCard_cards in Hstart. by rewrite Hstart, newGame_cards.
    - rewrite <- IH. destruct Hstep.
      + by eapply playCard_cards.
      + by eapply drawCard_cards.
      + by eapply endTurn_cards.
      + by eapply callUno_cards.
      + by eapply handleTurnTimeout_cards.
      + unfold fireDeferred. destruct (deferred g); [done|].
        by rewrite startTurnTimer_gameState.
      + by eapply handlePlayerDisconnect_cards.
      + by eapply handlePlayerReconnect_cards. }
  split; [exact Hc|]. by rewrite totalCards_split, Hc.
Qed.

(** ** Whole games *)

Lemma expireAll_served k g g' :
  served g -> expireAll k g = Some g' -> served g'.
Proof.
  revert g. induction k as [|k IH]; intros g Hs H; cbn in H.
  - by simplify_eq.
  - destruct (handleTurnTimeout _ g) as [[] g1| |] eqn:Hd; [|done..].
    apply (IH g1); [|done]. eapply served_step; [exact Hs|].
    by eapply step_timeout.
Qed.

Lemma idleGame_served : served idleGame.
Proof.
  unfold idleGame. eapply served_step; [|apply step_deferred].
  apply (served_start ["a"; "b"] ["A"; "B"] [] (mkRandom (fun _ => 0%nat) 0)).
  vm_compute. reflexivity.
Qed.

(** C1 fails on the code.  Nobody acts at a two-seat table: the 93
    cards of the deck go to the hands one timeout at a time and the card
    count stays 108; the 94th timeout finds the deck empty and a single
    card on the discard pile, [reshuffleDeck] declines, [deck.pop()]
    yields [undefined], and the hand grows all the same: the lengths now
    add up to 109. *)
Theorem idle_table_breaks_card_count :
  served (Nat.iter 94 expire idleGame)
  /\ totalCards (gameState idleGame) = 108%nat
  /\ status (gameState idleGame) = playing
  /\ totalCards (gameState (Nat.iter 93 expire idleGame)) = 108%nat
  /\ deck (gameState (Nat.iter 93 expire idleGame)) = []
  /\ length (discardPile (gameState (Nat.iter 93 expire idleGame))) = 1%nat
  /\ handleTurnTimeout 1415000 (Nat.iter 93 expire idleGame)
     = Returns tt (Nat.iter 94 expire idleGame)
  /\ totalCards (gameState (Nat.iter 94 expire idleGame)) = 109%nat
  /\ (last <$> (hand <$> players (gameState (Nat.iter 94 expire idleGame))))
     = [Some None; Some (Some (mkCard red V1))].
Proof.
  split.
  { apply (expireAll_served 94 idleGame); [exact idleGame_served|].
    vm_compute. reflexivity. }
  split; [vm_compute; reflexivity|]. split; [vm_compute; reflexivity|].
  split; [vm_compute; reflexivity|]. split; [vm_compute; reflexivity|].
  split; [vm_compute; reflexivity|]. split; [vm_compute; reflexivity|].
  split; vm_compute; reflexivity.
Qed.

Lemma playCard_step pid idx ch g :
  returned (playCard pid idx ch g) = true ->
  step g (finalState (playCard pid idx ch g)).
Proof.
  destruct (playCard pid idx ch g) as [r g'| |] eqn:H; [|done..].
  intros _. by eapply step_playCard.
Qed.

Lemma afterReshuffle_served : served afterReshuffle.
Proof.
  unfold afterReshuffle.
  apply (expireAll_served 93
           (fireDeferred 40000
              (finalState (playCard "b" (Some 0) (Some "blue"%string)
                             (expire wildOpeningGame)))));
    [|vm_compute; reflexivity].
  eapply served_step; [|apply step_deferred].
  eapply served_step; [|apply playCard_step; vm_compute; reflexivity].
  apply (expireAll_served 1 wildOpeningGame); [|vm_compute; reflexivity].
  unfold wildOpeningGame. eapply served_step; [|apply step_deferred].
  apply (served_start ["a"; "b"] ["A"; "B"] []
           (mkRandom (fun k => if decide (k = 7)%nat then 93%nat
                               else (107 - k)%nat) 0)).
  vm_compute. reflexivity.
Qed.

(** The recoloured opening card comes back into play: it is reshuffled
    into the deck, drawn by seat "a", and, after seat "b" has played
    another wild naming blue, accepted from seat "a" on that wild top
    card by its value. *)
Lemma recoloured_wild_comes_back :
  served afterReshuffle
  /\ topCard (gameState wildOpeningGame) = Some recolouredWild
  /\ last (hand (default (seatOf "" [])
                   (players (gameState afterReshuffle) !! 0%nat)))
     = Some (Some recolouredWild)
  /\ totalCards (gameState afterReshuffle) = 108%nat
  /\ exists snap1 g1 snap2 g2,
       playCard "b" (Some 0) (Some "blue"%string) afterReshuffle
       = Returns (Success "Card played" snap1) g1
       /\ topCard (gameState g1) = Some (mkCard wild wildV)
       /\ currentColor (gameState g1) = Some blue
       /\ playCard "a" (Some 54) None (fireDeferred 1500000 g1)
          = Returns (Success "Card played" snap2) g2
       /\ topCard (gameState g2) = Some recolouredWild.
Proof.
  split; [exact afterReshuffle_served|].
  split; [vm_compute; reflexivity|]. split; [vm_compute; reflexivity|].
  split; [vm_compute; reflexivity|].
  eexists _, _, _, _.
  split; [vm_compute; reflexivity|]. split; [vm_compute; reflexivity|].
  split; [vm_compute; reflexivity|].
  split; vm_compute; reflexivity.
Qed.

(** The two counts on the opened idle game. *)
Lemma served_cards_witness :
  cardsHeld (gameState idleGame) = 108%nat
  /\ totalCards (gameState idleGame)
     = (108 + undefinedEntries (gameState idleGame))%nat.
Proof. exact (served_cards idleGame idleGame_served). Defined.

(** * Further properties of the engine *)

Lemma idleGame_seats : players (gameState idleGame) <> [].
Proof. vm_compute. discriminate. Qed.

(** ** The deck module *)

(** X2: the deck that [createDeck] builds is the 108-card deck: it holds
    every coloured zero once, every other coloured number, skip, reverse
    and draw-two twice, four wilds and four wild-draw-fours, and no other
    card. *)
Theorem createDeck_composition (c : Card) :
  count_occ Card_eq_dec createDeck c = copiesInDeck c
  /\ length createDeck = 108%nat.
Proof.
  split; [|reflexivity].
  destruct c as [[] []]; vm_compute; reflexivity.
Qed.

Lemma insert_swapped {A} (l : list A) (j : nat) (a b : A) :
  l !! j = Some b -> b :: <[j:=a]> l ≡ₚ a :: l.
Proof.
  revert j. induction l as [|x l IH]; intros [|j] Hj; try done.
  - cbn in Hj. simplify_eq. cbn. apply Permutation_swap.
  - cbn in Hj. cbn. etrans; [apply Permutation_swap|]. rewrite (IH j Hj).
    apply Permutation_swap.
Qed.

Lemma swap_Permutation {A} (i j : nat) (l : list A) : swap i j l ≡ₚ l.
Proof.
  unfold swap. destruct (l !! i) as [a|] eqn:Hi; [|done].
  destruct (l !! j) as [b|] eqn:Hj; [|done].
  revert i j Hi Hj. induction l as [|x l IH]; intros [|i] [|j] Hi Hj;
    try done; cbn in *; simplify_eq.
  - done.
  - by apply insert_swapped.
  - by apply insert_swapped.
  - by rewrite IH.
Qed.

Lemma shuffleFrom_spec i l r :
  (shuffleFrom i l r).1 ≡ₚ l
  /\ (shuffleFrom i l r).2 = mkRandom (oracle r) (cursor r + i).
Proof.
  revert l r. induction i as [|i IH]; intros l r.
  - split; [done|]. destruct r. cbn. by rewrite Nat.add_0_r.
  - cbn [shuffleFrom]. unfold randomBelow.
    destruct (IH (swap (S i) (oracle r (cursor r) `mod` S (S i)) l)
                 (mkRandom (oracle r) (S (cursor r)))) as [Hp Hr].
    split.
    + rewrite Hp. apply swap_Permutation.
    + rewrite Hr. cbn. f_equal. lia.
Qed.

(** X3: [shuffleDeck] returns the cards it was given in some order: the
    result is a permutation of the input of the same length, it takes
    exactly [length - 1] draws from the random source, whatever the
    source answers, and a deck of at most one card comes back as it
    is without any draw. *)
Theorem shuffleDeck_permutes (deck : list Card) (r : Random) :
  (shuffleDeck deck r).1 ≡ₚ deck
  /\ length (shuffleDeck deck r).1 = length deck
  /\ (shuffleDeck deck r).2
     = mkRandom (oracle r) (cursor r + (length deck - 1))
  /\ ((length deck <= 1)%nat -> shuffleDeck deck r = (deck, r)).
Proof.
  unfold shuffleDeck.
  destruct (shuffleFrom_spec (length deck - 1) deck r) as [Hp Hr].
  split; [exact Hp|]. split; [by rewrite Hp|]. split; [exact Hr|].
  intros Hl. replace (length deck - 1)%nat with 0%nat by lia. done.
Qed.

Lemma reshuffleDeck_cases (gs : GameState) (r : Random) :
  ((length (discardPile gs) <= 1)%nat /\ reshuffleDeck gs r = (gs, r))
  \/ exists rest top shuffled,
       discardPile gs = rest ++ [top] /\ rest <> []
       /\ shuffled ≡ₚ rest
       /\ (reshuffleDeck gs r).1
          = gs |> set_deck shuffled |> set_discardPile [top]
       /\ (reshuffleDeck gs r).2
          = mkRandom (oracle r) (cursor r + (length rest - 1)).
Proof.
  unfold reshuffleDeck. case_bool_decide as Hlen; [by left|]. right.
  destruct (pop_spec (discardPile gs)) as [[Hnil _] | (top & rest & Hl & Hpop)].
  { rewrite Hnil in Hlen. cbn in Hlen. lia. }
  rewrite Hpop.
  unfold shuffleDeck.
  destruct (shuffleFrom_spec (length rest - 1) rest r) as [Hp Hr].
  destruct (shuffleFrom _ rest r) as [shuffled r']. cbn [fst snd] in *.
  exists rest, top, shuffled. repeat split; try done.
  intros ->. rewrite Hl in Hlen. cbn in Hlen. lia.
Qed.

(** X4: [reshuffleDeck] either declines, when the discard pile holds
    at most one card, and then changes nothing and draws no random
    number; or it leaves the top card alone on the discard pile and
    replaces the deck by a shuffle of the other discards, every other
    field of the game state staying as it was. *)
Theorem reshuffleDeck_spec (gs : GameState) (r : Random) :
  ((length (discardPile gs) <= 1)%nat /\ reshuffleDeck gs r = (gs, r))
  \/ exists rest top shuffled,
       discardPile gs = rest ++ [top] /\ rest <> []
       /\ shuffled ≡ₚ rest
       /\ (reshuffleDeck gs r).1
          = gs |> set_deck shuffled |> set_discardPile [top]
       /\ (reshuffleDeck gs r).2
          = mkRandom (oracle r) (cursor r + (length rest - 1)).
Proof. exact (reshuffleDeck_cases gs r). Qed.

(** ** Playable hands *)

Lemma canPlayCard_accepts card top cur h :
  canPlayCard (Some card) (Some top) cur (Some (Some <$> h))
  = Some (accepts card top cur h).
Proof.
  unfold canPlayCard, accepts. cbn [mbind option_bind].
  destruct (decide (color card = wild)) as [Hw|Hw].
  - rewrite (bool_decide_eq_true_2 _ Hw). cbn [andb].
    case_bool_decide; [|done].
    rewrite (canPlayCard_draw4_scan cur h). by destruct (existsb _ h).
  - rewrite (bool_decide_eq_false_2 (color card = wild) Hw). cbn [andb].
    case_bool_decide; [done|]. cbn [orb].
    rewrite (bool_decide_eq_true_2 (color card ≠ wild) Hw), andb_true_r.
    by case_bool_decide.
Qed.

Lemma some_exc_total {A} (f : A -> option bool) (g : A -> bool) (l : list A) :
  (forall x, x ∈ l -> f x = Some (g x)) -> some_exc f l = Some (existsb g l).
Proof.
  induction l as [|x l IH]; intros Hf; [done|].
  cbn. rewrite (Hf x) by left. destruct (g x); [done|].
  apply IH. intros y Hy. apply Hf. by right.
Qed.

Lemma hasPlayableCard_scan l top cur :
  hasPlayableCard l top cur
  = some_exc (fun card => canPlayCard card top cur (Some l)) l.
Proof. unfold hasPlayableCard. by destruct l. Qed.

Lemma hasPlayableCard_accepts h top cur :
  hasPlayableCard (Some <$> h) (Some top) cur
  = Some (existsb (fun c => accepts c top cur h) h).
Proof.
  rewrite hasPlayableCard_scan.
  rewrite (some_exc_total _ (fun oc => from_option
                                         (fun c => accepts c top cur h) false oc)).
  - f_equal. generalize (fun c => accepts c top cur h). intros g.
    induction h as [|c l IH]; [done|]. cbn. by rewrite IH.
  - intros oc Hoc. apply list_elem_of_fmap in Hoc as (c & -> & _).
    apply canPlayCard_accepts.
Qed.

(** X5: on a hand of defined cards [hasPlayableCard] always answers, and
    answers true exactly when [canPlayCard] accepts one of the cards of
    the hand; in particular never on an empty hand, and always on a hand
    that holds a wild or a wild-draw-four: when the wild-draw-four is
    refused, the card of the current colour that bars it is playable. *)
Theorem hasPlayableCard_spec (h : list Card) (top : Card)
    (cur : option Color) :
  exists b : bool,
    hasPlayableCard (Some <$> h) (Some top) cur = Some b
    /\ (b = true <->
        exists c, c ∈ h
                  /\ canPlayCard (Some c) (Some top) cur (Some (Some <$> h))
                     = Some true)
    /\ (h = [] -> b = false)
    /\ ((exists c, c ∈ h /\ color c = wild) -> b = true).
Proof.
  exists (existsb (fun c => accepts c top cur h) h).
  split; [apply hasPlayableCard_accepts|].
  assert (Hiff : existsb (fun c => accepts c top cur h) h = true <->
                 exists c, c ∈ h
                           /\ canPlayCard (Some c) (Some top) cur
                                (Some (Some <$> h)) = Some true).
  { rewrite existsb_elem_of. split; intros (c & Hin & Hc); exists c.
    - by rewrite canPlayCard_accepts, Hc.
    - rewrite canPlayCard_accepts in Hc. split; [done|]. by simplify_eq. }
  split; [exact Hiff|]. split; [by intros ->|].
  intros (c & Hin & Hw). apply existsb_elem_of.
  destruct (accepts c top cur h) eqn:Hacc; [by exists c|].
  unfold accepts in Hacc. rewrite (bool_decide_eq_true_2 _ Hw) in Hacc.
  case_bool_decide; [|done].
  apply negb_false_iff, clash_exists in Hacc as (c' & Hin' & Hne & Hcur).
  exists c'. split; [done|]. unfold accepts.
  rewrite (bool_decide_eq_false_2 _ Hne).
  by rewrite (bool_decide_eq_true_2 _ Hcur).
Qed.

(** ** The shape of the results *)

Lemma effect_tuple (card : Card) (gs : GameState) :
  (if bool_decide (value card = draw4) then (true, 4%nat, gs)
   else if bool_decide (value card = skip) then (true, 0%nat, gs)
   else if bool_decide (value card = reverse) then
     (bool_decide (length (players gs) = 2)%nat, 0%nat,
      gs |> set_direction (direction gs * -1))
   else if bool_decide (value card = draw2) then (true, 2%nat, gs)
   else (false, 0%nat, gs))
  = (skipsNext (length (players gs)) (value card), drawAmountOf (value card),
     turned (value card) gs).
Proof. by destruct (value card). Qed.

Lemma drawForNext_returns k g g' :
  drawForNext k g = Returns tt g' ->
  exists gs r,
    Nat.iter k (drawInto (currentPlayerIndex (gameState g)))
             (gameState g, random g) = (gs, r)
    /\ g' = g |> set_gameState gs |> set_random r.
Proof.
  unfold drawForNext. destruct k as [|k].
  - intros [= <-]. exists (gameState g), (random g). split; [done|].
    by destruct g.
  - destruct (playerAt _ _) as [q|].
    + destruct (Nat.iter (S k) _ _) as [gs r]. intros [= <-]. by eexists _, _.
    + by destruct (if bool_decide _ then _ else _).
Qed.

Lemma skipsNext_draws seats v :
  skipsNext seats v = false -> drawAmountOf v = 0%nat.
Proof. by destruct v. Qed.

Lemma playCard_shape pid idx ch g r g' :
  playCard pid idx ch g = Returns r g' ->
  (exists msg, r = Failure msg /\ g' = g)
  \/ exists i p k card,
       status (gameState g) = playing
       /\ findPlayer pid (gameState g) = Some (i, p)
       /\ Z.of_nat i = currentPlayerIndex (gameState g)
       /\ waitingForUno (gameState g) = false
       /\ idx = Some (Z.of_nat k)
       /\ hand p !! k = Some (Some card)
       /\ canPlayCard (Some card) (topCard (gameState g))
            (currentColor (gameState g)) (Some (hand p)) = Some true
       /\ playOutcome i k p card ch g r g'.
Proof.
  unfold playCard. intros H.
  destruct (bool_decide (status _ ≠ playing)) eqn:Hst;
    [left; simplify_eq; eauto|].
  apply bool_decide_eq_false in Hst. apply dec_stable in Hst.
  destruct (findPlayer _ _) as [[i p]|] eqn:Hfind;
    [|left; simplify_eq; eauto].
  destruct (bool_decide (Z.of_nat i ≠ _)) eqn:Hcur;
    [left; simplify_eq; eauto|].
  apply bool_decide_eq_false in Hcur. apply dec_stable in Hcur.
  destruct (waitingForUno _) eqn:Hw; [left; simplify_eq; eauto|].
  destruct (_ && _ && _); [left; simplify_eq; eauto|].
  destruct idx as [z|]; [|done].
  destruct (_ || _) eqn:Hrange; [left; simplify_eq; eauto|].
  apply orb_false_iff in Hrange
    as [Hz0%bool_decide_eq_false Hz1%bool_decide_eq_false].
  destruct (canPlayCard _ _ _ _) as [[|]|] eqn:Hcan; [| |done].
  2: { destruct (mjoin _); [|done]. left.
       destruct (_ && _); simplify_eq; eauto. }
  destruct (mjoin _) as [card|] eqn:Hcard; [|done].
  assert (Hc : hand p !! Z.to_nat z = Some (Some card)).
  { destruct (hand p !! Z.to_nat z) as [[c|]|]; by simplify_eq/=. }
  right. exists i, p, (Z.to_nat z), card.
  split; [done|]. split; [done|]. split; [done|]. split; [done|].
  split; [by rewrite Z2Nat.id by lia|]. split; [done|]. split; [done|].
  unfold playOutcome, playedState. cbv zeta.
  case_bool_decide; [by simplify_eq|].
  rewrite effect_tuple in H.
  fields in H. rewrite !length_alter in H.
  unfold mustDeclare. rewrite andb_true_r in H.
  destruct (_ && _ && _); [by simplify_eq|].
  destruct (skipsNext _ _) eqn:Hskip; cbn [negb] in H.
  - destruct (drawForNext _ _) as [[] g1| |] eqn:Hd; [|done..].
    apply drawForNext_returns in Hd as (gsD & rD & Hiter & ->).
    fields in Hiter. exists gsD, rD. split; [exact Hiter|].
    by simplify_eq.
  - rewrite (skipsNext_draws _ _ Hskip). cbn [Nat.iter].
    eexists _, _. split; [done|]. by simplify_eq.
Qed.

Lemma drawCard_shape pid now g r g' :
  drawCard pid now g = Returns r g' ->
  (exists msg, r = Failure msg /\ (g' = g \/ g' = clearTurnTimer g))
  \/ exists i p,
       status (gameState g) = playing
       /\ findPlayer pid (gameState g) = Some (i, p)
       /\ Z.of_nat i = currentPlayerIndex (gameState g)
       /\ waitingForUno (gameState g) = false
       /\ hasDrawnPlayableCard (gameState g) = false
       /\ hasPlayableCard (hand p) (topCard (gameState g))
            (currentColor (gameState g)) = Some false
       /\ drawOutcome i p now g r g'.
Proof.
  unfold drawCard. intros H.
  destruct (bool_decide (status _ ≠ playing)) eqn:Hst;
    [left; simplify_eq; eauto|].
  apply bool_decide_eq_false in Hst. apply dec_stable in Hst.
  destruct (findPlayer _ _) as [[i p]|] eqn:Hfind;
    [|left; simplify_eq; eauto].
  destruct (bool_decide (Z.of_nat i ≠ _)) eqn:Hcur;
    [left; simplify_eq; eauto|].
  apply bool_decide_eq_false in Hcur. apply dec_stable in Hcur.
  destruct (waitingForUno _) eqn:Hw; [left; simplify_eq; eauto|].
  destruct (hasDrawnPlayableCard _) eqn:Hdrawn; [left; simplify_eq; eauto|].
  destruct (hasPlayableCard _ _ _) as [[|]|] eqn:Hplay;
    [left; simplify_eq; eauto| |done].
  right. exists i, p. repeat (split; [done|]).
  unfold drawOutcome, remainingTime. cbv zeta.
  change (random (clearTurnTimer g)) with (random g) in H.
  destruct (popDeck _ _) as [[card gs1] r1].
  exists card, gs1, r1. split; [done|].
  destruct (canPlayCard _ _ _ _) as [[|]|] eqn:Hcan; [| |done].
  - exists true. split; [done|]. simplify_eq. split; [done|]. by eexists.
  - exists false. split; [done|]. simplify_eq. split; [done|]. by eexists.
Qed.

Lemma endTurn_shape pid g r g' :
  endTurn pid g = Returns r g' ->
  (exists msg, r = Failure msg /\ g' = g)
  \/ exists i p,
       status (gameState g) = playing
       /\ findPlayer pid (gameState g) = Some (i, p)
       /\ Z.of_nat i = currentPlayerIndex (gameState g)
       /\ hasDrawnPlayableCard (gameState g) = true
       /\ g' = mkGame (nextTurn (gameState g |> set_hasDrawnPlayableCard false))
                  None None None (deferred g ++ [ANIMATION_DURATION]) (random g)
       /\ r = Success "Turn ended" (getPublicState None g').
Proof.
  unfold endTurn. intros H.
  destruct (bool_decide (status _ ≠ playing)) eqn:Hst;
    [left; simplify_eq; eauto|].
  apply bool_decide_eq_false in Hst. apply dec_stable in Hst.
  destruct (findPlayer _ _) as [[i p]|] eqn:Hfind;
    [|left; simplify_eq; eauto].
  destruct (bool_decide (Z.of_nat i ≠ _)) eqn:Hcur;
    [left; simplify_eq; eauto|].
  apply bool_decide_eq_false in Hcur. apply dec_stable in Hcur.
  destruct (hasDrawnPlayableCard _) eqn:Hdrawn; cbn [negb] in H;
    [|left; simplify_eq; eauto].
  right. exists i, p. repeat (split; [done|]). by simplify_eq.
Qed.

Lemma callUno_shape pid g r g' :
  callUno pid g = Returns r g' ->
  (exists msg, r = Failure msg /\ g' = g)
  \/ exists i p,
       status (gameState g) = playing
       /\ findPlayer pid (gameState g) = Some (i, p)
       /\ Z.of_nat i = currentPlayerIndex (gameState g)
       /\ length (hand p) = 1%nat /\ hasUno p = false
       /\ g' = mkGame
                  (nextTurn
                     (gameState g
                        |> set_players (alter (set_hasUno true) i
                                              (players (gameState g)))
                        |> set_hasDrawnPlayableCard false))
                  None None None (deferred g ++ [ANIMATION_DURATION]) (random g)
       /\ r = Success "UNO called" (getPublicState None g').
Proof.
  unfold callUno. intros H.
  destruct (bool_decide (status _ ≠ playing)) eqn:Hst;
    [left; simplify_eq; eauto|].
  apply bool_decide_eq_false in Hst. apply dec_stable in Hst.
  destruct (findPlayer _ _) as [[i p]|] eqn:Hfind;
    [|left; simplify_eq; eauto].
  destruct (bool_decide (Z.of_nat i ≠ _)) eqn:Hcur;
    [left; simplify_eq; eauto|].
  apply bool_decide_eq_false in Hcur. apply dec_stable in Hcur.
  destruct (_ && _) eqn:Hone; [|left; simplify_eq; eauto].
  apply andb_true_iff in Hone as [Hlen%bool_decide_eq_true Hu%negb_true_iff].
  right. exists i, p. repeat (split; [done|]). by simplify_eq.
Qed.

Lemma alter_at {A} (f h : A -> A) (i : nat) (l : list A) (x : A) :
  l !! i = Some x -> f x = h x -> alter f i l = alter h i l.
Proof.
  revert i. induction l as [|y l IH]; intros [|i] Hi Hfx; try done.
  - cbn in *. simplify_eq. by rewrite Hfx.
  - cbn in *. f_equal. by apply IH.
Qed.

Lemma handlePlayerDisconnect_shape pid g r g' :
  handlePlayerDisconnect pid g = Returns r g' ->
  g' = g
  \/ exists i p,
       findPlayer pid (gameState g) = Some (i, p)
       /\ status (gameState g) <> finished
       /\ g' = g |> set_gameState
                      (gameState g
                         |> set_players (alter markDisconnected i
                                               (players (gameState g))))
       /\ r = DisconnectInfo i (name (markDisconnected p)).
Proof.
  unfold handlePlayerDisconnect. intros H.
  destruct (findPlayer _ _) as [[i p]|] eqn:Hfind; [|left; by simplify_eq].
  case_bool_decide; [left; by simplify_eq|].
  apply findPlayer_lookup in Hfind as Hlk. destruct Hlk as [Hlk _].
  right. exists i, p. repeat (split; [done|]). simplify_eq.
  split; [|done]. do 2 f_equal. by apply (alter_at _ _ _ _ p).
Qed.

Lemma handlePlayerReconnect_shape old new nm now g r g' :
  handlePlayerReconnect old new nm now g = Returns r g' ->
  (exists msg, r = Failure msg /\ g' = g)
  \/ exists i p,
       list_find (fun p => id p = old \/ reconnectName p = nm)
                 (players (gameState g)) = Some (i, p)
       /\ let g1 :=
            g |> set_gameState
                   (gameState g
                      |> set_players (alter (restoreSeat new nm) i
                                            (players (gameState g)))) in
          (g' = g1 \/ g' = startTurnTimer now g1)
          /\ r = ReconnectInfo i (name (restoreSeat new nm p)).
Proof.
  unfold handlePlayerReconnect, reconnectName. intros H.
  destruct (list_find _ _) as [[i p]|] eqn:Hfind; [|left; simplify_eq; eauto].
  right. exists i, p. split; [done|]. cbv zeta.
  assert (Hre : forall q : Player,
             set_disconnected false
               (if truthy (originalName (set_socketId new (set_id new q)))
                then set_originalName None
                       (set_name (default ""%string
                                    (originalName (set_socketId new (set_id new q))))
                          (set_socketId new (set_id new q)))
                else set_name nm (set_socketId new (set_id new q)))
             = restoreSeat new nm q).
  { intros q. unfold restoreSeat. cbn [originalName set_socketId set_id].
    by destruct (truthy (originalName q)). }
  apply list_find_Some in Hfind as (Hlk & _ & _).
  split.
  - destruct (_ && _ && _); simplify_eq; [right|left];
      reflexivity.
  - destruct (_ && _ && _); simplify_eq; fields;
      rewrite list_lookup_alter_eq, Hlk; cbn [fmap option_fmap option_map from_option];
      f_equal; by rewrite <- Hre.
Qed.

(** ** What draws leave alone *)

Lemma seatGrown_refl p : seatGrown p p.
Proof. repeat split; try done; [by left|]. exists []. by rewrite app_nil_r. Qed.

Lemma seatGrown_trans p1 p2 p3 :
  seatGrown p1 p2 -> seatGrown p2 p3 -> seatGrown p1 p3.
Proof.
  intros (? & ? & ? & ? & ? & ? & Hu1 & e1 & He1)
         (? & ? & ? & ? & ? & ? & Hu2 & e2 & He2).
  repeat split; try congruence.
  - destruct Hu2 as [Hu2|Hu2]; [|by right].
    destruct Hu1 as [Hu1|Hu1]; [left|right]; congruence.
  - exists (e1 ++ e2). by rewrite He2, He1, app_assoc.
Qed.

Lemma Forall2_seatGrown_refl l : Forall2 seatGrown l l.
Proof. induction l; constructor; [apply seatGrown_refl|done]. Qed.

Lemma Forall2_seatGrown_trans l1 l2 l3 :
  Forall2 seatGrown l1 l2 -> Forall2 seatGrown l2 l3 -> Forall2 seatGrown l1 l3.
Proof.
  intros H12. revert l3. induction H12 as [|p1 p2 l1 l2 Hp _ IH]; intros l3 H23.
  - by inversion H23.
  - inversion H23 as [|? p3 ? l3' Hp' H23']. subst.
    constructor; [by eapply seatGrown_trans|by apply IH].
Qed.

Lemma Forall2_seatGrown_alter (f : Player -> Player) (i : nat) l :
  (forall x, seatGrown x (f x)) -> Forall2 seatGrown l (alter f i l).
Proof.
  intros Hf. revert i. induction l as [|x l IH]; intros [|i]; cbn.
  - constructor.
  - constructor.
  - constructor; [apply Hf|apply Forall2_seatGrown_refl].
  - constructor; [apply seatGrown_refl|apply IH].
Qed.


Lemma drawnFrom_refl gs : drawnFrom gs gs.
Proof. split; [apply Forall2_seatGrown_refl|done]. Qed.

Lemma drawnFrom_trans gs1 gs2 gs3 :
  drawnFrom gs1 gs2 -> drawnFrom gs2 gs3 -> drawnFrom gs1 gs3.
Proof.
  intros (Hp1 & ? & ? & ? & ? & ? & ? & ? & ? & ? & ?)
         (Hp2 & ? & ? & ? & ? & ? & ? & ? & ? & ? & ?).
  split; [by eapply Forall2_seatGrown_trans|].
  repeat split; congruence.
Qed.

Lemma set_deck_drawnFrom d gs : drawnFrom gs (set_deck d gs).
Proof. split; [apply Forall2_seatGrown_refl|done]. Qed.

Lemma reshuffleDeck_drawnFrom gs r : drawnFrom gs (reshuffleDeck gs r).1.
Proof.
  unfold reshuffleDeck. case_bool_decide as Hlen; [apply drawnFrom_refl|].
  destruct (pop_spec (discardPile gs)) as [[Hnil _] | (top & rest & Hl & ->)].
  { rewrite Hnil in Hlen. cbn in Hlen. lia. }
  destruct (shuffleDeck rest r) as [shuffled r']. cbn [fst].
  split; [apply Forall2_seatGrown_refl|]. repeat split; fields.
  rewrite Hl. cbn. by rewrite last_snoc.
Qed.

Lemma popDeck_drawnFrom gs r : drawnFrom gs (popDeck gs r).1.2.
Proof.
  unfold popDeck.
  assert (Hre : drawnFrom gs
                  (if bool_decide (length (deck gs) = 0%nat)
                   then reshuffleDeck gs r else (gs, r)).1).
  { case_bool_decide; [apply reshuffleDeck_drawnFrom|apply drawnFrom_refl]. }
  destruct (if bool_decide _ then _ else _) as [gs1 r1]. cbn [fst] in Hre.
  destruct (pop (deck gs1)) as [card rest]. cbn [fst snd].
  eapply drawnFrom_trans; [exact Hre|apply set_deck_drawnFrom].
Qed.

Lemma pushHand_drawnFrom i card gs : drawnFrom gs (pushHand i card gs).
Proof.
  unfold pushHand. case_bool_decide; [apply drawnFrom_refl|].
  split; [|done]. fields. apply Forall2_seatGrown_alter.
  intros x. repeat split; try done; [by left|]. by eexists.
Qed.

Lemma clearUno_drawnFrom i gs : drawnFrom gs (clearUno i gs).
Proof.
  unfold clearUno. case_bool_decide; [apply drawnFrom_refl|].
  split; [|done]. fields. apply Forall2_seatGrown_alter.
  intros x. repeat split; try done; [by right|].
  exists []. by rewrite app_nil_r.
Qed.

Lemma drawInto_drawnFrom i st : drawnFrom st.1 (drawInto i st).1.
Proof.
  unfold drawInto. pose proof (popDeck_drawnFrom st.1 st.2) as Hp.
  destruct (popDeck _ _) as [[card gs] r]. cbn [fst snd] in *.
  eapply drawnFrom_trans; [exact Hp|apply pushHand_drawnFrom].
Qed.

Lemma drawInto_iter_drawnFrom k i st :
  drawnFrom st.1 (Nat.iter k (drawInto i) st).1.
Proof.
  induction k as [|k IH]; [apply drawnFrom_refl|].
  rewrite Nat.iter_succ.
  eapply drawnFrom_trans; [exact IH|apply drawInto_drawnFrom].
Qed.

Lemma drawnFrom_length gs gs' :
  drawnFrom gs gs' -> length (players gs') = length (players gs).
Proof. intros [Hp _]. symmetry. by eapply Forall2_length. Qed.

Lemma drawnFrom_playerAt gs gs' i p :
  drawnFrom gs gs' -> playerAt gs i = Some p ->
  exists p', playerAt gs' i = Some p' /\ seatGrown p p'.
Proof.
  intros [Hp _]. unfold playerAt. case_bool_decide; [done|].
  intros Hi. eapply Forall2_lookup_l in Hp as (p' & ? & ?); [|exact Hi].
  eauto.
Qed.

Lemma drawnFrom_lookup gs gs' i p :
  drawnFrom gs gs' -> players gs !! i = Some p ->
  exists p', players gs' !! i = Some p' /\ seatGrown p p'.
Proof.
  intros [Hp _] Hi. eapply Forall2_lookup_l in Hp as (p' & ? & ?); [|exact Hi].
  eauto.
Qed.

Lemma drawnFrom_lookup_r gs gs' i p' :
  drawnFrom gs gs' -> players gs' !! i = Some p' ->
  exists p, players gs !! i = Some p /\ seatGrown p p'.
Proof.
  intros [Hp _] Hi. eapply Forall2_lookup_r in Hp as (p & ? & ?); [|exact Hi].
  eauto.
Qed.

(** ** The turn advance and the timer *)

Lemma nextTurn_forgets_flags a b c gs :
  nextTurn (gs |> set_hasDrawnPlayableCard a |> set_hasPlayedCardThisTurn b
               |> set_waitingForUno c) = nextTurn gs.
Proof. done. Qed.

Lemma nextTurn_forgets_drawn a gs :
  nextTurn (gs |> set_hasDrawnPlayableCard a) = nextTurn gs.
Proof. done. Qed.

Lemma nextTurn_forgets_waiting a gs :
  nextTurn (gs |> set_waitingForUno a) = nextTurn gs.
Proof. done. Qed.


Lemma nextTurn_fields gs :
  topCard (nextTurn gs) = topCard gs
  /\ deck (nextTurn gs) = deck gs
  /\ discardPile (nextTurn gs) = discardPile gs
  /\ direction (nextTurn gs) = direction gs
  /\ status (nextTurn gs) = status gs
  /\ winner (nextTurn gs) = winner gs
  /\ currentColor (nextTurn gs) = currentColor gs
  /\ hasDrawnPlayableCard (nextTurn gs) = false
  /\ hasPlayedCardThisTurn (nextTurn gs) = false
  /\ waitingForUno (nextTurn gs) = false
  /\ currentPlayerIndex (nextTurn gs)
     = js_rem (currentPlayerIndex gs + direction gs + playerCount gs)
              (playerCount gs).
Proof. done. Qed.

Lemma startTurnTimerWithDuration_cases d now g :
  let g' := startTurnTimerWithDuration d now g in
  g' = clearTurnTimer g
  \/ (status (gameState g) = playing
      /\ 0 <= currentPlayerIndex (gameState g) < playerCount (gameState g)
      /\ g' = mkGame (gameState g) (Some d) (Some now) (Some (now + d))
                (deferred g) (random g)).
Proof.
  unfold startTurnTimerWithDuration. cbv zeta. fields.
  case_bool_decide as Hst; [by left|].
  case_bool_decide; [by left|].
  destruct (_ || _) eqn:Hrange; [by left|].
  apply orb_false_iff in Hrange
    as [H0%bool_decide_eq_false H1%bool_decide_eq_false].
  destruct (playerAt _ _); [|by left].
  right. split; [done|]. split; [lia|done].
Qed.

Lemma skipDisconnected_frame fuel orig gs :
  match skipDisconnected fuel orig gs with
  | Found gs' | Paused gs' | Raised gs' | OutOfFuel gs' =>
      gs' = set_currentPlayerIndex (currentPlayerIndex gs') gs
  end.
Proof.
  revert gs. induction fuel as [|fuel IH]; intros gs; simpl.
  - destruct (playerAt gs _) as [p|]; [|by destruct gs].
    destruct (disconnected p); [|by destruct gs].
    case_bool_decide; by destruct gs.
  - destruct (playerAt gs _) as [p|]; [|by destruct gs].
    destruct (disconnected p); [|by destruct gs].
    case_bool_decide; [by destruct gs|].
    specialize (IH (set_currentPlayerIndex
                      (js_rem (currentPlayerIndex gs + direction gs
                               + playerCount gs) (playerCount gs)) gs)).
    destruct (skipDisconnected _ _ _); rewrite IH at 1; done.
Qed.

Lemma timeoutPenalty_drawn i p gs r :
  exists gsT,
    drawnFrom gs gsT
    /\ nextTurn (set_hasDrawnPlayableCard false (timeoutPenalty i p gs r).1)
       = nextTurn gsT.
Proof.
  unfold timeoutPenalty.
  destruct (waitingForUno gs && _ && _).
  - pose proof (drawInto_drawnFrom i (gs, r)) as H1.
    destruct (drawInto i (gs, r)) as [gs1 r1].
    pose proof (drawInto_drawnFrom i (gs1, r1)) as H2.
    destruct (drawInto i (gs1, r1)) as [gs2 r2]. cbn [fst] in *.
    exists (clearUno i gs2). split; [|done].
    eapply drawnFrom_trans; [exact H1|].
    eapply drawnFrom_trans; [exact H2|apply clearUno_drawnFrom].
  - destruct (hasDrawnPlayableCard gs).
    + exists gs. split; [apply drawnFrom_refl|done].
    + pose proof (drawInto_drawnFrom i (gs, r)) as H1.
      destruct (drawInto i (gs, r)) as [gs1 r1]. cbn [fst] in *.
      destruct (playerAt gs1 i) as [q|].
      * case_bool_decide.
        -- exists (clearUno i gs1). split; [|done].
           eapply drawnFrom_trans; [exact H1|apply clearUno_drawnFrom].
        -- by exists gs1.
      * by exists gs1.
Qed.

(** A timeout is ignored, or it draws, advances the turn, settles on
    some seat and either arms the timer or clears it. *)
Lemma handleTurnTimeout_shape now g g' :
  handleTurnTimeout now g = Returns tt g' ->
  g' = g
  \/ exists p gsT c r1,
       status (gameState g) = playing /\ turnExpiresAt g <> None
       /\ playerAt (gameState g) (currentPlayerIndex (gameState g)) = Some p
       /\ drawnFrom (gameState g) gsT
       /\ let g1 :=
            mkGame (set_currentPlayerIndex c (nextTurn gsT)) (turnTimer g)
                   (turnStartTime g) (turnExpiresAt g) (deferred g) r1 in
          g' = clearTurnTimer g1 \/ g' = startTurnTimer now g1.
Proof.
  unfold handleTurnTimeout. intros H.
  case_bool_decide as Hst; [left; by simplify_eq|].
  case_bool_decide as Hexp; [left; by simplify_eq|].
  destruct (playerAt _ _) as [p|] eqn:Hp; [|done].
  destruct (timeoutPenalty_drawn (currentPlayerIndex (gameState g)) p
              (gameState g) (random g)) as (gsT & HT & Hnext).
  destruct (timeoutPenalty _ _ _ _) as [gsP r1]. cbn [fst] in Hnext.
  rewrite Hnext in H.
  pose proof (skipDisconnected_frame (S (length (players (nextTurn gsT))))
                (currentPlayerIndex (gameState g)) (nextTurn gsT)) as Hskip.
  right. exists p, gsT.
  destruct (skipDisconnected _ _ _) as [gs'|gs'|gs'|gs']; try done.
  - exists (currentPlayerIndex gs'), r1. repeat (split; [done|]).
    right. simplify_eq. by rewrite <- Hskip.
  - exists (currentPlayerIndex gs'), r1. repeat (split; [done|]).
    left. simplify_eq. by rewrite <- Hskip.
Qed.

(** ** Dealing and the opening card *)

Lemma dealOne_drawnFrom gs i : drawnFrom gs (dealOne gs i).
Proof.
  unfold dealOne. case_bool_decide; [|apply drawnFrom_refl].
  destruct (pop (deck gs)) as [card rest].
  eapply drawnFrom_trans; [apply (set_deck_drawnFrom rest)|].
  apply pushHand_drawnFrom.
Qed.

Lemma dealCards_drawnFrom gs : drawnFrom gs (dealCards gs).
Proof.
  unfold dealCards.
  assert (Hrow : forall l gs0, drawnFrom gs0 (foldl dealOne gs0 l)).
  { induction l as [|x l IH]; intros gs0; [apply drawnFrom_refl|].
    cbn. eapply drawnFrom_trans; [apply dealOne_drawnFrom|apply IH]. }
  generalize (seq 0 7). intros l. revert gs.
  induction l as [|x l IH]; intros gs; [apply drawnFrom_refl|].
  cbn. eapply drawnFrom_trans; [apply Hrow|apply IH].
Qed.

Lemma newGame_undealt ids names wallets r :
  exists shuffled r',
    shuffled ≡ₚ createDeck /\ length shuffled = 108%nat
    /\ newGame ids names wallets r
       = mkGame (dealCards (undealt ids names wallets shuffled))
                None None None [] r'.
Proof.
  unfold newGame. unfold shuffleDeck.
  destruct (shuffleFrom_spec (length createDeck - 1) createDeck r) as [Hp _].
  destruct (shuffleFrom _ createDeck r) as [shuffled r']. cbn [fst] in Hp.
  exists shuffled, r'. split; [exact Hp|]. split; [|reflexivity].
  rewrite Hp. apply createDeck_length.
Qed.

(** What [drawFirstCard] does when it returns: it takes the last card of
    the deck, recolours it when it is wild, applies its opening move and
    puts it on the discard pile as the top card. *)
Lemma drawFirstCard_shape g g' :
  drawFirstCard g = Returns tt g' ->
  exists c gs1 r1 top r2,
    popDeck (gameState g) (random g) = (Some c, gs1, r1)
    /\ value top = value c /\ color top <> wild
    /\ (color c <> wild -> top = c /\ r2 = r1)
    /\ g' = mkGame (openingMove (value top) gs1
                      |> set_discardPile (discardPile gs1 ++ [top])
                      |> set_topCard (Some top)
                      |> set_currentColor (Some (color top))
                      |> set_status playing)
              (turnTimer g) (turnStartTime g) (turnExpiresAt g)
              (deferred g ++ [dealingAnimationDelay]) r2.
Proof.
  unfold drawFirstCard.
  destruct (popDeck _ _) as [[[c|] gs1] r1]; [|done].
  intros H. exists c, gs1, r1.
  destruct (bool_decide (color c = wild)) eqn:Hw.
  - destruct (randomBelow 4 r1) as [k r'] eqn:Hk.
    exists (mkCard (default red (colors !! k)) (value c)), r'.
    split; [done|]. split; [done|]. split.
    { assert (Hk4 : (k < 4)%nat).
      { unfold randomBelow in Hk. simplify_eq. by apply Nat.mod_upper_bound. }
      cbn. destruct k as [|[|[|[|k]]]]; cbn; try done; lia. }
    split; [by apply bool_decide_eq_true in Hw|].
    unfold openingMove. cbn [value] in *.
    repeat case_bool_decide; by simplify_eq.
  - exists c, r1. apply bool_decide_eq_false in Hw.
    split; [done|]. split; [done|]. split; [done|]. split; [done|].
    unfold openingMove.
    repeat case_bool_decide; by simplify_eq.
Qed.

(** ** The deal *)

Lemma pop_nonempty {A} (l : list A) :
  (0 < length l)%nat ->
  exists x l', l = l' ++ [x] /\ pop l = (Some x, l').
Proof.
  intros Hl. destruct (pop_spec l) as [[-> _] | H]; [cbn in Hl; lia|done].
Qed.

Lemma dealOne_deck_length gs i :
  length (deck (dealOne gs i)) = (length (deck gs) - 1)%nat.
Proof.
  unfold dealOne. case_bool_decide as Hd; [|lia].
  destruct (pop_nonempty (deck gs) Hd) as (x & l' & Hl & ->).
  unfold pushHand. case_bool_decide; fields; rewrite Hl, length_app; cbn; lia.
Qed.

Lemma dealRow_deck_length l gs :
  length (deck (foldl dealOne gs l)) = (length (deck gs) - length l)%nat.
Proof.
  revert gs. induction l as [|i l IH]; intros gs; cbn; [lia|].
  rewrite IH, dealOne_deck_length. lia.
Qed.

Lemma dealRow_drawnFrom l gs : drawnFrom gs (foldl dealOne gs l).
Proof.
  revert gs. induction l as [|x l IH]; intros gs; [apply drawnFrom_refl|].
  cbn. eapply drawnFrom_trans; [apply dealOne_drawnFrom|apply IH].
Qed.

(** One round of the deal from a deck that holds a card for every seat
    it serves: each of these seats gets one card at the end of its hand. *)
Lemma dealRow_spec (m : nat) :
  forall (a : nat) (gs : GameState),
    (a + m <= length (players gs))%nat -> (m <= length (deck gs))%nat ->
    forall i p', players (foldl dealOne gs (seq a m)) !! i = Some p' ->
      exists p ext,
        players gs !! i = Some p /\ hand p' = hand p ++ ext
        /\ Forall is_Some ext
        /\ length ext = (if bool_decide (a <= i < a + m)%nat then 1 else 0)%nat.
Proof.
  induction m as [|m IH]; intros a gs Ha Hm i p' Hp'.
  - cbn in Hp'. exists p', []. rewrite app_nil_r.
    repeat split; try done. case_bool_decide; [lia|done].
  - cbn [seq foldl] in Hp'.
    assert (Hd : (0 < length (deck gs))%nat) by lia.
    destruct (pop_nonempty (deck gs) Hd) as (x & l' & Hl & Hpop).
    assert (Hone : dealOne gs a
                   = gs |> set_deck l' |> pushHand (Z.of_nat a) (Some x)).
    { unfold dealOne. rewrite bool_decide_eq_true_2 by done. by rewrite Hpop. }
    rewrite Hone in Hp'.
    assert (Hps : players (gs |> set_deck l' |> pushHand (Z.of_nat a) (Some x))
                  = alter (fun p => set_hand (hand p ++ [Some x]) p) a
                          (players gs)).
    { unfold pushHand. rewrite bool_decide_eq_false_2 by lia.
      fields. by rewrite Nat2Z.id. }
    destruct (IH (S a) _ ltac:(rewrite Hps, length_alter; lia)
                 ltac:(unfold pushHand; rewrite bool_decide_eq_false_2 by lia;
                       fields; rewrite Hl, length_app in Hm; cbn in Hm; lia)
                 i p' Hp') as (p1 & ext1 & Hp1 & Hh1 & Hs1 & Hl1).
    rewrite Hps in Hp1.
    destruct (decide (i = a)) as [-> | Hne].
    + rewrite list_lookup_alter_eq in Hp1.
      destruct (players gs !! a) as [p|] eqn:Hp; [|done].
      cbn in Hp1. simplify_eq. exists p, (Some x :: ext1).
      split; [done|]. split; [by rewrite Hh1; cbn; rewrite <- app_assoc|].
      split; [by constructor|].
      rewrite bool_decide_eq_false_2 in Hl1 by lia.
      rewrite bool_decide_eq_true_2 by lia. cbn. by rewrite Hl1.
    + rewrite list_lookup_alter_ne in Hp1 by done.
      exists p1, ext1. repeat split; try done. rewrite Hl1.
      repeat case_bool_decide; try done; lia.
Qed.

(** [k] rounds of the deal from a deck that holds [k] cards for every
    seat: each seat gets [k] cards. *)
Lemma dealRounds_spec (rounds : list nat) :
  forall gs : GameState,
    (length rounds * length (players gs) <= length (deck gs))%nat ->
    let gs' := foldl (fun gs _ => foldl dealOne gs (seq 0 (length (players gs))))
                     gs rounds in
    forall i p', players gs' !! i = Some p' ->
      exists p ext,
        players gs !! i = Some p /\ hand p' = hand p ++ ext
        /\ Forall is_Some ext /\ length ext = length rounds.
Proof.
  induction rounds as [|x rounds IH]; intros gs Hdeck gs' i p' Hp'.
  - cbn in *. exists p', []. by rewrite app_nil_r.
  - subst gs'. cbn [foldl length] in *.
    set (gs1 := foldl dealOne gs (seq 0 (length (players gs)))) in *.
    assert (Hn1 : length (players gs1) = length (players gs))
      by apply drawnFrom_length, dealRow_drawnFrom.
    assert (Hd1 : length (deck gs1)
                  = (length (deck gs) - length (players gs))%nat).
    { unfold gs1. by rewrite dealRow_deck_length, length_seq. }
    destruct (IH gs1 ltac:(rewrite Hn1, Hd1; lia) i p' Hp')
      as (p1 & ext1 & Hp1 & Hh1 & Hs1 & Hl1).
    destruct (dealRow_spec (length (players gs)) 0 gs ltac:(lia) ltac:(lia)
                i p1 Hp1) as (p & ext0 & Hp & Hh0 & Hs0 & Hl0).
    exists p, (ext0 ++ ext1). split; [done|].
    split; [by rewrite Hh1, Hh0, app_assoc|].
    split; [by apply Forall_app|].
    rewrite length_app, Hl0, Hl1.
    apply lookup_lt_Some in Hp.
    rewrite bool_decide_eq_true_2 by lia. done.
Qed.

Lemma dealCards_hands gs :
  (7 * length (players gs) <= length (deck gs))%nat ->
  forall i p', players (dealCards gs) !! i = Some p' ->
    exists p ext,
      players gs !! i = Some p /\ hand p' = hand p ++ ext
      /\ Forall is_Some ext /\ length ext = 7%nat.
Proof.
  unfold dealCards. intros Hfit i p' Hp'.
  pose proof (dealRounds_spec (seq 0 7) gs) as Hspec.
  rewrite length_seq in Hspec. cbv zeta in Hspec.
  exact (Hspec Hfit i p' Hp').
Qed.

Lemma dealCards_deck_length gs :
  length (deck (dealCards gs))
  = (length (deck gs) - 7 * length (players gs))%nat.
Proof.
  unfold dealCards.
  assert (H : forall (rounds : list nat) gs0,
             length (deck (foldl (fun gs _ =>
                                    foldl dealOne gs
                                          (seq 0 (length (players gs))))
                                 gs0 rounds))
             = (length (deck gs0) - length rounds * length (players gs0))%nat
             /\ length (players (foldl (fun gs _ =>
                                          foldl dealOne gs
                                                (seq 0 (length (players gs))))
                                       gs0 rounds))
                = length (players gs0)).
  { induction rounds as [|x rounds IH]; intros gs0; cbn [foldl length].
    - split; [lia|done].
    - destruct (IH (foldl dealOne gs0 (seq 0 (length (players gs0)))))
        as [Hd Hn].
      rewrite Hd, Hn, dealRow_deck_length, length_seq.
      rewrite (drawnFrom_length _ _ (dealRow_drawnFrom _ gs0)).
      split; [lia|done]. }
  destruct (H (seq 0 7) gs) as [Hd _]. by rewrite Hd, length_seq.
Qed.

Lemma imap_newPlayer_ids names wallets (ids : list string) :
  forall k, id <$> imap (fun i => newPlayer names wallets (k + i)) ids = ids.
Proof.
  induction ids as [|x ids IH]; intros k; [done|].
  cbn. f_equal. rewrite <- (IH (S k)) at 2. f_equal.
  apply imap_ext. intros i y _. cbn. f_equal. lia.
Qed.

Lemma undealt_players ids names wallets shuffled :
  length (players (undealt ids names wallets shuffled)) = length ids
  /\ id <$> players (undealt ids names wallets shuffled) = ids
  /\ Forall (fun p => hand p = [] /\ hasUno p = false
                      /\ disconnected p = false /\ socketId p = id p)
            (players (undealt ids names wallets shuffled)).
Proof.
  unfold undealt. fields. split; [by rewrite length_imap|].
  split; [apply (imap_newPlayer_ids names wallets ids 0)|].
  apply Forall_forall. intros p Hp.
  apply elem_of_lookup_imap in Hp as (i & x & -> & _). done.
Qed.

Lemma seatGrown_ids l l' :
  Forall2 seatGrown l l' -> id <$> l' = id <$> l.
Proof.
  induction 1 as [|p p' l l' Hp _ IH]; [done|].
  cbn. destruct Hp as (-> & _). by rewrite IH.
Qed.

(** X6: the constructor seats the players in the order of their ids,
    leaves the game in the dealing state with seat 0 to play clockwise,
    no discard, no top card and no timer, and deals seven rounds from the
    shuffled deck: the deck keeps 108 - 7n cards (none when that would be
    negative), and when the deck suffices, 7n <= 108, every seat holds
    exactly seven cards, none of them undefined. *)
Theorem newGame_deals (ids names wallets : list string) (r : Random) :
  let g := newGame ids names wallets r in
  let n := length ids in
  id <$> players (gameState g) = ids
  /\ status (gameState g) = dealing
  /\ currentPlayerIndex (gameState g) = 0 /\ direction (gameState g) = 1
  /\ discardPile (gameState g) = [] /\ topCard (gameState g) = None
  /\ turnTimer g = None /\ turnExpiresAt g = None /\ deferred g = []
  /\ length (deck (gameState g)) = (108 - 7 * n)%nat
  /\ ((7 * n <= 108)%nat ->
      Forall (fun p => length (hand p) = 7%nat /\ Forall is_Some (hand p))
             (players (gameState g))).
Proof.
  intros g n. subst g n.
  destruct (newGame_undealt ids names wallets r) as (sh & r' & _ & Hdeck & ->).
  fields.
  pose proof (dealCards_drawnFrom (undealt ids names wallets sh))
    as (Hps & Htop & Hcur & Hdir & Hst & _ & _ & _ & _ & _ & Hlast).
  destruct (undealt_players ids names wallets sh) as (Hn & Hids & Hall).
  split; [by rewrite (seatGrown_ids _ _ Hps)|].
  split; [by rewrite Hst|]. split; [by rewrite Hcur|].
  split; [by rewrite Hdir|].
  split; [by apply last_None in Hlast|]. split; [by rewrite Htop|].
  split; [done|]. split; [done|]. split; [done|].
  split.
  { rewrite dealCards_deck_length. rewrite Hn. cbn [deck undealt].
    rewrite Hdeck. reflexivity. }
  intros Hfit. apply Forall_forall. intros p' Hp'.
  apply list_elem_of_lookup in Hp' as [i Hp'].
  assert (Hfit' : (7 * length (players (undealt ids names wallets sh)) <= length (deck (undealt ids names wallets sh)))%nat).
  { rewrite Hn. cbn [deck undealt]. rewrite Hdeck. exact Hfit. }
  destruct (dealCards_hands (undealt ids names wallets sh) Hfit' i p' Hp')
    as (p & ext & Hp & Hh & Hs & Hl).
  rewrite Forall_forall in Hall.
  destruct (Hall p) as (Hempty & _); [by eapply list_elem_of_lookup_2|].
  rewrite Hh, Hempty. cbn [app]. rewrite Hl. split; [reflexivity|assumption].
Qed.

(** ** The seating *)

Lemma wellSeated_frame gs gs' :
  currentPlayerIndex gs' = currentPlayerIndex gs ->
  direction gs' = direction gs -> status gs' = status gs ->
  length (players gs') = length (players gs) ->
  wellSeated gs -> wellSeated gs'.
Proof.
  unfold wellSeated, playerCount. intros -> -> -> ->. done.
Qed.

Lemma drawnFrom_wellSeated gs gs' :
  drawnFrom gs gs' -> wellSeated gs -> wellSeated gs'.
Proof.
  intros Hd. pose proof (drawnFrom_length _ _ Hd).
  destruct Hd as (_ & _ & ? & ? & ? & _). by apply wellSeated_frame.
Qed.

Lemma js_rem_seat (c d n : Z) :
  0 <= c < n -> d = 1 \/ d = -1 -> 0 <= js_rem (c + d + n) n < n.
Proof.
  intros Hc Hd. unfold js_rem.
  rewrite Z.rem_mod_nonneg by (destruct Hd; lia).
  apply Z.mod_pos_bound. lia.
Qed.

Lemma nextTurn_wellSeated gs : wellSeated gs -> wellSeated (nextTurn gs).
Proof.
  intros (Hc & Hd & Hs). unfold wellSeated, nextTurn, playerCount in *. fields.
  rewrite length_fmap. split; [by apply js_rem_seat|done].
Qed.

Lemma turned_wellSeated v gs : wellSeated gs -> wellSeated (turned v gs).
Proof.
  intros (Hc & Hd & Hs). destruct v; try done.
  unfold wellSeated, playerCount in *. cbn. split; [done|].
  split; [|done]. destruct Hd as [-> | ->]; [by right|by left].
Qed.

Lemma playedState_wellSeated i k p card ch gs :
  wellSeated gs -> wellSeated (playedState i k p card ch gs).
Proof.
  apply wellSeated_frame; try done.
  unfold playedState. fields. by rewrite length_alter.
Qed.

Lemma playCard_wellSeated pid idx ch g r g' :
  playCard pid idx ch g = Returns r g' ->
  wellSeated (gameState g) -> wellSeated (gameState g').
Proof.
  intros H Hw. apply playCard_shape in H
    as [(msg & -> & ->) | (i & p & k & card & _ & _ & _ & _ & _ & _ & _ & Hout)];
    [done|].
  unfold playOutcome in Hout. cbv zeta in Hout.
  pose proof (playedState_wellSeated i k p card ch _ Hw) as HP.
  case_bool_decide.
  - destruct Hout as [-> _]. fields.
    destruct HP as (? & ? & ?). unfold wellSeated, playerCount in *.
    by fields.
  - destruct (mustDeclare _ _ _ _).
    + destruct Hout as [-> _]. fields. exact HP.
    + destruct Hout as (gsD & rD & Hiter & -> & _). fields.
      assert (HN : wellSeated
                     (nextTurn (set_hasDrawnPlayableCard false
                                  (turned (value card)
                                     (playedState i k p card ch (gameState g)))))).
      { apply nextTurn_wellSeated.
        apply (wellSeated_frame (turned (value card)
                 (playedState i k p card ch (gameState g)))); try done.
        by apply turned_wellSeated. }
      assert (HD : wellSeated gsD).
      { eapply drawnFrom_wellSeated; [|exact HN].
        pose proof (drawInto_iter_drawnFrom (drawAmountOf (value card))
                      (currentPlayerIndex
                         (nextTurn (set_hasDrawnPlayableCard false
                            (turned (value card)
                               (playedState i k p card ch (gameState g))))))
                      (nextTurn (set_hasDrawnPlayableCard false
                         (turned (value card)
                            (playedState i k p card ch (gameState g)))),
                       random g)) as Hd.
        by rewrite Hiter in Hd. }
      destruct (skipsNext _ _); [by apply nextTurn_wellSeated|done].
Qed.

Lemma drawCard_wellSeated pid now g r g' :
  drawCard pid now g = Returns r g' ->
  wellSeated (gameState g) -> wellSeated (gameState g').
Proof.
  intros H Hw. apply drawCard_shape in H
    as [(msg & -> & [-> | ->]) | (i & p & _ & _ & _ & _ & _ & _ & Hout)];
    [done..|].
  destruct Hout as (card & gs1 & r1 & Hpop & Hout). cbv zeta in Hout.
  destruct Hout as (playable & _ & -> & _).
  pose proof (popDeck_drawnFrom (gameState g) (random g)) as H1.
  rewrite Hpop in H1. cbn [fst snd] in H1.
  assert (H2 : wellSeated
                 (if bool_decide (1 < length (hand p ++ [card]))%nat
                  then clearUno (Z.of_nat i) (pushHand (Z.of_nat i) card gs1)
                  else pushHand (Z.of_nat i) card gs1)).
  { eapply drawnFrom_wellSeated; [|exact Hw].
    eapply drawnFrom_trans; [exact H1|].
    case_bool_decide; [|apply pushHand_drawnFrom].
    eapply drawnFrom_trans; [apply pushHand_drawnFrom|apply clearUno_drawnFrom]. }
  destruct playable.
  - rewrite startTurnTimerWithDuration_gameState. fields. exact H2.
  - fields. by apply nextTurn_wellSeated.
Qed.

Lemma timeout_wellSeated now g g' :
  handleTurnTimeout now g = Returns tt g' ->
  wellSeated (gameState g) -> wellSeated (gameState g').
Proof.
  intros H Hw.
  destruct (decide (status (gameState g) = playing)) as [Hst|Hst];
    [|unfold handleTurnTimeout in H;
      rewrite bool_decide_eq_true_2 in H by done; by simplify_eq].
  destruct (decide (turnExpiresAt g = None)) as [Hexp|Hexp].
  { unfold handleTurnTimeout in H.
    rewrite bool_decide_eq_false_2 in H by (by rewrite Hst; intros []).
    rewrite bool_decide_eq_true_2 in H by done. by simplify_eq. }
  destruct Hw as (Hc & Hd & Hs).
  destruct (playerAt_in_range _ _ Hc) as [p Hp].
  pose proof (beforeSkip_facts g p Hp Hd) as (HLd & HLs & HLn & _).
  assert (Hin : forall k,
             wellSeated (set_currentPlayerIndex
                           (seatAt (playerCount (gameState g))
                                   (direction (gameState g))
                                   (currentPlayerIndex (gameState g)) k)
                           (beforeSkip g p).1)).
  { intros k. unfold wellSeated. fields. rewrite playerCount_set_index, HLn.
    split; [apply seatAt_range; lia|]. split; [by rewrite HLd|by rewrite HLs]. }
  destruct (handleTurnTimeout_outcome now g p Hst Hexp Hp Hd)
    as [(k & _ & _ & _ & Hret) | (_ & Hret)];
    rewrite Hret in H; simplify_eq; fields; apply Hin.
Qed.

Lemma step_wellSeated g g' :
  step g g' -> wellSeated (gameState g) -> wellSeated (gameState g').
Proof.
  intros Hstep Hw. destruct Hstep.
  - by eapply playCard_wellSeated.
  - by eapply drawCard_wellSeated.
  - apply endTurn_shape in H as [(msg & -> & ->) | (i & p & _ & _ & _ & _ & -> & _)];
      [done|]. fields. by apply nextTurn_wellSeated.
  - apply callUno_shape in H
      as [(msg & -> & ->) | (i & p & _ & _ & _ & _ & _ & -> & _)]; [done|].
    fields. apply nextTurn_wellSeated.
    revert Hw. apply wellSeated_frame; try done. fields.
    by rewrite length_alter.
  - by eapply timeout_wellSeated.
  - unfold fireDeferred. destruct (deferred g); [done|].
    by rewrite startTurnTimer_gameState.
  - apply handlePlayerDisconnect_shape in H
      as [-> | (i & p & _ & _ & -> & _)]; [done|].
    revert Hw. apply wellSeated_frame; try done. fields.
    by rewrite length_alter.
  - apply handlePlayerReconnect_shape in H
      as [(msg & -> & ->) | (i & p & _ & Hg' & _)]; [done|].
    cbv zeta in Hg'.
    assert (Hgs : gameState g'
                  = set_players (alter (restoreSeat new nm) i
                                       (players (gameState g))) (gameState g)).
    { destruct Hg' as [-> | ->]; [done|]. by rewrite startTurnTimer_gameState. }
    rewrite Hgs. revert Hw. apply wellSeated_frame; try done. fields.
    by rewrite length_alter.
Qed.

Lemma step_seats g g' :
  step g g' ->
  length (players (gameState g')) = length (players (gameState g)).
Proof.
  intros Hstep. destruct Hstep.
  - apply playCard_shape in H
      as [(msg & -> & ->) | (i & p & k & card & _ & _ & _ & _ & _ & _ & _ & Hout)];
      [done|].
    unfold playOutcome in Hout. cbv zeta in Hout.
    assert (HP : length (players (playedState i k p card ch (gameState g)))
                 = length (players (gameState g)))
      by (unfold playedState; fields; by rewrite length_alter).
    case_bool_decide; [by destruct Hout as [-> _]|].
    destruct (mustDeclare _ _ _ _); [by destruct Hout as [-> _]|].
    destruct Hout as (gsD & rD & Hiter & -> & _). fields.
    pose proof (drawInto_iter_drawnFrom (drawAmountOf (value card))
                  (currentPlayerIndex
                     (nextTurn (set_hasDrawnPlayableCard false
                        (turned (value card)
                           (playedState i k p card ch (gameState g))))))
                  (nextTurn (set_hasDrawnPlayableCard false
                     (turned (value card)
                        (playedState i k p card ch (gameState g)))),
                   random g)) as Hd.
    rewrite Hiter in Hd. cbn [fst] in Hd. apply drawnFrom_length in Hd.
    rewrite nextTurn_players_length in Hd.
    assert (HT : length (players (set_hasDrawnPlayableCard false
                   (turned (value card)
                      (playedState i k p card ch (gameState g)))))
                 = length (players (gameState g)))
      by (by destruct (value card)).
    destruct (skipsNext _ _); rewrite ?nextTurn_players_length; congruence.
  - apply drawCard_shape in H
      as [(msg & -> & [-> | ->]) | (i & p & _ & _ & _ & _ & _ & _ & Hout)];
      [done..|].
    destruct Hout as (card & gs1 & r1 & Hpop & Hout). cbv zeta in Hout.
    destruct Hout as (playable & _ & -> & _).
    pose proof (popDeck_drawnFrom (gameState g) (random g)) as H1.
    rewrite Hpop in H1. cbn [fst snd] in H1.
    assert (H2 : drawnFrom (gameState g)
                   (if bool_decide (1 < length (hand p ++ [card]))%nat
                    then clearUno (Z.of_nat i) (pushHand (Z.of_nat i) card gs1)
                    else pushHand (Z.of_nat i) card gs1)).
    { eapply drawnFrom_trans; [exact H1|].
      case_bool_decide; [|apply pushHand_drawnFrom].
      eapply drawnFrom_trans; [apply pushHand_drawnFrom|apply clearUno_drawnFrom]. }
    apply drawnFrom_length in H2.
    destruct playable.
    + rewrite startTurnTimerWithDuration_gameState. fields. exact H2.
    + fields. by rewrite nextTurn_players_length.
  - apply endTurn_shape in H as [(msg & -> & ->) | (i & p & _ & _ & _ & _ & -> & _)];
      [done|]. fields. by rewrite nextTurn_players_length.
  - apply callUno_shape in H
      as [(msg & -> & ->) | (i & p & _ & _ & _ & _ & _ & -> & _)]; [done|].
    fields. rewrite nextTurn_players_length. fields. by rewrite length_alter.
  - apply handleTurnTimeout_shape in H
      as [-> | (p & gsT & c & r1 & _ & _ & _ & HT & Hg')]; [done|].
    cbv zeta in Hg'. apply drawnFrom_length in HT.
    destruct Hg' as [-> | ->]; rewrite ?startTurnTimer_gameState; fields;
      by rewrite nextTurn_players_length.
  - unfold fireDeferred. destruct (deferred g); [done|].
    by rewrite startTurnTimer_gameState.
  - apply handlePlayerDisconnect_shape in H
      as [-> | (i & p & _ & _ & -> & _)]; [done|].
    fields. by rewrite length_alter.
  - apply handlePlayerReconnect_shape in H
      as [(msg & -> & ->) | (i & p & _ & Hg' & _)]; [done|].
    cbv zeta in Hg'.
    destruct Hg' as [-> | ->]; rewrite ?startTurnTimer_gameState; fields;
      by rewrite length_alter.
Qed.

Lemma openingMove_wellSeated v gs :
  0 < playerCount gs -> currentPlayerIndex gs = 0 -> direction gs = 1 ->
  0 <= currentPlayerIndex (openingMove v gs) < playerCount gs
  /\ (direction (openingMove v gs) = 1 \/ direction (openingMove v gs) = -1)
  /\ players (openingMove v gs) = players gs.
Proof.
  intros Hn Hc Hd.
  assert (Hrem : 0 <= js_rem (0 + 1) (playerCount gs) < playerCount gs).
  { unfold js_rem. rewrite Z.rem_mod_nonneg by lia.
    apply Z.mod_pos_bound. lia. }
  unfold openingMove. repeat case_bool_decide; fields; rewrite ?Hc, ?Hd;
    (split; [first [exact Hrem | lia]|]); split; auto.
Qed.

Lemma opened_fresh ids names wallets r g :
  drawFirstCard (newGame ids names wallets r) = Returns tt g ->
  exists sh c gs1 r1 top r2,
    popDeck (dealCards (undealt ids names wallets sh)) r1
    = (Some c, gs1, r2)
    /\ drawnFrom (undealt ids names wallets sh) gs1
    /\ value top = value c /\ color top <> wild
    /\ g = mkGame (openingMove (value top) gs1
                     |> set_discardPile (discardPile gs1 ++ [top])
                     |> set_topCard (Some top)
                     |> set_currentColor (Some (color top))
                     |> set_status playing)
             None None None [dealingAnimationDelay] (random g).
Proof.
  destruct (newGame_undealt ids names wallets r) as (sh & r' & _ & _ & ->).
  intros H. apply drawFirstCard_shape in H
    as (c & gs1 & r1 & top & r2 & Hpop & Hv & Hcol & _ & ->).
  fields in Hpop. exists sh, c, gs1, r', top, r1.
  split; [exact Hpop|]. split; [|done].
  eapply drawnFrom_trans; [apply dealCards_drawnFrom|].
  pose proof (popDeck_drawnFrom (dealCards (undealt ids names wallets sh)) r')
    as Hd. by rewrite Hpop in Hd.
Qed.

Lemma opened_wellSeated ids names wallets r g :
  drawFirstCard (newGame ids names wallets r) = Returns tt g ->
  players (gameState g) <> [] -> wellSeated (gameState g).
Proof.
  intros H Hne.
  destruct (opened_fresh _ _ _ _ _ H)
    as (sh & c & gs1 & r1 & top & r2 & _ & Hd & _ & _ & Hg).
  clear H. rewrite Hg in Hne |- *. fields in Hne. fields.
  pose proof Hd as (_ & _ & Hc & Hdir & _).
  cbn [currentPlayerIndex direction undealt] in Hc, Hdir.
  assert (Hn : 0 < playerCount gs1).
  { destruct (decide (players gs1 = [])) as [Hnil|Hnil].
    - exfalso. apply Hne. unfold openingMove.
      repeat case_bool_decide; by fields.
    - unfold playerCount. destruct (players gs1); [done|]. cbn. lia. }
  destruct (openingMove_wellSeated (value top) gs1 Hn Hc Hdir)
    as (Hrange & Hdd & Hps).
  unfold wellSeated, playerCount in *. fields. rewrite Hps.
  split; [done|]. split; [done|]. done.
Qed.

Lemma served_wellSeated g :
  served g -> players (gameState g) <> [] -> wellSeated (gameState g).
Proof.
  intros Hs Hne.
  induction Hs as [ids names wallets r g Hstart | g g' _ IH Hstep].
  - by eapply opened_wellSeated.
  - eapply step_wellSeated; [exact Hstep|]. apply IH.
    apply step_seats in Hstep. intros Hnil. apply Hne.
    rewrite Hnil in Hstep. by destruct (players (gameState g')).
Qed.

(** X7: in every state that the server reaches at a table of at least one
    seat, [currentPlayerIndex] is the index of a seat, [direction] is 1 or
    -1 and the game is playing or finished, never dealing. *)
Theorem served_seated (g : Game) :
  served g -> players (gameState g) <> [] ->
  0 <= currentPlayerIndex (gameState g) < playerCount (gameState g)
  /\ (direction (gameState g) = 1 \/ direction (gameState g) = -1)
  /\ (status (gameState g) = playing \/ status (gameState g) = finished)
  /\ is_Some (playerAt (gameState g) (currentPlayerIndex (gameState g))).
Proof.
  intros Hs Hne.
  destruct (served_wellSeated g Hs Hne) as (Hc & Hd & Hst).
  split; [done|]. split; [done|].
  split; [by destruct (status (gameState g)); auto|].
  by apply playerAt_in_range.
Qed.

Lemma served_seated_witness :
  0 <= currentPlayerIndex (gameState idleGame) < playerCount (gameState idleGame)
  /\ (direction (gameState idleGame) = 1 \/ direction (gameState idleGame) = -1)
  /\ (status (gameState idleGame) = playing
      \/ status (gameState idleGame) = finished)
  /\ is_Some (playerAt (gameState idleGame)
                (currentPlayerIndex (gameState idleGame))).
Proof. exact (served_seated idleGame idleGame_served idleGame_seats). Defined.

(** ** The declaration flags *)

Lemma unoFlags_nextTurn gs : unoFlags (nextTurn gs).
Proof.
  destruct (nextTurn_idle gs) as (H1 & H2 & H3 & H4).
  split; [done|]. split; [by rewrite H3|]. by rewrite H2.
Qed.

Lemma unoFlags_set_index c gs :
  unoFlags gs -> unoFlags (set_currentPlayerIndex c gs).
Proof. done. Qed.

Lemma seatGrown_undeclared l l' :
  Forall2 seatGrown l l' ->
  Forall (fun p => hasUno p = false) l -> Forall (fun p => hasUno p = false) l'.
Proof.
  induction 1 as [|p p' l l' Hp _ IH]; [done|].
  intros [Hu Hl]%Forall_cons. constructor; [|by apply IH].
  destruct Hp as (_ & _ & _ & _ & _ & _ & [-> | ->] & _); done.
Qed.

Lemma drawnFrom_unoFlags gs gs' :
  drawnFrom gs gs' -> unoFlags gs -> unoFlags gs'.
Proof.
  intros (Hp & _ & _ & _ & Hs & _ & _ & Hd & Hpl & Hw & _) (H1 & H2 & H3).
  split; [by eapply seatGrown_undeclared|].
  rewrite Hs, Hd, Hpl, Hw. done.
Qed.

Lemma unoFlags_alter (f : Player -> Player) i gs :
  (forall x, hasUno (f x) = hasUno x) ->
  unoFlags gs -> unoFlags (set_players (alter f i (players gs)) gs).
Proof.
  intros Hf (H1 & H2 & H3). split; [|done]. fields.
  apply Forall_alter; [done|]. intros x _ Hx. by rewrite Hf.
Qed.

Lemma step_unoFlags g g' :
  step g g' -> unoFlags (gameState g) -> unoFlags (gameState g').
Proof.
  intros Hstep Hu. destruct Hstep.
  - apply playCard_shape in H
      as [(msg & -> & ->) |
          (i & p & k & card & Hst & _ & _ & Hw & _ & _ & _ & Hout)];
      [done|].
    unfold playOutcome in Hout. cbv zeta in Hout.
    assert (HP : Forall (fun p => hasUno p = false)
                   (players (playedState i k p card ch (gameState g)))).
    { unfold playedState. fields. destruct Hu as (H1 & _).
      apply Forall_alter; [done|]. by intros x _ Hx. }
    case_bool_decide.
    + destruct Hout as [-> _]. split; [exact HP|]. unfold playedState. fields.
      split; [by rewrite Hw|done].
    + destruct (mustDeclare _ _ _ _).
      * destruct Hout as [-> _]. split; [exact HP|]. unfold playedState.
        by fields.
      * destruct Hout as (gsD & rD & Hiter & -> & _). fields.
        pose proof (drawInto_iter_drawnFrom (drawAmountOf (value card))
                      (currentPlayerIndex
                         (nextTurn (set_hasDrawnPlayableCard false
                            (turned (value card)
                               (playedState i k p card ch (gameState g))))))
                      (nextTurn (set_hasDrawnPlayableCard false
                         (turned (value card)
                            (playedState i k p card ch (gameState g)))),
                       random g)) as Hd.
        rewrite Hiter in Hd. cbn [fst] in Hd.
        destruct (skipsNext _ _); [apply unoFlags_nextTurn|].
        eapply drawnFrom_unoFlags; [exact Hd|apply unoFlags_nextTurn].
  - apply drawCard_shape in H
      as [(msg & -> & [-> | ->]) | (i & p & Hst & _ & _ & Hw & _ & _ & Hout)];
      [done..|].
    destruct Hout as (card & gs1 & r1 & Hpop & Hout). cbv zeta in Hout.
    destruct Hout as (playable & _ & -> & _).
    pose proof (popDeck_drawnFrom (gameState g) (random g)) as H1.
    rewrite Hpop in H1. cbn [fst snd] in H1.
    assert (H2 : drawnFrom (gameState g)
                   (if bool_decide (1 < length (hand p ++ [card]))%nat
                    then clearUno (Z.of_nat i) (pushHand (Z.of_nat i) card gs1)
                    else pushHand (Z.of_nat i) card gs1)).
    { eapply drawnFrom_trans; [exact H1|].
      case_bool_decide; [|apply pushHand_drawnFrom].
      eapply drawnFrom_trans; [apply pushHand_drawnFrom|apply clearUno_drawnFrom]. }
    destruct playable; [|apply unoFlags_nextTurn].
    rewrite startTurnTimerWithDuration_gameState. fields.
    pose proof (drawnFrom_unoFlags _ _ H2 Hu) as (Hp2 & Hw2 & Hpl2).
    destruct H2 as (_ & _ & _ & _ & _ & _ & _ & _ & _ & Hw' & _).
    split; [exact Hp2|]. fields. rewrite Hw', Hw. split; [done|].
    intros Hs Hpl. specialize (Hpl2 Hs Hpl). congruence.
  - apply endTurn_shape in H as [(msg & -> & ->) | (i & p & _ & _ & _ & _ & -> & _)];
      [done|]. apply unoFlags_nextTurn.
  - apply callUno_shape in H
      as [(msg & -> & ->) | (i & p & _ & _ & _ & _ & _ & -> & _)]; [done|].
    apply unoFlags_nextTurn.
  - apply handleTurnTimeout_shape in H
      as [-> | (p & gsT & c & r1 & _ & _ & _ & HT & Hg')]; [done|].
    cbv zeta in Hg'.
    destruct Hg' as [-> | ->]; rewrite ?startTurnTimer_gameState; fields;
      apply unoFlags_set_index, unoFlags_nextTurn.
  - unfold fireDeferred. destruct (deferred g); [done|].
    by rewrite startTurnTimer_gameState.
  - apply handlePlayerDisconnect_shape in H
      as [-> | (i & p & _ & _ & -> & _)]; [done|].
    fields. by apply unoFlags_alter.
  - apply handlePlayerReconnect_shape in H
      as [(msg & -> & ->) | (i & p & _ & Hg' & _)]; [done|].
    cbv zeta in Hg'.
    destruct Hg' as [-> | ->]; rewrite ?startTurnTimer_gameState; fields;
      apply unoFlags_alter; try done; intros x; unfold restoreSeat;
      by destruct (truthy (originalName x)).
Qed.

Lemma opened_unoFlags ids names wallets r g :
  drawFirstCard (newGame ids names wallets r) = Returns tt g ->
  unoFlags (gameState g).
Proof.
  intros H.
  destruct (opened_fresh _ _ _ _ _ H)
    as (sh & c & gs1 & r1 & top & r2 & _ & Hd & _ & _ & Hg).
  clear H. rewrite Hg. fields.
  destruct (undealt_players ids names wallets sh) as (_ & _ & Hall).
  assert (Hu : unoFlags gs1).
  { eapply drawnFrom_unoFlags; [exact Hd|].
    split; [|done]. eapply Forall_impl; [exact Hall|]. by intros x (_ & ? & _). }
  destruct Hu as (H1 & H2 & H3).
  pose proof Hd as (_ & _ & _ & _ & _ & _ & _ & Hdr & Hpl & Hw & _).
  cbn [hasDrawnPlayableCard hasPlayedCardThisTurn waitingForUno undealt]
    in Hdr, Hpl, Hw.
  unfold openingMove. repeat case_bool_decide; (split; [by fields|]); fields;
    rewrite Hw, Hpl; done.
Qed.

Lemma served_unoFlags g : served g -> unoFlags (gameState g).
Proof.
  induction 1 as [ids names wallets r g Hstart | g g' _ IH Hstep].
  - by eapply opened_unoFlags.
  - by eapply step_unoFlags.
Qed.



(** ** The top card and the colour in play *)

Lemma topShown_frame gs gs' :
  topCard gs' = topCard gs -> last (discardPile gs') = last (discardPile gs) ->
  currentColor gs' = currentColor gs -> topShown gs -> topShown gs'.
Proof. unfold topShown. intros -> -> ->. done. Qed.

Lemma drawnFrom_topShown gs gs' :
  drawnFrom gs gs' -> topShown gs -> topShown gs'.
Proof.
  intros (_ & ? & _ & _ & _ & _ & ? & _ & _ & _ & ?). by apply topShown_frame.
Qed.

Lemma nextTurn_topShown gs : topShown gs -> topShown (nextTurn gs).
Proof. by apply topShown_frame. Qed.

Lemma parseColor_not_wild s c : parseColor s = Some c -> c <> wild.
Proof. unfold parseColor. repeat case_bool_decide; by intros [= <-]. Qed.

Lemma resolveColor_spec card ch :
  resolveColor card ch <> wild
  /\ (color card <> wild -> resolveColor card ch = color card).
Proof.
  unfold resolveColor. case_bool_decide as Hw; [|done]. split; [|done].
  destruct ch as [s|]; [|done].
  destruct (truthy (Some s)); [|done].
  destruct (parseColor s) as [c|] eqn:Hc; [|done].
  by apply parseColor_not_wild in Hc.
Qed.

Lemma playedState_topShown i k p card ch gs :
  topShown (playedState i k p card ch gs).
Proof.
  destruct (resolveColor_spec card ch) as [H1 H2].
  exists card, (resolveColor card ch). unfold playedState. fields.
  by rewrite last_snoc.
Qed.

Lemma step_topShown g g' :
  step g g' -> topShown (gameState g) -> topShown (gameState g').
Proof.
  intros Hstep Hu. destruct Hstep.
  - apply playCard_shape in H
      as [(msg & -> & ->) |
          (i & p & k & card & _ & _ & _ & _ & _ & _ & _ & Hout)];
      [done|].
    unfold playOutcome in Hout. cbv zeta in Hout.
    pose proof (playedState_topShown i k p card ch (gameState g)) as HP.
    case_bool_decide; [by destruct Hout as [-> _]|].
    destruct (mustDeclare _ _ _ _); [by destruct Hout as [-> _]|].
    destruct Hout as (gsD & rD & Hiter & -> & _). fields.
    pose proof (drawInto_iter_drawnFrom (drawAmountOf (value card))
                  (currentPlayerIndex
                     (nextTurn (set_hasDrawnPlayableCard false
                        (turned (value card)
                           (playedState i k p card ch (gameState g))))))
                  (nextTurn (set_hasDrawnPlayableCard false
                     (turned (value card)
                        (playedState i k p card ch (gameState g)))),
                   random g)) as Hd.
    rewrite Hiter in Hd. cbn [fst] in Hd.
    assert (HD : topShown gsD).
    { eapply drawnFrom_topShown; [exact Hd|]. apply nextTurn_topShown.
      revert HP. apply topShown_frame; by destruct (value card). }
    destruct (skipsNext _ _); [by apply nextTurn_topShown|done].
  - apply drawCard_shape in H
      as [(msg & -> & [-> | ->]) | (i & p & _ & _ & _ & _ & _ & _ & Hout)];
      [done..|].
    destruct Hout as (card & gs1 & r1 & Hpop & Hout). cbv zeta in Hout.
    destruct Hout as (playable & _ & -> & _).
    pose proof (popDeck_drawnFrom (gameState g) (random g)) as H1.
    rewrite Hpop in H1. cbn [fst snd] in H1.
    assert (H2 : topShown
                   (if bool_decide (1 < length (hand p ++ [card]))%nat
                    then clearUno (Z.of_nat i) (pushHand (Z.of_nat i) card gs1)
                    else pushHand (Z.of_nat i) card gs1)).
    { eapply drawnFrom_topShown; [|exact Hu].
      eapply drawnFrom_trans; [exact H1|].
      case_bool_decide; [|apply pushHand_drawnFrom].
      eapply drawnFrom_trans; [apply pushHand_drawnFrom|apply clearUno_drawnFrom]. }
    destruct playable; [|by apply nextTurn_topShown].
    rewrite startTurnTimerWithDuration_gameState. fields. exact H2.
  - apply endTurn_shape in H as [(msg & -> & ->) | (i & p & _ & _ & _ & _ & -> & _)];
      [done|]. by apply nextTurn_topShown.
  - apply callUno_shape in H
      as [(msg & -> & ->) | (i & p & _ & _ & _ & _ & _ & -> & _)]; [done|].
    by apply nextTurn_topShown.
  - apply handleTurnTimeout_shape in H
      as [-> | (p & gsT & c & r1 & _ & _ & _ & HT & Hg')]; [done|].
    cbv zeta in Hg'.
    assert (HN : topShown (set_currentPlayerIndex c (nextTurn gsT))).
    { apply (topShown_frame (nextTurn gsT)); try done.
      apply nextTurn_topShown. by eapply drawnFrom_topShown. }
    destruct Hg' as [-> | ->]; rewrite ?startTurnTimer_gameState; exact HN.
  - unfold fireDeferred. destruct (deferred g); [done|].
    by rewrite startTurnTimer_gameState.
  - apply handlePlayerDisconnect_shape in H
      as [-> | (i & p & _ & _ & -> & _)]; [done|]. done.
  - apply handlePlayerReconnect_shape in H
      as [(msg & -> & ->) | (i & p & _ & Hg' & _)]; [done|].
    cbv zeta in Hg'.
    destruct Hg' as [-> | ->]; rewrite ?startTurnTimer_gameState; done.
Qed.

Lemma opened_topShown ids names wallets r g :
  drawFirstCard (newGame ids names wallets r) = Returns tt g ->
  topShown (gameState g).
Proof.
  intros H.
  destruct (opened_fresh _ _ _ _ _ H)
    as (sh & c & gs1 & r1 & top & r2 & _ & _ & _ & Hcol & Hg).
  clear H. rewrite Hg. fields. exists top, (color top). fields.
  by rewrite last_snoc.
Qed.

(** X10: in every state that the server reaches there is a top card, it
    is the last card of the discard pile, and the colour in play is one
    of red, green, blue and yellow: the colour of the top card unless
    the top card is wild. *)
Theorem served_top_card (g : Game) :
  served g ->
  exists top c,
    topCard (gameState g) = Some top
    /\ last (discardPile (gameState g)) = Some top
    /\ currentColor (gameState g) = Some c
    /\ c <> wild
    /\ (color top <> wild -> c = color top).
Proof.
  intros Hs. change (topShown (gameState g)).
  induction Hs as [ids names wallets r g Hstart | g g' _ IH Hstep].
  - by eapply opened_topShown.
  - by eapply step_topShown.
Qed.

Lemma served_top_card_witness :
  exists top c,
    topCard (gameState idleGame) = Some top
    /\ last (discardPile (gameState idleGame)) = Some top
    /\ currentColor (gameState idleGame) = Some c
    /\ c <> wild
    /\ (color top <> wild -> c = color top).
Proof. exact (served_top_card idleGame idleGame_served). Defined.

(** ** The end of the game *)








Lemma popDeck_nonempty gs r :
  (0 < length (deck gs))%nat ->
  exists c rest,
    deck gs = rest ++ [c] /\ popDeck gs r = (Some c, set_deck rest gs, r).
Proof.
  intros Hd. unfold popDeck. rewrite bool_decide_eq_false_2 by lia.
  destruct (pop_nonempty (deck gs) Hd) as (c & rest & Hl & ->).
  by exists c, rest.
Qed.

Lemma popDeck_exhausted gs r :
  deck gs = [] -> (length (discardPile gs) <= 1)%nat ->
  popDeck gs r = (None, gs, r).
Proof.
  intros Hd Hdisc. unfold popDeck, reshuffleDeck. rewrite Hd. cbn [length].
  rewrite bool_decide_eq_true_2 by done.
  rewrite bool_decide_eq_true_2 by done. cbn.
  destruct gs. cbn in *. by subst.
Qed.





(** ** The timer *)

Lemma remainingTime_nonneg now g : 0 <= remainingTime now g.
Proof.
  unfold remainingTime, turnTimeLimit.
  destruct (turnExpiresAt g); [|lia]. case_bool_decide; lia.
Qed.

Lemma timer_cleared g : timerCoherent (clearTurnTimer g).
Proof. by left. Qed.

Lemma timer_started d now g :
  0 <= d -> timerCoherent (startTurnTimerWithDuration d now g).
Proof.
  intros Hd.
  destruct (startTurnTimerWithDuration_cases d now g) as [-> | (Hst & _ & ->)].
  - apply timer_cleared.
  - right. split; [done|]. by exists d, now.
Qed.

Lemma timer_kept g g' :
  turnTimer g' = turnTimer g -> turnStartTime g' = turnStartTime g ->
  turnExpiresAt g' = turnExpiresAt g ->
  status (gameState g') = status (gameState g) ->
  timerCoherent g -> timerCoherent g'.
Proof. unfold timerCoherent. intros -> -> -> ->. done. Qed.

Lemma step_timerCoherent g g' :
  step g g' -> timerCoherent g -> timerCoherent g'.
Proof.
  intros Hstep Hu. destruct Hstep.
  - apply playCard_shape in H
      as [(msg & -> & ->) |
          (i & p & k & card & _ & _ & _ & _ & _ & _ & _ & Hout)];
      [done|].
    unfold playOutcome in Hout. cbv zeta in Hout.
    case_bool_decide; [destruct Hout as [-> _]; apply timer_cleared|].
    destruct (mustDeclare _ _ _ _).
    + destruct Hout as [-> _]. revert Hu. by apply timer_kept.
    + destruct Hout as (gsD & rD & Hiter & -> & _). by left.
  - apply drawCard_shape in H
      as [(msg & -> & [-> | ->]) | (i & p & _ & _ & _ & _ & _ & _ & Hout)];
      [done|apply timer_cleared|].
    destruct Hout as (card & gs1 & r1 & Hpop & Hout). cbv zeta in Hout.
    destruct Hout as ([|] & _ & -> & _); [|by left].
    apply timer_started, remainingTime_nonneg.
  - apply endTurn_shape in H
      as [(msg & -> & ->) | (i & p & _ & _ & _ & _ & -> & _)]; [done|].
    by left.
  - apply callUno_shape in H
      as [(msg & -> & ->) | (i & p & _ & _ & _ & _ & _ & -> & _)]; [done|].
    by left.
  - apply handleTurnTimeout_shape in H
      as [-> | (p & gsT & c & r1 & _ & _ & _ & _ & Hg')]; [done|].
    cbv zeta in Hg'. destruct Hg' as [-> | ->]; [apply timer_cleared|].
    by apply timer_started.
  - unfold fireDeferred. destruct (deferred g); [done|].
    by apply timer_started.
  - apply handlePlayerDisconnect_shape in H
      as [-> | (i & p & _ & _ & -> & _)]; [done|].
    revert Hu. by apply timer_kept.
  - apply handlePlayerReconnect_shape in H
      as [(msg & -> & ->) | (i & p & _ & Hg' & _)]; [done|].
    cbv zeta in Hg'. destruct Hg' as [-> | ->].
    + revert Hu. by apply timer_kept.
    + by apply timer_started.
Qed.

(** X12: in every state that the server reaches the three timer fields
    agree: either none is set, or the game is in play and the deadline
    is the start of the turn plus the delay of the pending expiry, which
    is not negative. *)
Theorem served_timer (g : Game) :
  served g ->
  (turnTimer g = None /\ turnStartTime g = None /\ turnExpiresAt g = None)
  \/ (status (gameState g) = playing
      /\ exists d s, turnTimer g = Some d /\ turnStartTime g = Some s
                     /\ turnExpiresAt g = Some (s + d) /\ 0 <= d).
Proof.
  intros Hs. change (timerCoherent g). revert Hs.
  induction 1 as [ids names wallets r g Hstart | g g' _ IH Hstep].
  - destruct (newGame_undealt ids names wallets r) as (sh & r' & _ & _ & Hnew).
    rewrite Hnew in Hstart. clear Hnew.
    apply drawFirstCard_shape in Hstart
      as (c & gs1 & r1 & top & r2 & _ & _ & _ & _ & ->).
    by left.
  - by eapply step_timerCoherent.
Qed.

Lemma served_timer_witness :
  (turnTimer idleGame = None /\ turnStartTime idleGame = None
   /\ turnExpiresAt idleGame = None)
  \/ (status (gameState idleGame) = playing
      /\ exists d s, turnTimer idleGame = Some d /\ turnStartTime idleGame = Some s
                     /\ turnExpiresAt idleGame = Some (s + d) /\ 0 <= d).
Proof. exact (served_timer idleGame idleGame_served). Defined.

(** ** Timeouts in the states that the server reaches *)

(** X8: in every state that the server reaches at a table of at least
    one seat [handleTurnTimeout] returns: it does not raise and its
    skipping loop ends.  It leaves the game as it is when the game is
    not in play or no deadline is armed; otherwise it leaves the game in
    the idle sub-state of a new turn, with the deadline either cleared
    or set to the full limit from now. *)
Theorem handleTurnTimeout_returns (now : Z) (g : Game) :
  served g -> players (gameState g) <> [] ->
  exists g',
    handleTurnTimeout now g = Returns tt g'
    /\ (status (gameState g) <> playing \/ turnExpiresAt g = None -> g' = g)
    /\ (status (gameState g) = playing -> turnExpiresAt g <> None ->
        idleTurn (gameState g')
        /\ (turnExpiresAt g' = None
            \/ turnExpiresAt g' = Some (now + turnTimeLimit))).
Proof.
  intros Hs Hne.
  destruct (served_wellSeated g Hs Hne) as (Hc & Hd & _). clear Hs.
  destruct (decide (status (gameState g) = playing)) as [Hst|Hst].
  - destruct (decide (turnExpiresAt g = None)) as [Hexp|Hexp].
    + exists g. unfold handleTurnTimeout.
      rewrite bool_decide_eq_false_2 by (by rewrite Hst; intros []).
      rewrite bool_decide_eq_true_2 by done. done.
    + destruct (playerAt_in_range _ _ Hc) as [p Hp].
      assert (Hret : exists g', handleTurnTimeout now g = Returns tt g'
                       /\ (turnExpiresAt g' = None
                           \/ turnExpiresAt g' = Some (now + turnTimeLimit))).
      { destruct (handleTurnTimeout_outcome now g p Hst Hexp Hp Hd)
          as [(k & _ & _ & _ & ->) | (_ & ->)]; eexists; split; try done;
          [by right|by left]. }
      destruct Hret as (g' & Hret & Htimer). exists g'.
      split; [done|]. split; [by intros [? | ?]|]. intros _ _.
      split; [by eapply handleTurnTimeout_idle|done].
  - exists g. unfold handleTurnTimeout.
    rewrite bool_decide_eq_true_2 by done. done.
Qed.

Lemma handleTurnTimeout_returns_witness :
  exists g',
    handleTurnTimeout 20000 idleGame = Returns tt g'
    /\ (status (gameState idleGame) <> playing \/ turnExpiresAt idleGame = None
        -> g' = idleGame)
    /\ (status (gameState idleGame) = playing ->
        turnExpiresAt idleGame <> None ->
        idleTurn (gameState g')
        /\ (turnExpiresAt g' = None
            \/ turnExpiresAt g' = Some (20000 + turnTimeLimit))).
Proof.
  exact (handleTurnTimeout_returns 20000 idleGame idleGame_served idleGame_seats).
Defined.

(** ** A finished game *)

(** X13: once a game is finished it stays finished: whatever the engine
    is asked to do next, the status, the winner, the hands, the deck,
    the discard pile, the top card, the colour, the turn index and the
    direction stay as they are and no deadline gets armed; the seats
    change only when a player reconnects, and then only in who sits
    there. *)
Theorem finished_game_is_frozen (g g' : Game) :
  status (gameState g) = finished -> step g g' ->
  status (gameState g') = finished
  /\ winner (gameState g') = winner (gameState g)
  /\ hand <$> players (gameState g') = hand <$> players (gameState g)
  /\ deck (gameState g') = deck (gameState g)
  /\ discardPile (gameState g') = discardPile (gameState g)
  /\ topCard (gameState g') = topCard (gameState g)
  /\ currentColor (gameState g') = currentColor (gameState g)
  /\ currentPlayerIndex (gameState g') = currentPlayerIndex (gameState g)
  /\ direction (gameState g') = direction (gameState g)
  /\ (turnExpiresAt g = None -> turnExpiresAt g' = None)
  /\ (gameState g' = gameState g
      \/ exists i new nm,
           gameState g'
           = gameState g
               |> set_players (alter (restoreSeat new nm) i
                                     (players (gameState g)))).
Proof.
  intros Hfin Hstep.
  assert (Hsame : forall g0 : Game,
             gameState g0 = gameState g ->
             (turnExpiresAt g = None -> turnExpiresAt g0 = None) ->
             status (gameState g0) = finished
             /\ winner (gameState g0) = winner (gameState g)
             /\ hand <$> players (gameState g0) = hand <$> players (gameState g)
             /\ deck (gameState g0) = deck (gameState g)
             /\ discardPile (gameState g0) = discardPile (gameState g)
             /\ topCard (gameState g0) = topCard (gameState g)
             /\ currentColor (gameState g0) = currentColor (gameState g)
             /\ currentPlayerIndex (gameState g0)
                = currentPlayerIndex (gameState g)
             /\ direction (gameState g0) = direction (gameState g)
             /\ (turnExpiresAt g = None -> turnExpiresAt g0 = None)
             /\ (gameState g0 = gameState g
                 \/ exists i new nm,
                      gameState g0
                      = gameState g
                          |> set_players (alter (restoreSeat new nm) i
                                                (players (gameState g))))).
  { intros g0 -> ?. repeat (split; [done|]). by left. }
  assert (Hnot : status (gameState g) = playing -> False)
    by (rewrite Hfin; done).
  destruct Hstep.
  - apply playCard_shape in H as [(msg & -> & ->) | (i & p & k & card & Hst & _)];
      [by apply Hsame|by destruct Hnot].
  - apply drawCard_shape in H
      as [(msg & -> & [-> | ->]) | (i & p & Hst & _)];
      [by apply Hsame|by apply Hsame|by destruct Hnot].
  - apply endTurn_shape in H as [(msg & -> & ->) | (i & p & Hst & _)];
      [by apply Hsame|by destruct Hnot].
  - apply callUno_shape in H as [(msg & -> & ->) | (i & p & Hst & _)];
      [by apply Hsame|by destruct Hnot].
  - apply handleTurnTimeout_shape in H as [-> | (p & gsT & c & r1 & Hst & _)];
      [by apply Hsame|by destruct Hnot].
  - unfold fireDeferred. destruct (deferred g); [by apply Hsame|].
    apply Hsame; [by rewrite startTurnTimer_gameState|].
    intros _. unfold startTurnTimer, startTurnTimerWithDuration. fields.
    rewrite bool_decide_eq_true_2; [done|]. by rewrite Hfin.
  - apply handlePlayerDisconnect_shape in H as [-> | (i & p & _ & Hne & _)];
      [by apply Hsame|done].
  - apply handlePlayerReconnect_shape in H
      as [(msg & -> & ->) | (i & p & _ & Hg' & _)]; [by apply Hsame|].
    cbv zeta in Hg'.
    assert (Hgs : gameState g'
                  = set_players (alter (restoreSeat new nm) i
                                       (players (gameState g))) (gameState g)
                  /\ (turnExpiresAt g = None -> turnExpiresAt g' = None)).
    { destruct Hg' as [-> | ->]; [done|].
      split; [by rewrite startTurnTimer_gameState|].
      intros _. unfold startTurnTimer, startTurnTimerWithDuration. fields.
      rewrite bool_decide_eq_true_2; [done|]. by rewrite Hfin. }
    destruct Hgs as [Hgs Ht]. rewrite Hgs. fields.
    repeat (split; [done|]).
    split.
    { apply fmap_alter_preserved. intros x. unfold restoreSeat.
      by destruct (truthy (originalName x)). }
    repeat (split; [done|]). right. by exists i, new, nm.
Qed.

Lemma finished_game_is_frozen_witness :
  status (gameState (finalState (drawCard "b" 0 wonTable))) = finished
  /\ winner (gameState (finalState (drawCard "b" 0 wonTable)))
     = winner (gameState wonTable)
  /\ hand <$> players (gameState (finalState (drawCard "b" 0 wonTable)))
     = hand <$> players (gameState wonTable)
  /\ deck (gameState (finalState (drawCard "b" 0 wonTable)))
     = deck (gameState wonTable)
  /\ discardPile (gameState (finalState (drawCard "b" 0 wonTable)))
     = discardPile (gameState wonTable)
  /\ topCard (gameState (finalState (drawCard "b" 0 wonTable)))
     = topCard (gameState wonTable)
  /\ currentColor (gameState (finalState (drawCard "b" 0 wonTable)))
     = currentColor (gameState wonTable)
  /\ currentPlayerIndex (gameState (finalState (drawCard "b" 0 wonTable)))
     = currentPlayerIndex (gameState wonTable)
  /\ direction (gameState (finalState (drawCard "b" 0 wonTable)))
     = direction (gameState wonTable)
  /\ (turnExpiresAt wonTable = None ->
      turnExpiresAt (finalState (drawCard "b" 0 wonTable)) = None)
  /\ (gameState (finalState (drawCard "b" 0 wonTable)) = gameState wonTable
      \/ exists i new nm,
           gameState (finalState (drawCard "b" 0 wonTable))
           = gameState wonTable
               |> set_players (alter (restoreSeat new nm) i
                                     (players (gameState wonTable)))).
Proof.
  apply (finished_game_is_frozen wonTable (finalState (drawCard "b" 0 wonTable))).
  - vm_compute. reflexivity.
  - apply (step_drawCard "b" 0 wonTable (Failure "Game is not in playing state")).
    vm_compute. reflexivity.
Defined.

(** ** Where the hands go *)

Lemma handsOf_popDeck gs r : handsOf (popDeck gs r).1.2 = handsOf gs.
Proof. unfold handsOf. by destruct (popDeck_players gs r) as [-> _]. Qed.

Lemma handsOf_pushHand i c gs :
  0 <= i ->
  handsOf (pushHand i c gs)
  = alter (fun h => h ++ [c]) (Z.to_nat i) (handsOf gs).
Proof.
  intros Hi. unfold handsOf, pushHand. rewrite bool_decide_eq_false_2 by lia.
  fields. apply list_fmap_alter, Forall_true. done.
Qed.

Lemma handsOf_clearUno i gs : handsOf (clearUno i gs) = handsOf gs.
Proof.
  unfold handsOf, clearUno. case_bool_decide; [done|]. fields.
  by apply fmap_alter_preserved.
Qed.

Lemma handsOf_nextTurn gs : handsOf (nextTurn gs) = handsOf gs.
Proof. unfold handsOf. by destruct (nextTurn_seating gs) as (_ & _ & _ & -> & _). Qed.

Lemma handsOf_drawInto i gs r :
  0 <= i ->
  exists c, handsOf (drawInto i (gs, r)).1
            = alter (fun h => h ++ [c]) (Z.to_nat i) (handsOf gs).
Proof.
  intros Hi. unfold drawInto. cbn [fst snd].
  pose proof (handsOf_popDeck gs r) as Hp.
  destruct (popDeck gs r) as [[c gs1] r1]. cbn [fst snd] in *.
  exists c. by rewrite handsOf_pushHand, Hp.
Qed.

Lemma handsOf_drawInto_iter k i gs r :
  0 <= i ->
  exists ext,
    length ext = k
    /\ handsOf (Nat.iter k (drawInto i) (gs, r)).1
       = alter (fun h => h ++ ext) (Z.to_nat i) (handsOf gs).
Proof.
  intros Hi. induction k as [|k (ext & Hlen & IH)].
  - exists []. split; [done|]. cbn.
    symmetry. apply list_alter_id. intros h. by rewrite app_nil_r.
  - rewrite Nat.iter_succ.
    destruct (Nat.iter k (drawInto i) (gs, r)) as [gs1 r1]. cbn [fst] in IH.
    destruct (handsOf_drawInto i gs1 r1 Hi) as [c Hc].
    exists (ext ++ [c]). split; [rewrite length_app; cbn; lia|].
    rewrite Hc, IH, list_alter_alter_eq.
    apply list_alter_ext; [|done]. intros h _. cbn.
    by rewrite app_assoc.
Qed.

Lemma handsOf_playedState i k p card ch gs :
  players gs !! i = Some p ->
  handsOf (playedState i k p card ch gs) = alter (delete k) i (handsOf gs).
Proof.
  intros Hp. unfold handsOf, playedState. fields.
  rewrite (alter_at _ (fun x => set_hand (delete k (hand x)) x) _ _ p Hp)
    by done.
  apply list_fmap_alter, Forall_true. done.
Qed.

Lemma handsOf_turned v gs : handsOf (turned v gs) = handsOf gs.
Proof. by destruct v. Qed.

Lemma nextTurn_index gs :
  0 <= currentPlayerIndex gs < playerCount gs ->
  direction gs = 1 \/ direction gs = -1 ->
  forall k orig,
    0 <= orig < playerCount gs ->
    currentPlayerIndex gs = seatAt (playerCount gs) (direction gs) orig k ->
    currentPlayerIndex (nextTurn gs)
    = seatAt (playerCount gs) (direction gs) orig (k + 1).
Proof.
  intros Hc Hd k orig Ho Hk.
  destruct (nextTurn_seating gs) as (_ & _ & _ & _ & ->).
  rewrite Hk. apply seatAt_step; [lia|done].
Qed.


Lemma findPlayer_fmap (f : Player -> Player) pid gs i p :
  (forall x, id (f x) = id x) ->
  findPlayer pid gs = Some (i, p) ->
  findPlayer pid (set_players (f <$> players gs) gs) = Some (i, f p).
Proof.
  unfold findPlayer. fields. intros Hf H.
  apply list_find_Some in H as (Hl & Hp & Hlt).
  apply list_find_Some. split; [by rewrite list_lookup_fmap, Hl|].
  split; [by rewrite Hf|].
  intros j y Hj Hji. apply list_lookup_fmap_Some in Hj as (x & -> & Hx).
  rewrite Hf. by apply (Hlt j).
Qed.

(** ** What a card does *)

(** X14: the effect of an accepted play that passes the turn (the answer
    is "Card played"), at a table whose direction is 1 or -1.  A
    reverse turns the direction round and nothing else does.  The turn moves one seat on in the new direction,
    and two seats when the card is a skip, a draw-two, a wild-draw-four
    or, with two seats, a reverse.  The seat after the player gets two
    entries at the end of its hand for a draw-two and four for a
    wild-draw-four; apart from these and from the card played no hand
    changes.  The card is the new top card, the colour in play is its
    colour or the one chosen, the timer is cleared, one re-arm is
    pending after 1200 ms, or 2400 ms when cards were drawn, and the new
    turn starts in the idle sub-state. *)
Theorem playCard_effect (pid : string) (idx : Z) (ch : option string)
    (g : Game) (snap : Snapshot.PublicState) (g' : Game) (i : nat)
    (p : Player) (card : Card) :
  let gs := gameState g in
  let n := playerCount gs in
  let cur := currentPlayerIndex gs in
  let d' := if bool_decide (value card = reverse) then - direction gs
            else direction gs in
  direction gs = 1 \/ direction gs = -1 ->
  findPlayer pid gs = Some (i, p) ->
  hand p !! Z.to_nat idx = Some (Some card) ->
  playCard pid (Some idx) ch g = Returns (Success "Card played" snap) g' ->
  direction (gameState g') = d'
  /\ currentPlayerIndex (gameState g')
     = seatAt n d' cur
         (if skipsNext (length (players gs)) (value card) then 2 else 1)
  /\ (exists ext,
        length ext = drawAmountOf (value card)
        /\ handsOf (gameState g')
           = alter (fun h => h ++ ext) (Z.to_nat (seatAt n d' cur 1))
                   (alter (delete (Z.to_nat idx)) i (handsOf gs)))
  /\ topCard (gameState g') = Some card
  /\ last (discardPile (gameState g')) = Some card
  /\ currentColor (gameState g') = Some (resolveColor card ch)
  /\ turnTimer g' = None /\ turnExpiresAt g' = None
  /\ deferred g'
     = deferred g ++ [if bool_decide (0 < drawAmountOf (value card))%nat
                      then 2 * ANIMATION_DURATION else ANIMATION_DURATION]
  /\ idleTurn (gameState g').
Proof.
  intros gs n cur d' Hd Hfind Hcard H.
  apply playCard_shape in H
    as [(msg & [=] & _) |
        (i0 & p0 & k & card0 & Hst & Hfind0 & Hcur & Hw & [= Hidx] & Hk & _
         & Hout)].
  fold gs in Hfind0. rewrite Hfind in Hfind0.
  assert (i0 = i /\ p0 = p) as [-> ->] by (split; congruence).
  clear Hfind0. subst idx. rewrite Nat2Z.id in Hcard |- *.
  assert (card0 = card) as -> by congruence. clear Hk.
  apply findPlayer_lookup in Hfind as [Hp _].
  assert (Hc : 0 <= cur < n).
  { apply lookup_lt_Some in Hp. unfold cur, n, playerCount, gs in *.
    rewrite <- Hcur. lia. }
  unfold playOutcome in Hout. cbv zeta in Hout. fold gs in Hout.
  case_bool_decide; [by destruct Hout as [_ [=]]|].
  destruct (mustDeclare _ _ _ _); [by destruct Hout as [_ [=]]|].
  destruct Hout as (gsD & rD & Hiter & -> & _).
  set (gsP := playedState i k p card ch gs) in *.
  set (gsT := set_hasDrawnPlayableCard false (turned (value card) gsP)) in *.
  assert (HTn : playerCount gsT = n).
  { unfold gsT, gsP, playedState, playerCount, turned, n, playerCount.
    destruct (value card); fields; by rewrite length_alter. }
  assert (HTd : direction gsT = d').
  { unfold gsT, gsP, playedState, d', turned.
    destruct (value card); fields; try done.
    rewrite bool_decide_eq_true_2 by done. lia. }
  assert (HTc : currentPlayerIndex gsT = cur).
  { unfold gsT, gsP, playedState, turned. by destruct (value card). }
  assert (Hd' : d' = 1 \/ d' = -1).
  { unfold d'. case_bool_decide; [|done]. destruct Hd as [-> | ->]; auto. }
  assert (HN1 : currentPlayerIndex (nextTurn gsT) = seatAt n d' cur 1).
  { rewrite <- HTn, <- HTd.
    apply (nextTurn_index gsT ltac:(by rewrite HTn, HTc)
             ltac:(by rewrite HTd) 0 cur); rewrite ?HTn, ?HTd, ?HTc;
      [done|by rewrite seatAt_0]. }
  pose proof (drawInto_iter_drawnFrom (drawAmountOf (value card))
                (currentPlayerIndex (nextTurn gsT)) (nextTurn gsT, random g))
    as HD.
  rewrite Hiter in HD. cbn [fst] in HD.
  destruct (handsOf_drawInto_iter (drawAmountOf (value card))
              (currentPlayerIndex (nextTurn gsT)) (nextTurn gsT) (random g))
    as (ext & Hlen & Hhands).
  { rewrite HN1. apply seatAt_range. lia. }
  rewrite Hiter in Hhands. cbn [fst] in Hhands.
  rewrite handsOf_nextTurn, HN1 in Hhands.
  assert (HhT : handsOf gsT = alter (delete k) i (handsOf gs)).
  { unfold gsT. change (handsOf (turned (value card) gsP)
                         = alter (delete k) i (handsOf gs)).
    rewrite handsOf_turned. by apply handsOf_playedState. }
  rewrite HhT in Hhands.
  destruct (nextTurn_fields gsT)
    as (HNtop & _ & HNdisc & HNdir & _ & _ & HNcol & _).
  pose proof HD as (_ & HDtop & HDc & HDd & _ & _ & HDcol & _ & _ & _ & HDlast).
  rewrite HNtop in HDtop. rewrite HNdir, HTd in HDd. rewrite HNcol in HDcol.
  rewrite HNdisc in HDlast. rewrite HN1 in HDc.
  assert (HPtop : topCard gsT = Some card
                  /\ last (discardPile gsT) = Some card
                  /\ currentColor gsT = Some (resolveColor card ch)).
  { unfold gsT, gsP, playedState, turned.
    destruct (value card); fields; by rewrite last_snoc. }
  destruct HPtop as (HPtop & HPlast & HPcol).
  assert (HDn : playerCount gsD = n).
  { unfold playerCount. rewrite (drawnFrom_length _ _ HD).
    rewrite nextTurn_players_length. exact HTn. }
  assert (Hdelay : ANIMATION_DURATION
                   + (if bool_decide (0 < drawAmountOf (value card))%nat
                      then ANIMATION_DURATION else 0)
                   = (if bool_decide (0 < drawAmountOf (value card))%nat
                      then 2 * ANIMATION_DURATION else ANIMATION_DURATION)).
  { case_bool_decide; lia. }
  fields. rewrite Hdelay.
  destruct (skipsNext _ _).
  - destruct (nextTurn_fields gsD)
      as (Htop & _ & Hdisc & Hdir & _ & _ & Hcol & _).
    split; [by rewrite Hdir|]. split.
    { rewrite <- HDn at 1. rewrite <- HDd.
      assert (Hin : 0 <= seatAt n d' cur 1 < n) by (apply seatAt_range; lia).
      apply (nextTurn_index gsD ltac:(by rewrite HDn, HDc)
               ltac:(by rewrite HDd) 1 cur); by rewrite ?HDn, ?HDd. }
    split; [exists ext; by rewrite handsOf_nextTurn|].
    split; [congruence|]. split; [congruence|]. split; [congruence|].
    repeat (split; [done|]). apply nextTurn_idle.
  - split; [done|]. split; [done|]. split; [by exists ext|].
    split; [congruence|]. split; [congruence|]. split; [congruence|].
    repeat (split; [done|]).
    eapply drawnFrom_unoFlags in HD; [|apply unoFlags_nextTurn].
    destruct (nextTurn_idle gsT) as (I1 & I2 & I3 & _).
    destruct HD as (HDu & _).
    pose proof (drawInto_iter_drawnFrom (drawAmountOf (value card))
                  (currentPlayerIndex (nextTurn gsT)) (nextTurn gsT, random g))
      as (_ & _ & _ & _ & _ & _ & _ & J1 & J2 & J3 & _).
    rewrite Hiter in J1, J2, J3. cbn [fst] in J1, J2, J3.
    split; [congruence|]. split; [congruence|]. split; [congruence|done].
Qed.

Lemma playCard_effect_witness :
  exists snap g',
    playCard "a" (Some 0) None actionTable
    = Returns (Success "Card played" snap) g'
    /\ direction (gameState g') = -1
    /\ currentPlayerIndex (gameState g') = 0
    /\ turnExpiresAt g' = None
    /\ deferred g' = [ANIMATION_DURATION].
Proof.
  assert (H : exists snap g',
             playCard "a" (Some 0) None actionTable
             = Returns (Success "Card played" snap) g')
    by (vm_compute; eexists _, _; reflexivity).
  destruct H as (snap & g' & H). exists snap, g'. split; [exact H|].
  pose proof (playCard_effect "a" 0 None actionTable snap g' 0 actionSeat
                (mkCard green reverse) (or_introl eq_refl)
                eq_refl eq_refl H)
    as (Hd & Hc & _ & _ & _ & _ & _ & Ht & Hdef & _).
  split; [exact Hd|]. split; [exact Hc|]. split; [exact Ht|exact Hdef].
Defined.

(** ** A play that asks for the declaration *)



(** ** Drawing *)






(** ** While a declaration is pending *)

Lemma playsA_served idx g :
  served g -> returned (playCard "a" (Some idx) (Some "red"%string) g) = true ->
  served (playsA idx g).
Proof. intros Hs Hr. eapply served_step; [exact Hs|]. by apply playCard_step. Qed.

Lemma expire_served g :
  served g ->
  returned (handleTurnTimeout (default 0 (turnExpiresAt g)) g) = true ->
  served (expire g).
Proof.
  intros Hs Hr. unfold expire.
  destruct (handleTurnTimeout _ g) as [[] g'| |] eqn:H; [|done..].
  eapply served_step; [exact Hs|]. by eapply step_timeout.
Qed.

Lemma sitsOut_served g :
  served g ->
  returned (handleTurnTimeout
              (default 0 (turnExpiresAt (fireDeferred 0 g)))
              (fireDeferred 0 g)) = true ->
  served (sitsOut g).
Proof.
  intros Hs Hr. apply expire_served; [|exact Hr].
  eapply served_step; [exact Hs|apply step_deferred].
Qed.

Lemma declarationPending_served : served declarationPending.
Proof.
  unfold declarationPending.
  repeat match goal with
         | |- served (playsA _ _) =>
             apply playsA_served; [|vm_compute; reflexivity]
         | |- served (sitsOut _) =>
             apply sitsOut_served; [|vm_compute; reflexivity]
         | |- served (expire _) =>
             apply expire_served; [|vm_compute; reflexivity]
         end.
  exact idleGame_served.
Qed.

(** X17: while a declaration is pending in a state that the server
    reaches, [playCard], [drawCard] and [endTurn] are refused whoever
    calls them and with whatever arguments, and they leave the game,
    the timer included, exactly as it is: the turn can only end by
    [callUno] or by the timeout. *)
Theorem pending_declaration_blocks (g : Game) :
  served g -> waitingForUno (gameState g) = true ->
  forall (pid : string) (idx : option Z) (ch : option string) (now : Z),
    (exists m, playCard pid idx ch g = Returns (Failure m) g)
    /\ (exists m, drawCard pid now g = Returns (Failure m) g)
    /\ (exists m, endTurn pid g = Returns (Failure m) g).
Proof.
  intros Hs Hw pid idx ch now.
  destruct (served_unoFlags g Hs) as (_ & H2 & _).
  destruct (H2 Hw) as (Hdr & _ & Hst). clear Hs H2.
  unfold playCard, drawCard, endTurn. rewrite Hw, Hdr, Hst.
  rewrite bool_decide_eq_false_2 by (by intros Hn; apply Hn).
  destruct (findPlayer pid (gameState g)) as [[i p]|];
    [|repeat split; eexists; reflexivity].
  case_bool_decide; cbn [negb]; repeat split; eexists; reflexivity.
Qed.

Lemma pending_declaration_blocks_witness :
  (exists m, playCard "a" (Some 0) None declarationPending
             = Returns (Failure m) declarationPending)
  /\ (exists m, drawCard "a" 1000 declarationPending
                = Returns (Failure m) declarationPending)
  /\ (exists m, endTurn "a" declarationPending
                = Returns (Failure m) declarationPending).
Proof.
  apply (pending_declaration_blocks declarationPending
           declarationPending_served).
  vm_compute. reflexivity.
Defined.

(** ** Out of turn *)

(** X18: a caller that is not the active seat (its id belongs to another
    seat or to none) changes nothing: [playCard], [drawCard], [endTurn]
    and [callUno] are refused and leave the game, the timer included,
    as it is. *)
Theorem out_of_turn_calls_change_nothing (pid : string) (idx : option Z)
    (ch : option string) (now : Z) (g : Game) :
  (forall i p, findPlayer pid (gameState g) = Some (i, p) ->
               Z.of_nat i <> currentPlayerIndex (gameState g)) ->
  (exists m, playCard pid idx ch g = Returns (Failure m) g)
  /\ (exists m, drawCard pid now g = Returns (Failure m) g)
  /\ (exists m, endTurn pid g = Returns (Failure m) g)
  /\ (exists m, callUno pid g = Returns (Failure m) g).
Proof.
  intros Hout. unfold playCard, drawCard, endTurn, callUno.
  case_bool_decide; [repeat split; eexists; reflexivity|].
  destruct (findPlayer pid (gameState g)) as [[i p]|];
    [|repeat split; eexists; reflexivity].
  rewrite bool_decide_eq_true_2 by (by eapply Hout).
  repeat split; eexists; reflexivity.
Qed.

Lemma out_of_turn_calls_change_nothing_witness :
  (exists m, playCard "b" (Some 0) None greenTable = Returns (Failure m) greenTable)
  /\ (exists m, drawCard "b" 1000 greenTable = Returns (Failure m) greenTable)
  /\ (exists m, endTurn "b" greenTable = Returns (Failure m) greenTable)
  /\ (exists m, callUno "b" greenTable = Returns (Failure m) greenTable).
Proof.
  apply (out_of_turn_calls_change_nothing "b" (Some 0) None 1000 greenTable).
  intros i p H. vm_compute in H. injection H as <- _. discriminate.
Defined.

(** ** Leaving and coming back *)

Lemma list_find_alter_at {A} (P : A -> Prop) `{!forall x, Decision (P x)}
    (f : A -> A) (i : nat) (l : list A) (x : A) :
  l !! i = Some x -> P (f x) ->
  Forall (fun y => ~ P y) (take i l) ->
  list_find P (alter f i l) = Some (i, f x).
Proof.
  intros Hi HP Hbefore. apply list_find_Some.
  split; [by rewrite list_lookup_alter_eq, Hi|]. split; [done|].
  intros j y Hj Hji. rewrite list_lookup_alter_ne in Hj by lia.
  rewrite Forall_lookup in Hbefore. apply (Hbefore j).
  by rewrite lookup_take_lt.
Qed.

Lemma filter_nonempty {A} (P : A -> Prop) `{!forall x, Decision (P x)}
    (l : list A) (i : nat) (x : A) :
  l !! i = Some x -> P x -> (0 < length (filter P l))%nat.
Proof.
  intros Hi HP.
  assert (Hin : x ∈ filter P l).
  { apply list_elem_of_filter. split; [done|]. by eapply list_elem_of_lookup_2. }
  destruct (filter P l); [by apply elem_of_nil in Hin|cbn; lia].
Qed.

(** X19: a seat that disconnects and then reconnects.  In a game that is
    not finished [handlePlayerDisconnect] marks the seat of [pid] and
    touches nothing else, the timer included.  When no seat before it
    answers to the name given, [handlePlayerReconnect] with the old id
    then finds the same seat and gives it back: the seat gets the new
    id, is connected again, and keeps its hand, its wallet and its
    name (without the disconnect marker; the name given is used only if
    that leaves nothing).  Everything else in the game is as before the
    disconnect, and the timer starts afresh exactly when the game is in
    play and no deadline was armed. *)
Theorem disconnect_then_reconnect (pid new nm : string) (now : Z) (g : Game)
    (i : nat) (p : Player) :
  let gs := gameState g in
  let base := removeFirst disconnectedSuffix (name p) in
  let seat := restoreSeat new nm (markDisconnected p) in
  let back :=
    g |> set_gameState
           (gs |> set_players (alter (fun _ => seat) i (players gs))) in
  status gs <> finished ->
  findPlayer pid gs = Some (i, p) ->
  Forall (fun q => reconnectName q <> nm) (take i (players gs)) ->
  exists g1,
    handlePlayerDisconnect pid g
    = Returns (DisconnectInfo i (base +:+ disconnectedSuffix)) g1
    /\ g1 = g |> set_gameState
                   (gs |> set_players (alter markDisconnected i (players gs)))
    /\ handlePlayerReconnect pid new nm now g1
       = Returns (ReconnectInfo i (name seat))
                 (if paused g then startTurnTimer now back else back)
    /\ id seat = new /\ socketId seat = new /\ disconnected seat = false
    /\ hand seat = hand p /\ wallet seat = wallet p /\ hasUno seat = hasUno p
    /\ name seat = (if bool_decide (base = ""%string) then nm else base).
Proof.
  intros gs base seat back Hfin Hfind Hnames.
  pose proof (findPlayer_lookup _ _ _ _ Hfind) as [Hp Hid].
  exists (g |> set_gameState
                 (gs |> set_players (alter markDisconnected i (players gs)))).
  split.
  { unfold handlePlayerDisconnect. fold gs. rewrite Hfind.
    rewrite bool_decide_eq_false_2 by done. cbv zeta.
    rewrite (alter_at _ markDisconnected i (players gs) p Hp) by done.
    reflexivity. }
  split; [done|]. split.
  - unfold handlePlayerReconnect. fields. fold gs.
    assert (Hfind1 :
      list_find
        (fun q => id q = pid
                  ∨ (if truthy (originalName q)
                     then default ""%string (originalName q)
                     else removeFirst disconnectedSuffix (name q)) = nm)
        (alter markDisconnected i (players gs))
      = Some (i, markDisconnected p)).
    { apply list_find_alter_at; [done|by left|].
      unfold findPlayer in Hfind.
      apply list_find_Some in Hfind as (_ & _ & Hlt).
      apply Forall_lookup. intros j q Hj.
      assert (Hji : (j < i)%nat).
      { apply lookup_lt_Some in Hj. rewrite length_take in Hj. lia. }
      rewrite lookup_take_lt in Hj by done.
      rewrite Forall_lookup in Hnames.
      specialize (Hnames j q). rewrite lookup_take_lt in Hnames by done.
      specialize (Hnames Hj). intros [Hq | Hq]; [by eapply Hlt|].
      by apply Hnames. }
    rewrite Hfind1. clear Hfind1. fields.
    rewrite list_alter_alter_eq.
    set (players' := alter _ i (players gs)).
    assert (Hback : players' = alter (fun _ => seat) i (players gs)).
    { unfold players'. apply (alter_at _ _ _ _ p); [done|].
      unfold seat, restoreSeat, markDisconnected. cbn.
      by case_match. }
    assert (Hseat : players' !! i = Some seat).
    { by rewrite Hback, list_lookup_alter_eq, Hp. }
    rewrite (bool_decide_eq_true_2 (0 < _)%nat).
    2: { apply (filter_nonempty _ _ i seat); [done|].
         unfold seat, restoreSeat. by case_match. }
    rewrite Hseat. cbn [from_option andb]. unfold paused, back.
    rewrite <- Hback. fold gs. reflexivity.
  - unfold seat, restoreSeat, markDisconnected, truthy. fields. cbn.
    fold base. case_bool_decide; cbn; done.
Qed.

Lemma disconnect_then_reconnect_witness :
  exists g1,
    handlePlayerDisconnect "b" greenTable
    = Returns (DisconnectInfo 1 "b (Disconnected)") g1
    /\ handlePlayerReconnect "b" "b2" "b" 0 g1
       = Returns (ReconnectInfo 1 "b")
           (startTurnTimer 0
              (greenTable
                 |> set_gameState
                      (gameState greenTable
                         |> set_players
                              (alter (set_socketId "b2" ∘ set_id "b2") 1%nat
                                     (players (gameState greenTable)))))).
Proof.
  destruct (disconnect_then_reconnect "b" "b2" "b" 0 greenTable 1
              (seatOf "b" [Some (mkCard blue V7); Some (mkCard blue V8)]))
    as (g1 & H1 & _ & H2 & _).
  - vm_compute. discriminate.
  - vm_compute. reflexivity.
  - repeat constructor. vm_compute. discriminate.
  - exists g1. split; [exact H1|]. rewrite H2. vm_compute. reflexivity.
Defined.

(** ** The opening *)

Lemma drawFirstCard_returns g c gs1 r1 :
  popDeck (gameState g) (random g) = (Some c, gs1, r1) ->
  exists g', drawFirstCard g = Returns tt g'.
Proof.
  intros Hpop. unfold drawFirstCard. rewrite Hpop.
  destruct (bool_decide (color c = wild)); [|by eexists].
  destruct (randomBelow 4 r1). by eexists.
Qed.

Lemma drawFirstCard_throws g gs1 r1 :
  popDeck (gameState g) (random g) = (None, gs1, r1) ->
  exists g', drawFirstCard g = Throws g'.
Proof. intros Hpop. unfold drawFirstCard. rewrite Hpop. by eexists. Qed.

Lemma dealt_deck ids names wallets sh :
  length sh = 108%nat ->
  length (deck (dealCards (undealt ids names wallets sh)))
  = (108 - 7 * length ids)%nat
  /\ discardPile (dealCards (undealt ids names wallets sh)) = []
  /\ currentPlayerIndex (dealCards (undealt ids names wallets sh)) = 0
  /\ direction (dealCards (undealt ids names wallets sh)) = 1
  /\ length (players (dealCards (undealt ids names wallets sh))) = length ids.
Proof.
  intros Hsh.
  pose proof (dealCards_deck_length (undealt ids names wallets sh)) as Hlen.
  destruct (undealt_players ids names wallets sh) as (Hn & _ & _).
  pose proof (dealCards_drawnFrom (undealt ids names wallets sh)) as Hd.
  pose proof (drawnFrom_length _ _ Hd) as Hn'.
  destruct Hd as (_ & _ & Hc & Hdir & _ & _ & _ & _ & _ & _ & Hlast).
  cbn [discardPile undealt last currentPlayerIndex direction] in Hlast, Hc, Hdir.
  apply last_None in Hlast.
  rewrite Hn in Hlen. cbn [deck undealt] in Hlen. rewrite Hsh in Hlen.
  repeat split; try done. congruence.
Qed.

(** X20: the opening of a fresh game.  With at most fifteen seats
    [drawFirstCard] returns: it takes the last card of the dealt deck,
    gives a wild card one of the four colours, puts the card on the
    empty discard pile as the top card and its colour in play, sets the
    game playing, leaves the dealt hands as they are and schedules the
    first timer start after 5000 ms without arming a deadline.  A skip,
    and with two seats a reverse, passes over seat 0; a reverse at any
    other table turns the direction; a draw-two or a wild-draw-four
    makes nobody draw.  With sixteen seats or more the deal has used up
    the deck and [drawFirstCard] raises. *)
Theorem drawFirstCard_opens (ids names wallets : list string) (r : Random) :
  let g0 := newGame ids names wallets r in
  let n := length ids in
  ((7 * n < 108)%nat ->
   exists g c top,
     drawFirstCard g0 = Returns tt g
     /\ deck (gameState g0) = deck (gameState g) ++ [c]
     /\ value top = value c /\ color top <> wild
     /\ (color c <> wild -> top = c)
     /\ discardPile (gameState g) = [top]
     /\ topCard (gameState g) = Some top
     /\ currentColor (gameState g) = Some (color top)
     /\ status (gameState g) = playing
     /\ players (gameState g) = players (gameState g0)
     /\ ((0 < n)%nat ->
         currentPlayerIndex (gameState g)
         = if bool_decide (value top = skip)
              || bool_decide (value top = reverse) && bool_decide (n = 2%nat)
           then (if bool_decide (n = 1%nat) then 0 else 1)
           else 0)
     /\ direction (gameState g)
        = (if bool_decide (value top = reverse)
              && negb (bool_decide (n = 2%nat))
           then -1 else 1)
     /\ turnTimer g = None /\ turnExpiresAt g = None
     /\ deferred g = [dealingAnimationDelay])
  /\ ((108 <= 7 * n)%nat -> exists g, drawFirstCard g0 = Throws g).
Proof.
  intros g0 n.
  destruct (newGame_undealt ids names wallets r) as (sh & r' & _ & Hsh & Hnew).
  subst g0. rewrite Hnew. clear Hnew.
  destruct (dealt_deck ids names wallets sh Hsh) as (Hlen & Hdisc & Hc & Hdir & Hn).
  fold n in Hlen, Hn.
  set (gsD := dealCards (undealt ids names wallets sh)) in *.
  clearbody gsD. clear Hsh.
  split.
  - intros Hfit.
    destruct (popDeck_nonempty gsD r') as (c & rest & Hdeck & Hpop); [lia|].
    destruct (drawFirstCard_returns (mkGame gsD None None None [] r') c
                (set_deck rest gsD) r' Hpop) as [g Hret].
    exists g, c.
    destruct (drawFirstCard_shape _ _ Hret)
      as (c0 & gs1 & r1 & top & r2 & Hpop0 & Hv & Hcol & Hsame & ->).
    fields in Hpop0. rewrite Hpop in Hpop0.
    assert (c0 = c /\ gs1 = set_deck rest gsD) as [-> ->]
      by (split; congruence).
    exists top. split; [exact Hret|]. clear Hpop0 Hret Hpop.
    unfold openingMove, playerCount. fields.
    rewrite Hc, Hdir, Hn, Hdisc.
    assert (Hcases :
              (value top = skip \/ value top <> skip)
              /\ (value top = reverse \/ value top <> reverse)
              /\ (n = 2%nat \/ n <> 2%nat) /\ (n = 1%nat \/ n <> 1%nat)).
    { repeat split; apply dec_stable; tauto. }
    destruct Hcases as (Hskip & Hrev & Hn2 & Hn1).
    destruct Hskip as [Hskip | Hskip];
      [rewrite !(bool_decide_eq_true_2 _ Hskip)
      |rewrite !(bool_decide_eq_false_2 _ Hskip)];
      (destruct Hrev as [Hrev | Hrev];
       [rewrite !(bool_decide_eq_true_2 _ Hrev)
       |rewrite ?(bool_decide_eq_false_2 _ Hrev)]);
      (destruct Hn2 as [Hn2 | Hn2];
       [rewrite !(bool_decide_eq_true_2 _ Hn2)
       |rewrite ?(bool_decide_eq_false_2 _ Hn2)]);
      (destruct Hn1 as [Hn1 | Hn1];
       [rewrite ?(bool_decide_eq_true_2 _ Hn1)
       |rewrite ?(bool_decide_eq_false_2 _ Hn1)]);
      cbn [orb andb negb]; fields; try congruence; try lia;
      repeat match goal with |- _ /\ _ => split end; try done;
      try (by intros Hw; apply Hsame);
      intros Hpos; unfold js_rem;
      rewrite ?Hn1, ?Hn2; try done; rewrite Z.rem_small by lia; done.
  - intros Hover.
    apply (drawFirstCard_throws _ gsD r'). fields.
    apply popDeck_exhausted; [|rewrite Hdisc; cbn; lia].
    apply length_zero_iff_nil. lia.
Qed.

(** ** Passing the turn *)

Lemma passed_turn (gs : GameState) (g' : Game) (dfr : list Z) (r : Random) :
  0 <= currentPlayerIndex gs < playerCount gs ->
  direction gs = 1 \/ direction gs = -1 ->
  g' = mkGame (nextTurn gs) None None None dfr r ->
  handsOf (gameState g') = handsOf gs
  /\ deck (gameState g') = deck gs
  /\ discardPile (gameState g') = discardPile gs
  /\ topCard (gameState g') = topCard gs
  /\ currentColor (gameState g') = currentColor gs
  /\ direction (gameState g') = direction gs
  /\ currentPlayerIndex (gameState g')
     = seatAt (playerCount gs) (direction gs) (currentPlayerIndex gs) 1
  /\ idleTurn (gameState g')
  /\ turnTimer g' = None /\ turnExpiresAt g' = None
  /\ deferred g' = dfr.
Proof.
  intros Hc Hd ->. fields.
  destruct (nextTurn_fields gs) as (Htop & Hdk & Hdc & Hdir & _ & _ & Hco & _).
  split; [apply handsOf_nextTurn|]. repeat (split; [done|]).
  split; [|split; [apply nextTurn_idle|done]].
  apply (nextTurn_index gs Hc Hd 0 (currentPlayerIndex gs) Hc).
  by rewrite seatAt_0.
Qed.



(** X22: [endTurn] by the active seat of a game in play succeeds exactly
    when the seat has drawn a playable card and not yet decided.  It
    then passes the turn to the next seat: the card drawn stays in the
    hand, no hand, deck, discard pile, top card, colour or direction
    changes, the timer is cleared and a re-arm is pending after 1200 ms.
    Otherwise it is refused and changes nothing. *)
Theorem endTurn_spec (pid : string) (g : Game) (i : nat) (p : Player) :
  let gs := gameState g in
  status gs = playing -> direction gs = 1 \/ direction gs = -1 ->
  findPlayer pid gs = Some (i, p) -> Z.of_nat i = currentPlayerIndex gs ->
  if hasDrawnPlayableCard gs then
    exists snap g',
      endTurn pid g = Returns (Success "Turn ended" snap) g'
      /\ handsOf (gameState g') = handsOf gs
      /\ deck (gameState g') = deck gs
      /\ discardPile (gameState g') = discardPile gs
      /\ topCard (gameState g') = topCard gs
      /\ currentColor (gameState g') = currentColor gs
      /\ direction (gameState g') = direction gs
      /\ currentPlayerIndex (gameState g')
         = seatAt (playerCount gs) (direction gs) (currentPlayerIndex gs) 1
      /\ idleTurn (gameState g')
      /\ turnTimer g' = None /\ turnExpiresAt g' = None
      /\ deferred g' = deferred g ++ [ANIMATION_DURATION]
  else
    endTurn pid g
    = Returns (Failure "You can only end your turn after drawing a playable card") g.
Proof.
  intros gs Hst Hd Hfind Hcur.
  pose proof (findPlayer_lookup _ _ _ _ Hfind) as [Hp _].
  assert (Hc : 0 <= currentPlayerIndex gs < playerCount gs).
  { apply lookup_lt_Some in Hp. unfold playerCount. rewrite <- Hcur. lia. }
  unfold endTurn. fold gs. rewrite Hfind.
  rewrite bool_decide_eq_false_2 by (by rewrite Hst; intros Hn; apply Hn).
  rewrite bool_decide_eq_false_2 by (by intros Hn; apply Hn).
  destruct (hasDrawnPlayableCard gs) eqn:Hdr; cbn [negb]; [|done].
  eexists _, _. split; [reflexivity|].
  pose proof (passed_turn (set_hasDrawnPlayableCard false gs)
                (mkGame (nextTurn (set_hasDrawnPlayableCard false gs))
                        None None None
                        (deferred g ++ [ANIMATION_DURATION]) (random g))
                (deferred g ++ [ANIMATION_DURATION]) (random g)) as Hpass.
  unfold playerCount, handsOf in Hpass. fields in Hpass.
  unfold defer. fields. apply Hpass; done.
Qed.

Lemma endTurn_spec_witness :
  exists snap g',
    endTurn "b" decidingTable = Returns (Success "Turn ended" snap) g'
    /\ handsOf (gameState g') = handsOf (gameState decidingTable)
    /\ currentPlayerIndex (gameState g') = 0.
Proof.
  pose proof (endTurn_spec "b" decidingTable 1
                (seatOf "b" [Some (mkCard blue V7); Some (mkCard blue V8);
                             Some (mkCard green V6)]))
    as H.
  cbv zeta in H.
  assert (Hdr : hasDrawnPlayableCard (gameState decidingTable) = true)
    by (vm_compute; reflexivity).
  rewrite Hdr in H.
  destruct H as (snap & g' & Hcall & Hh & _ & _ & _ & _ & _ & Hc & _).
  - vm_compute. reflexivity.
  - left. vm_compute. reflexivity.
  - vm_compute. reflexivity.
  - vm_compute. reflexivity.
  - exists snap, g'. split; [exact Hcall|]. split; [exact Hh|].
    rewrite Hc. vm_compute. reflexivity.
Defined.

(** ** A round of turns *)

(** X23: [k] turn advances in a row move the turn [k] seats on in the
    direction of play and leave the direction and the seats' hands
    alone; within a round every advance lands on a seat other than the
    one it started from, and a full round of as many advances as there
    are seats brings the turn back to it, in either direction. *)
Theorem nextTurn_rounds (gs : GameState) (k : nat) :
  let n := playerCount gs in
  let d := direction gs in
  let cur := currentPlayerIndex gs in
  0 <= cur < n -> d = 1 \/ d = -1 ->
  currentPlayerIndex (Nat.iter k nextTurn gs) = seatAt n d cur (Z.of_nat k)
  /\ 0 <= currentPlayerIndex (Nat.iter k nextTurn gs) < n
  /\ direction (Nat.iter k nextTurn gs) = d
  /\ handsOf (Nat.iter k nextTurn gs) = handsOf gs
  /\ (0 < Z.of_nat k < n -> currentPlayerIndex (Nat.iter k nextTurn gs) <> cur)
  /\ (Z.of_nat k = n -> currentPlayerIndex (Nat.iter k nextTurn gs) = cur).
Proof.
  intros n d cur Hc Hd.
  assert (H : currentPlayerIndex (Nat.iter k nextTurn gs)
              = seatAt n d cur (Z.of_nat k)
              /\ playerCount (Nat.iter k nextTurn gs) = n
              /\ direction (Nat.iter k nextTurn gs) = d
              /\ handsOf (Nat.iter k nextTurn gs) = handsOf gs).
  { induction k as [|k (IH1 & IH2 & IH3 & IH4)].
    - cbn. split; [|done]. by rewrite seatAt_0.
    - rewrite Nat.iter_succ.
      destruct (nextTurn_fields (Nat.iter k nextTurn gs))
        as (_ & _ & _ & Hdir & _ & _ & _ & _ & _ & _ & Hidx).
      split.
      { rewrite Hidx, IH1, IH2, IH3. rewrite Nat2Z.inj_succ.
        apply seatAt_step; [lia|done]. }
      split.
      { unfold playerCount in *. by rewrite nextTurn_players_length. }
      split; [congruence|]. by rewrite handsOf_nextTurn. }
  destruct H as (H1 & H2 & H3 & H4).
  split; [done|]. split; [rewrite H1; apply seatAt_range; lia|].
  split; [done|]. split; [done|]. split.
  - intros Hk. rewrite H1. by apply seatAt_ne_orig.
  - intros Hk. rewrite H1, Hk. by apply seatAt_n.
Qed.

Lemma nextTurn_rounds_witness :
  currentPlayerIndex (Nat.iter 3 nextTurn (gameState threeSeatTable)) = 0
  /\ currentPlayerIndex (Nat.iter 2 nextTurn (gameState threeSeatTable)) <> 0.
Proof.
  split.
  - apply (nextTurn_rounds (gameState threeSeatTable) 3);
      [vm_compute; split; [discriminate|reflexivity]|by left|reflexivity].
  - apply (nextTurn_rounds (gameState threeSeatTable) 2);
      [vm_compute; split; [discriminate|reflexivity]|by left
      |vm_compute; split; reflexivity].
Defined.

(** ** When a play is accepted *)

Lemma drawForNext_seated k g :
  0 <= currentPlayerIndex (gameState g) < playerCount (gameState g) ->
  exists g', drawForNext k g = Returns tt g'.
Proof.
  intros Hc. unfold drawForNext. destruct k as [|k]; [by eexists|].
  destruct (playerAt_in_range _ _ Hc) as [q ->].
  destruct (Nat.iter (S k) _ _) as [gs r]. by eexists.
Qed.

Lemma playCard_accepts pid idx ch g i p card :
  wellSeated (gameState g) ->
  status (gameState g) = playing ->
  findPlayer pid (gameState g) = Some (i, p) ->
  Z.of_nat i = currentPlayerIndex (gameState g) ->
  waitingForUno (gameState g) = false ->
  hasPlayedCardThisTurn (gameState g) = false ->
  0 <= idx -> hand p !! Z.to_nat idx = Some (Some card) ->
  canPlayCard (Some card) (topCard (gameState g))
              (currentColor (gameState g)) (Some (hand p)) = Some true ->
  exists m snap g', playCard pid (Some idx) ch g = Returns (Success m snap) g'.
Proof.
  intros Hseat Hst Hfind Hcur Hw Hpl Hidx Hcard Hcan.
  unfold playCard. rewrite Hfind, Hw, Hpl.
  rewrite bool_decide_eq_false_2 by (by rewrite Hst; intros Hn; apply Hn).
  rewrite bool_decide_eq_false_2 by (by intros Hn; apply Hn).
  rewrite andb_false_r.
  rewrite (bool_decide_eq_false_2 (idx < 0)) by lia.
  apply lookup_lt_Some in Hcard as Hlt.
  rewrite bool_decide_eq_false_2 by lia. cbn [orb].
  rewrite Hcard. cbn [mjoin option_join option_bind mbind]. rewrite Hcan.
  case_bool_decide; [by eexists _, _, _|].
  destruct (_ && _ && _ && _); [by eexists _, _, _|].
  rewrite effect_tuple. fields.
  destruct (skipsNext _ _); cbn [negb]; [|by eexists _, _, _].
  match goal with
  | |- context [drawForNext ?k ?g0] =>
      destruct (drawForNext_seated k g0) as [g1 ->]
  end; [|by eexists _, _, _].
  fields.
  match goal with
  | |- context [nextTurn ?s] =>
      assert (Hn : wellSeated (nextTurn s)); [|by destruct Hn]
  end.
  apply nextTurn_wellSeated.
  match goal with
  | |- wellSeated (set_hasDrawnPlayableCard false (turned ?v ?s)) =>
      apply (wellSeated_frame (turned v s)); try done;
      apply turned_wellSeated
  end.
  eapply wellSeated_frame; [..|exact Hseat]; fields; try done.
  by rewrite length_alter.
Qed.

(** X24: in a state that the server reaches, [playCard] with a card
    index accepts the play exactly when the game is in play, the caller
    is the active seat, no declaration is pending, the index points at a
    card of its hand and [canPlayCard] allows that card on the top card
    and the colour in play.  An accepted play never raises. *)
Theorem playCard_accepted_iff (pid : string) (idx : Z) (ch : option string)
    (g : Game) :
  served g ->
  (exists m snap g', playCard pid (Some idx) ch g = Returns (Success m snap) g')
  <-> exists i p card,
        status (gameState g) = playing
        /\ findPlayer pid (gameState g) = Some (i, p)
        /\ Z.of_nat i = currentPlayerIndex (gameState g)
        /\ waitingForUno (gameState g) = false
        /\ 0 <= idx /\ hand p !! Z.to_nat idx = Some (Some card)
        /\ canPlayCard (Some card) (topCard (gameState g))
             (currentColor (gameState g)) (Some (hand p)) = Some true.
Proof.
  intros Hs. split.
  - intros (m & snap & g' & H). clear Hs.
    apply playCard_shape in H
      as [(msg & [=] & _) |
          (i & p & k & card & Hst & Hfind & Hcur & Hw & [= ->] & Hk & Hcan & _)].
    exists i, p, card. rewrite Nat2Z.id. repeat (split; [done|]).
    split; [lia|done].
  - intros (i & p & card & Hst & Hfind & Hcur & Hw & Hidx & Hcard & Hcan).
    pose proof (findPlayer_lookup _ _ _ _ Hfind) as [Hp _].
    assert (Hne : players (gameState g) <> [])
      by (by intros Hnil; rewrite Hnil in Hp).
    pose proof (served_wellSeated g Hs Hne) as Hseat.
    destruct (served_unoFlags g Hs) as (_ & _ & H3). clear Hs.
    eapply playCard_accepts; try done.
    destruct (hasPlayedCardThisTurn (gameState g)); [|done].
    specialize (H3 Hst eq_refl). congruence.
Qed.

Lemma playCard_accepted_iff_witness :
  exists m snap g',
    playCard "b" (Some 4) None idleGame = Returns (Success m snap) g'.
Proof.
  apply (playCard_accepted_iff "b" 4 None idleGame idleGame_served).
  exists 1%nat.
  exists (mkPlayer "b" "b"
            [Some (mkCard wild draw4); Some (mkCard wild draw4);
             Some (mkCard wild draw4); Some (mkCard wild draw4);
             Some (mkCard yellow draw2); Some (mkCard yellow reverse);
             Some (mkCard yellow skip)] "B" None false None false).
  exists (mkCard yellow draw2).
  split; [vm_compute; reflexivity|]. split; [vm_compute; reflexivity|].
  split; [vm_compute; reflexivity|]. split; [vm_compute; reflexivity|].
  split; [vm_compute; discriminate|]. split; vm_compute; reflexivity.
Defined.

(** ** Taking a card from the deck *)

(** X25: the step [if (deck.length === 0) reshuffleDeck(gameState);
    deck.pop()] that precedes every draw.  From a deck that is not
    empty it takes the last card and leaves the discard pile and the
    random source alone.  From an empty deck with at least two discards
    it keeps the top card as the only discard and takes a card of the
    reshuffled others: the new deck, the card taken and the top card are
    together a rearrangement of the old discard pile.  From an empty
    deck with at most one discard it yields [undefined] and changes
    nothing.  In each case only the deck and the discard pile change. *)
Theorem popDeck_spec (gs : GameState) (r : Random) :
  let c := (popDeck gs r).1.1 in
  let gs' := (popDeck gs r).1.2 in
  let r' := (popDeck gs r).2 in
  (deck gs <> [] ->
   exists card, c = Some card /\ deck gs = deck gs' ++ [card]
                /\ discardPile gs' = discardPile gs /\ r' = r)
  /\ (deck gs = [] -> (1 < length (discardPile gs))%nat ->
      exists card top,
        c = Some card /\ last (discardPile gs) = Some top
        /\ discardPile gs' = [top]
        /\ deck gs' ++ [card; top] ≡ₚ discardPile gs)
  /\ (deck gs = [] -> (length (discardPile gs) <= 1)%nat ->
      c = None /\ gs' = gs /\ r' = r)
  /\ gs' = gs |> set_deck (deck gs') |> set_discardPile (discardPile gs').
Proof.
  cbv zeta. split; [|split; [|split]].
  - intros Hne.
    destruct (popDeck_nonempty gs r) as (card & rest & Hd & ->).
    { destruct (deck gs); [done|cbn; lia]. }
    by exists card.
  - intros Hd Hlen. unfold popDeck. rewrite Hd. cbn [length].
    rewrite bool_decide_eq_true_2 by done.
    destruct (reshuffleDeck_cases gs r)
      as [[Hle _] | (rest & top & sh & Hdisc & Hrest & Hperm & H1 & H2)];
      [lia|].
    destruct (reshuffleDeck gs r) as [gs1 r1]. cbn [fst snd] in H1, H2.
    subst gs1. fields.
    destruct (pop_nonempty sh) as (card & sh' & Hsh & ->).
    { rewrite Hperm. destruct rest; [done|cbn; lia]. }
    cbn [fst snd]. fields. exists card, top.
    split; [done|]. split; [by rewrite Hdisc, last_snoc|]. split; [done|].
    rewrite Hdisc, <- Hperm, Hsh. by rewrite <- app_assoc.
  - intros Hd Hlen. by rewrite popDeck_exhausted.
  - unfold popDeck. case_bool_decide.
    + destruct (reshuffleDeck_cases gs r)
        as [[_ ->] | (rest & top & sh & _ & _ & _ & H1 & _)].
      * destruct (pop (deck gs)). cbn. by destruct gs.
      * destruct (reshuffleDeck gs r) as [gs1 r1]. cbn [fst] in H1. subst gs1.
        fields. destruct (pop sh). by cbn.
    + destruct (pop (deck gs)). cbn. by destruct gs.
Qed.

(** ** Drawing from an exhausted deck *)

(** X26: when the active seat has to draw (it holds no playable card)
    and neither the deck nor the discard pile can supply a card, the
    deck being empty and the discard pile holding at most its top card,
    [drawCard] raises: it has by then cleared the timer and pushed
    [undefined] onto the hand, and [canPlayCard] fails on it. *)
Theorem drawCard_on_exhausted_deck_raises (pid : string) (now : Z) (g : Game)
    (i : nat) (p : Player) :
  let gs := gameState g in
  status gs = playing ->
  findPlayer pid gs = Some (i, p) -> Z.of_nat i = currentPlayerIndex gs ->
  waitingForUno gs = false -> hasDrawnPlayableCard gs = false ->
  hasPlayableCard (hand p) (topCard gs) (currentColor gs) = Some false ->
  deck gs = [] -> (length (discardPile gs) <= 1)%nat ->
  exists g',
    drawCard pid now g = Throws g'
    /\ handsOf (gameState g') = alter (fun h => h ++ [None]) i (handsOf gs)
    /\ turnTimer g' = None /\ turnExpiresAt g' = None.
Proof.
  intros gs Hst Hfind Hcur Hw Hdr Hplay Hdeck Hdisc.
  unfold drawCard. fold gs. rewrite Hfind, Hw, Hdr, Hplay.
  rewrite bool_decide_eq_false_2 by (by rewrite Hst; intros Hn; apply Hn).
  rewrite bool_decide_eq_false_2 by (by intros Hn; apply Hn).
  fields. fold gs. rewrite popDeck_exhausted by done.
  cbn [canPlayCard mbind option_bind]. eexists. split; [reflexivity|].
  fields. split; [|done].
  case_bool_decide; rewrite ?handsOf_clearUno, handsOf_pushHand by lia;
    by rewrite Nat2Z.id.
Qed.

Lemma drawCard_on_exhausted_deck_raises_witness :
  exists g', drawCard "a" 1000 exhaustedTable = Throws g'
             /\ handsOf (gameState g')
                = [[Some (mkCard red V5); None];
                   [Some (mkCard blue V7); Some (mkCard blue V8)]].
Proof.
  destruct (drawCard_on_exhausted_deck_raises "a" 1000 exhaustedTable 0
              (seatOf "a" [Some (mkCard red V5)]))
    as (g' & H & Hh & _); try reflexivity.
  exists g'. split; [exact H|]. rewrite Hh. reflexivity.
Defined.

(** ** What the clients are sent *)

(** X27: [broadcastGameState] sends one update per seat, in seat order,
    to the id of that seat.  The update lists every seat with its id
    and the true size of its hand and gives the size of the deck, never
    its cards.  It shows the hand of every seat that has the id of the
    recipient, and for a recipient whose id is not empty it shows no
    card of any other seat; a recipient with the empty id is shown
    every hand. *)
Theorem broadcastGameState_private (g : Game) :
  length (broadcastGameState g) = length (players (gameState g))
  /\ forall k p,
       players (gameState g) !! k = Some p ->
       exists snap,
         broadcastGameState g !! k = Some (id p, snap)
         /\ Snapshot.deckCount snap = length (deck (gameState g))
         /\ length (Snapshot.players snap) = length (players (gameState g))
         /\ forall j q,
              players (gameState g) !! j = Some q ->
              exists v,
                Snapshot.players snap !! j = Some v
                /\ Snapshot.id v = id q
                /\ Snapshot.handSize v = length (hand q)
                /\ (id q = id p -> Snapshot.hand v = hand q)
                /\ (id q <> id p -> id p <> ""%string -> Snapshot.hand v = [])
                /\ (id p = ""%string -> Snapshot.hand v = hand q).
Proof.
  unfold broadcastGameState, getFullState. split; [by rewrite length_fmap|].
  intros k p Hk. eexists. split; [by rewrite list_lookup_fmap, Hk|].
  unfold getPublicState. cbn [Snapshot.deckCount Snapshot.players].
  split; [done|]. split; [by rewrite length_fmap|].
  intros j q Hj. eexists. split; [by rewrite list_lookup_fmap, Hj|].
  cbn [truthy fmap option_fmap option_map].
  destruct (decide (id p = ""%string)) as [He|He].
  - rewrite (bool_decide_eq_true_2 _ He). cbn [negb andb].
    by repeat split.
  - rewrite (bool_decide_eq_false_2 _ He). cbn [negb andb].
    case_bool_decide as Hne; cbn.
    + repeat split; try done. intros Heq. destruct Hne. by rewrite Heq.
    + repeat split; try done. intros Hq. by simplify_eq.
Qed.

(** ** The timeout penalty and the deck *)

Lemma popDeck_supply gs r :
  drewCards gs (popDeck gs r).1.2 [(popDeck gs r).1.1].
Proof.
  unfold drewCards, supply. cbn [length omap].
  destruct (decide (deck gs = [])) as [Hd|Hd].
  - destruct (decide (length (discardPile gs) <= 1)%nat) as [Hlen|Hlen].
    + rewrite popDeck_exhausted by done. cbn [fst snd]. rewrite Hd.
      cbn [length option_bind mbind app]. split.
      { cbn. by rewrite app_nil_r. }
      split; intros ?; lia.
    + unfold popDeck. rewrite Hd. cbn [length].
      rewrite bool_decide_eq_true_2 by done.
      destruct (reshuffleDeck_cases gs r)
        as [[Hle _] | (rest & top & sh & Hdisc & Hrest & Hperm & H1 & H2)];
        [lia|].
      destruct (reshuffleDeck gs r) as [gs1 r1]. cbn [fst snd] in H1, H2.
      subst gs1. fields.
      destruct (pop_nonempty sh) as (card & sh' & Hsh & ->).
      { rewrite Hperm. destruct rest; [done|cbn; lia]. }
      cbn [fst snd]. fields. rewrite Hdisc, length_app. cbn [length app].
      assert (Hl : length rest = S (length sh')).
      { rewrite <- Hperm, Hsh, length_app. cbn. lia. }
      split.
      { cbn. rewrite <- Hperm, Hsh, <- !app_assoc. cbn.
        apply Permutation_app_head. apply perm_swap. }
      split; [intros _; split; [by repeat constructor|lia]|lia].
  - destruct (popDeck_nonempty gs r) as (card & rest & Hdk & ->).
    { destruct (deck gs); [done|cbn; lia]. }
    cbn [fst snd]. fields. rewrite Hdk, length_app. cbn [length].
    split.
    { cbn. rewrite <- !app_assoc. apply Permutation_app_head.
      apply Permutation_app_comm. }
    split; [intros _; split; [by repeat constructor|lia]|].
    intros _. by exists [card].
Qed.

Lemma drewCards_nil gs : drewCards gs gs [].
Proof.
  unfold drewCards. cbn. rewrite app_nil_r. split; [done|].
  split; [intros _; split; [done|lia]|]. intros _. exists []. cbn.
  by rewrite app_nil_r.
Qed.

Lemma drewCards_frame gs gs1 gs2 ext :
  deck gs2 = deck gs1 -> discardPile gs2 = discardPile gs1 ->
  drewCards gs gs1 ext -> drewCards gs gs2 ext.
Proof. unfold drewCards, supply. by intros -> ->. Qed.

Lemma drewCards_snoc gs gs1 gs2 ext c :
  drewCards gs gs1 ext -> drewCards gs1 gs2 [c] ->
  drewCards gs gs2 (ext ++ [c]).
Proof.
  intros (Hp1 & Hs1 & Hd1) (Hp2 & Hs2 & Hd2).
  cbn [length] in Hs2, Hd2. split; [|split].
  - rewrite omap_app, Hp1.
    rewrite (app_assoc (deck gs1)), Hp2, <- !app_assoc.
    do 2 apply Permutation_app_head. apply Permutation_app_comm.
  - rewrite length_app. cbn [length]. intros Hlen.
    destruct Hs1 as [Hall Hsup]; [lia|].
    destruct Hs2 as [Hc Hsup2]; [lia|].
    split; [by apply Forall_app|lia].
  - rewrite length_app. cbn [length]. intros Hlen.
    destruct Hd1 as (cards & -> & Hdk & Hdisc); [lia|].
    rewrite length_fmap in Hlen.
    assert (Hl1 : length (deck gs) = (length (deck gs1) + length cards)%nat)
      by (by rewrite Hdk, length_app, length_rev).
    destruct Hd2 as (cs & Hcs & Hdk2 & Hdisc2); [lia|].
    destruct cs as [|card [|? ?]]; try done. cbn in Hcs. simplify_eq.
    exists (cards ++ [card]). rewrite fmap_app. split; [done|].
    split; [|congruence].
    rewrite Hdk, Hdk2, rev_app_distr, <- app_assoc. done.
Qed.

Lemma drawInto_draws i gs r p :
  playerAt gs i = Some p ->
  exists c,
    playerAt (drawInto i (gs, r)).1 i = Some (set_hand (hand p ++ [c]) p)
    /\ drewCards gs (drawInto i (gs, r)).1 [c].
Proof.
  intros Hp. pose proof (playerAt_nonneg _ _ _ Hp) as Hi.
  pose proof (popDeck_supply gs r) as Hdrew.
  unfold drawInto. cbn [fst snd].
  pose proof (popDeck_players gs r) as [Hpl _].
  destruct (popDeck gs r) as [[card gs1] r1]. cbn [fst snd] in *.
  exists card. split.
  - unfold pushHand. rewrite bool_decide_eq_false_2 by lia.
    apply (playerAt_alter (fun p => set_hand (hand p ++ [card]) p)); [done|].
    unfold playerAt in *. by rewrite Hpl.
  - eapply drewCards_frame; [..|exact Hdrew];
      unfold pushHand; by case_bool_decide.
Qed.

Lemma timeoutPenalty_draws i p gs r :
  playerAt gs i = Some p ->
  exists p1 ext,
    playerAt (timeoutPenalty i p gs r).1 i = Some p1
    /\ hand p1 = hand p ++ ext
    /\ length ext = (if declarationMissed gs p then 2
                     else if hasDrawnPlayableCard gs then 0 else 1)%nat
    /\ drewCards gs (timeoutPenalty i p gs r).1 ext.
Proof.
  intros Hp. unfold timeoutPenalty, declarationMissed.
  destruct (waitingForUno gs && _ && _).
  - destruct (drawInto_draws i gs r p Hp) as (c1 & H1 & D1).
    destruct (drawInto i (gs, r)) as [gs1 r1]. cbn [fst] in H1, D1.
    destruct (drawInto_draws i gs1 r1 _ H1) as (c2 & H2 & D2).
    destruct (drawInto i (gs1, r1)) as [gs2 r2]. cbn [fst] in H2, D2.
    cbn [fst]. eexists _, [c1; c2]. split.
    { rewrite playerAt_set_waitingForUno. by apply clearUno_playerAt. }
    split; [cbn; by rewrite <- app_assoc|]. split; [done|].
    apply (drewCards_frame gs gs2).
    { unfold clearUno. by case_bool_decide. }
    { unfold clearUno. by case_bool_decide. }
    by apply (drewCards_snoc gs gs1 gs2 [c1] c2).
  - destruct (hasDrawnPlayableCard gs).
    + cbn [fst]. exists p, []. rewrite playerAt_set_hasDrawnPlayableCard.
      split; [done|]. split; [by rewrite app_nil_r|]. split; [done|].
      apply (drewCards_frame gs gs); [done..|]. apply drewCards_nil.
    + destruct (drawInto_draws i gs r p Hp) as (c1 & H1 & D1).
      destruct (drawInto i (gs, r)) as [gs1 r1]. cbn [fst] in H1, D1.
      cbn [fst]. rewrite H1. fields. destruct (bool_decide (1 < _)%nat).
      * eexists _, [c1]. rewrite playerAt_set_waitingForUno.
        split; [by apply clearUno_playerAt|]. split; [done|]. split; [done|].
        apply (drewCards_frame gs gs1); [..|done];
          unfold clearUno; by case_bool_decide.
      * eexists _, [c1]. rewrite playerAt_set_waitingForUno.
        split; [done|]. split; [done|]. split; [done|].
        by apply (drewCards_frame gs gs1).
Qed.

Lemma handleTurnTimeout_draws now g p :
  let gs := gameState g in
  let orig := currentPlayerIndex gs in
  status gs = playing -> turnExpiresAt g <> None ->
  playerAt gs orig = Some p ->
  direction gs = 1 \/ direction gs = -1 ->
  exists g' p' ext,
    handleTurnTimeout now g = Returns tt g'
    /\ playerAt (gameState g') orig = Some p'
    /\ hand p' = hand p ++ ext
    /\ length ext = (if declarationMissed gs p then 2
                     else if hasDrawnPlayableCard gs then 0 else 1)%nat
    /\ waitingForUno (gameState g') = false
    /\ drewCards gs (gameState g') ext.
Proof.
  intros gs orig Hst Hexp Hp Hd.
  pose proof (beforeSkip_facts g p Hp Hd) as (_ & _ & _ & _ & _ & Hidle & _).
  assert (Hres : exists c,
             handleTurnTimeout now g
             = Returns tt (finalState (handleTurnTimeout now g))
             /\ gameState (finalState (handleTurnTimeout now g))
                = (beforeSkip g p).1 |> set_currentPlayerIndex c).
  { destruct (handleTurnTimeout_outcome now g p Hst Hexp Hp Hd)
      as [(k & _ & _ & _ & ->) | (_ & ->)]; eexists; by cbn. }
  destruct Hres as (c & Hret & Hgs).
  destruct (timeoutPenalty_draws orig p gs (random g) Hp)
    as (p1 & ext & Hp1 & Hhand & Hlen & Hdrew).
  exists (finalState (handleTurnTimeout now g)), (set_hasUno false p1), ext.
  split; [exact Hret|]. rewrite Hgs, playerAt_set_index.
  unfold beforeSkip in *. fold gs orig in Hidle |- *.
  destruct (timeoutPenalty orig p gs (random g)) as [gsP rP].
  cbn [fst] in *.
  split.
  { apply playerAt_nextTurn. by rewrite playerAt_set_hasDrawnPlayableCard. }
  split; [done|]. split; [done|].
  split; [by destruct Hidle as (_ & _ & ? & _)|].
  by apply (drewCards_frame gs gsP).
Qed.

(** C3: [handleTurnTimeout] draws its penalty without looking whether a
    card came.  A timeout that the guard does not ignore returns and
    appends to the hand of the seat that timed out exactly two entries
    when the seat was waiting to declare and had not declared (it then
    holds one card, as it does in every state the server reaches), the
    declaration requirement being cleared; else none when it had drawn
    a playable card; else exactly one.  The cards among the entries come
    from the deck and the discard pile: the two piles afterwards and
    these cards are a rearrangement of the two piles before.  All the
    entries are cards as long as the deck and the discards under the top
    card can supply them, and when the deck alone can, they are its last
    cards.  But in the game that the server reaches when nobody acts at
    a two-seat table for 93 turns the deck is empty and the discard pile
    holds the top card alone: the bare timeout of seat "a" then returns
    with [undefined] appended to its hand, which holds 53 cards before
    and 53 cards after; it has grown by no card. *)
Theorem handleTurnTimeout_penalty :
  (forall (now : Z) (g : Game) (p : Player),
      let gs := gameState g in
      let orig := currentPlayerIndex gs in
      status gs = playing -> turnExpiresAt g <> None ->
      playerAt gs orig = Some p ->
      direction gs = 1 \/ direction gs = -1 ->
      exists g' p' ext,
        handleTurnTimeout now g = Returns tt g'
        /\ playerAt (gameState g') orig = Some p'
        /\ hand p' = hand p ++ ext
        /\ waitingForUno (gameState g') = false
        /\ (waitingForUno gs = true -> hasUno p = false ->
            length (hand p) = 1%nat \/ served g ->
            length ext = 2%nat)
        /\ (declarationMissed gs p = false ->
            hasDrawnPlayableCard gs = true -> ext = [])
        /\ (declarationMissed gs p = false ->
            hasDrawnPlayableCard gs = false -> length ext = 1%nat)
        /\ deck gs ++ discardPile gs
           ≡ₚ deck (gameState g') ++ discardPile (gameState g')
              ++ omap (fun c => c) ext
        /\ ((length ext <= supply gs)%nat -> Forall is_Some ext)
        /\ ((length ext <= length (deck gs))%nat ->
            exists cards,
              ext = Some <$> cards
              /\ deck gs = deck (gameState g') ++ rev cards
              /\ discardPile (gameState g') = discardPile gs))
  /\ served exhaustedGame
  /\ status (gameState exhaustedGame) = playing
  /\ currentPlayerIndex (gameState exhaustedGame) = 0
  /\ turnExpiresAt exhaustedGame = Some 1415000
  /\ waitingForUno (gameState exhaustedGame) = false
  /\ hasDrawnPlayableCard (gameState exhaustedGame) = false
  /\ deck (gameState exhaustedGame) = []
  /\ length (discardPile (gameState exhaustedGame)) = 1%nat
  /\ handleTurnTimeout 1415000 exhaustedGame
     = Returns tt (finalState (handleTurnTimeout 1415000 exhaustedGame))
  /\ hand <$> playerAt (gameState (finalState
                          (handleTurnTimeout 1415000 exhaustedGame))) 0
     = (fun p => hand p ++ [None]) <$> playerAt (gameState exhaustedGame) 0
  /\ (fun p => (length (hand p), heldIn (hand p)))
       <$> playerAt (gameState exhaustedGame) 0
     = Some (53%nat, 53%nat)
  /\ (fun p => (length (hand p), heldIn (hand p)))
       <$> playerAt (gameState (finalState
                       (handleTurnTimeout 1415000 exhaustedGame))) 0
     = Some (54%nat, 53%nat)
  /\ deck (gameState (finalState (handleTurnTimeout 1415000 exhaustedGame)))
     = [].
Proof.
  split.
  - intros now g p gs orig Hst Hexp Hp Hd.
    destruct (handleTurnTimeout_draws now g p Hst Hexp Hp Hd)
      as (g' & p' & ext & Hret & Hp' & Hhand & Hlen & Hw & Hperm & Hsup & Hdk).
    fold gs orig in Hret, Hp', Hlen, Hperm, Hsup, Hdk.
    exists g', p', ext. repeat (split; [done|]).
    split.
    { intros Hwait Hu Hone.
      assert (Hone' : length (hand p) = 1%nat).
      { destruct Hone as [Hone | Hserved]; [done|].
        destruct (served_declaring g Hserved Hwait) as (q & Hq & Hone & _).
        fold gs orig in Hq. by simplify_eq. }
      unfold declarationMissed in Hlen.
      by rewrite Hwait, Hu, bool_decide_eq_true_2 in Hlen by done. }
    split.
    { intros Hmiss Hdrawn. rewrite Hmiss, Hdrawn in Hlen.
      by destruct ext. }
    split.
    { intros Hmiss Hdrawn. by rewrite Hmiss, Hdrawn in Hlen. }
    split; [done|]. split; [|done].
    intros Hle. by destruct (Hsup Hle).
  - split.
    { apply (expireAll_served 93 idleGame); [exact idleGame_served|].
      vm_compute. reflexivity. }
    repeat (split; [vm_compute; reflexivity|]). vm_compute. reflexivity.
Qed.

Lemma handleTurnTimeout_penalty_witness :
  exists g' p' ext,
    handleTurnTimeout 15000 unoTable = Returns tt g'
    /\ playerAt (gameState g') 0 = Some p'
    /\ hand p' = [Some (mkCard red V5)] ++ ext
    /\ length ext = 2%nat
    /\ exists cards,
         ext = Some <$> cards
         /\ [mkCard green V1; mkCard green V2; mkCard yellow V4]
            = deck (gameState g') ++ rev cards
         /\ discardPile (gameState g') = [mkCard red V9; mkCard red V7].
Proof.
  destruct (proj1 handleTurnTimeout_penalty 15000 unoTable
              (seatOf "a" [Some (mkCard red V5)]))
    as (g' & p' & ext & Hret & Hp' & Hhand & _ & H2 & _ & _ & _ & _ & Hdk).
  - reflexivity.
  - discriminate.
  - reflexivity.
  - by left.
  - specialize (H2 eq_refl eq_refl (or_introl eq_refl)).
    exists g', p', ext. split; [exact Hret|]. split; [exact Hp'|].
    split; [exact Hhand|]. split; [exact H2|].
    apply Hdk. rewrite H2. cbn. lia.
Defined.

(** ** What a turn advance leaves of a declaration *)

Lemma seatGrown_kept p p' :
  seatGrown p p' -> p' = p |> set_hand (hand p') |> set_hasUno (hasUno p').
Proof.
  intros (? & ? & ? & ? & ? & ? & _). destruct p, p'. cbn in *. by subst.
Qed.

Lemma undeclared_fmap l l' :
  Forall2 (fun p p' => p' = p |> set_hand (hand p')
                              |> set_hasUno (hasUno p')) l l' ->
  Forall2 undeclared l (set_hasUno false <$> l').
Proof.
  induction 1 as [|p p' l l' Hp _ IH]; [constructor|].
  cbn. constructor; [|exact IH].
  unfold undeclared. rewrite Hp. by destruct p.
Qed.

Lemma undeclared_grown l l1 l2 :
  Forall2 undeclared l l1 -> Forall2 seatGrown l1 l2 ->
  Forall2 undeclared l l2.
Proof.
  intros H. revert l2. induction H as [|p p1 l l1 Hp _ IH]; intros l2 H2.
  - inversion H2. constructor.
  - inversion H2 as [|? p2 ? l2' Hg Hrest]; subst. constructor; [|by apply IH].
    unfold undeclared in *.
    pose proof (seatGrown_kept _ _ Hg) as Hk.
    destruct Hg as (_ & _ & _ & _ & _ & _ & Hu & _).
    rewrite Hp in Hu. cbn in Hu. rewrite Hk, Hp.
    destruct p, p2. cbn in *. by destruct Hu as [-> | ->].
Qed.

Lemma undeclared_again l l1 :
  Forall2 undeclared l l1 -> Forall2 undeclared l (set_hasUno false <$> l1).
Proof.
  induction 1 as [|p p1 l l1 Hp _ IH]; [constructor|].
  cbn. constructor; [|exact IH]. unfold undeclared in *. rewrite Hp.
  by destruct p.
Qed.

Lemma kept_refl l :
  Forall2 (fun p p' => p' = p |> set_hand (hand p')
                              |> set_hasUno (hasUno p')) l l.
Proof. induction l as [|p l IH]; constructor; [by destruct p|done]. Qed.

Lemma kept_alter (f : Player -> Player) i l :
  (forall p, f p = p |> set_hand (hand (f p)) |> set_hasUno (hasUno (f p))) ->
  Forall2 (fun p p' => p' = p |> set_hand (hand p')
                              |> set_hasUno (hasUno p')) l (alter f i l).
Proof.
  intros Hf. revert i. induction l as [|p l IH]; intros [|i]; cbn;
    constructor; try done; try apply kept_refl; by destruct p.
Qed.

Lemma kept_grown l l' :
  Forall2 seatGrown l l' ->
  Forall2 (fun p p' => p' = p |> set_hand (hand p')
                              |> set_hasUno (hasUno p')) l l'.
Proof.
  induction 1 as [|p p' l l' Hp _ IH]; constructor; [|done].
  by apply seatGrown_kept.
Qed.

Lemma nextTurn_undeclared gs gs1 :
  Forall2 (fun p p' => p' = p |> set_hand (hand p')
                              |> set_hasUno (hasUno p'))
          (players gs) (players gs1) ->
  Forall2 undeclared (players gs) (players (nextTurn gs1)).
Proof. intros H. unfold nextTurn. fields. by apply undeclared_fmap. Qed.

Lemma playCard_undeclared pid idx ch g snap g' :
  playCard pid idx ch g = Returns (Success "Card played" snap) g' ->
  Forall2 undeclared (players (gameState g)) (players (gameState g')).
Proof.
  intros H. apply playCard_shape in H
    as [(msg & [=] & _) | (i & p & k & card & _ & _ & _ & _ & _ & _ & _ & Hout)].
  unfold playOutcome in Hout. cbv zeta in Hout.
  case_bool_decide; [by destruct Hout as [_ [=]]|].
  destruct (mustDeclare _ _ _ _); [by destruct Hout as [_ [=]]|].
  destruct Hout as (gsD & rD & Hiter & -> & _). fields.
  match type of Hiter with
  | Nat.iter ?k (drawInto ?c) (nextTurn ?s, ?r) = _ =>
      pose proof (drawInto_iter_drawnFrom k c (nextTurn s, r)) as [HD _];
      assert (HN : Forall2 undeclared (players (gameState g))
                     (players (nextTurn s)))
  end.
  { apply nextTurn_undeclared. fields.
    assert (Hpl : forall v s, players (turned v s) = players s)
      by (by intros []).
    rewrite Hpl. unfold playedState. fields. apply kept_alter.
    intros q. by destruct q. }
  rewrite Hiter in HD. cbn [fst] in HD.
  assert (HDu : Forall2 undeclared (players (gameState g)) (players gsD))
    by (by eapply undeclared_grown).
  destruct (skipsNext _ _); [|exact HDu].
  unfold nextTurn. fields. by apply undeclared_again.
Qed.

Lemma drawCard_undeclared pid now g msg card snap g' :
  drawCard pid now g = Returns (Drawn msg card false snap) g' ->
  Forall2 undeclared (players (gameState g)) (players (gameState g')).
Proof.
  intros H. apply drawCard_shape in H
    as [(m & [=] & _) | (i & p & _ & _ & _ & _ & _ & _ & Hout)].
  destruct Hout as (c & gs1 & r1 & Hpop & Hout). cbv zeta in Hout.
  destruct Hout as (playable & _ & -> & m & [= _ _ <- _]).
  pose proof (popDeck_drawnFrom (gameState g) (random g)) as H1.
  rewrite Hpop in H1. cbn [fst snd] in H1. fields.
  apply nextTurn_undeclared, kept_grown.
  assert (H2 : drawnFrom (gameState g)
                 (if bool_decide (1 < length (hand p ++ [c]))%nat
                  then clearUno (Z.of_nat i) (pushHand (Z.of_nat i) c gs1)
                  else pushHand (Z.of_nat i) c gs1)).
  { eapply drawnFrom_trans; [exact H1|].
    case_bool_decide; [|apply pushHand_drawnFrom].
    eapply drawnFrom_trans; [apply pushHand_drawnFrom|apply clearUno_drawnFrom]. }
  by destruct H2.
Qed.

Lemma endTurn_undeclared pid g msg snap g' :
  endTurn pid g = Returns (Success msg snap) g' ->
  Forall2 undeclared (players (gameState g)) (players (gameState g')).
Proof.
  intros H. apply endTurn_shape in H
    as [(m & [=] & _) | (i & p & _ & _ & _ & _ & -> & _)].
  fields. apply nextTurn_undeclared. fields. apply kept_refl.
Qed.

Lemma callUno_undeclared pid g msg snap g' :
  callUno pid g = Returns (Success msg snap) g' ->
  Forall2 undeclared (players (gameState g)) (players (gameState g')).
Proof.
  intros H. apply callUno_shape in H
    as [(m & [=] & _) | (i & p & _ & _ & _ & _ & _ & -> & _)].
  fields. apply nextTurn_undeclared. fields. apply kept_alter.
  intros q. by destruct q.
Qed.

Lemma handleTurnTimeout_undeclared now g g' :
  status (gameState g) = playing -> turnExpiresAt g <> None ->
  handleTurnTimeout now g = Returns tt g' ->
  Forall2 undeclared (players (gameState g)) (players (gameState g')).
Proof.
  intros Hst Hexp. unfold handleTurnTimeout.
  rewrite bool_decide_eq_false_2 by (by rewrite Hst; intros Hn; apply Hn).
  rewrite bool_decide_eq_false_2 by done.
  destruct (playerAt _ _) as [p|] eqn:Hp; [|done].
  destruct (timeoutPenalty_drawn (currentPlayerIndex (gameState g)) p
              (gameState g) (random g)) as (gsT & [HT _] & Hnext).
  destruct (timeoutPenalty _ _ _ _) as [gsP r1]. cbn [fst] in Hnext.
  rewrite Hnext.
  pose proof (skipDisconnected_frame (S (length (players (nextTurn gsT))))
                (currentPlayerIndex (gameState g)) (nextTurn gsT)) as Hskip.
  assert (HN : Forall2 undeclared (players (gameState g))
                 (players (nextTurn gsT)))
    by (by apply nextTurn_undeclared, kept_grown).
  destruct (skipDisconnected _ _ _) as [gs'|gs'|gs'|gs']; intros H;
    simplify_eq; rewrite ?startTurnTimer_gameState; fields;
    by rewrite Hskip.
Qed.

(** C10: a turn advance resets the sub-state and takes back every
    declaration.  [nextTurn] leaves the three flags false and keeps
    every seat as it is but for the declared flag, which it clears; and
    whenever [playCard], [drawCard], [endTurn], [callUno] or a timeout
    that is not ignored advances the turn, the state it returns has the
    three flags false and holds the seats of the state it was called
    on, one for one and in the same order, each unchanged but for its
    hand and with the declared flag cleared. *)
Theorem turn_advance_resets :
  (forall gs,
      hasDrawnPlayableCard (nextTurn gs) = false
      /\ hasPlayedCardThisTurn (nextTurn gs) = false
      /\ waitingForUno (nextTurn gs) = false
      /\ players (nextTurn gs) = set_hasUno false <$> players gs
      /\ Forall (fun p => hasUno p = false) (players (nextTurn gs)))
  /\ (forall pid idx ch g snap g',
        playCard pid idx ch g = Returns (Success "Card played" snap) g' ->
        idleTurn (gameState g')
        /\ Forall2 undeclared (players (gameState g)) (players (gameState g')))
  /\ (forall pid now g msg card snap g',
        drawCard pid now g = Returns (Drawn msg card false snap) g' ->
        idleTurn (gameState g')
        /\ Forall2 undeclared (players (gameState g)) (players (gameState g')))
  /\ (forall pid g msg snap g',
        endTurn pid g = Returns (Success msg snap) g' ->
        idleTurn (gameState g')
        /\ Forall2 undeclared (players (gameState g)) (players (gameState g')))
  /\ (forall pid g msg snap g',
        callUno pid g = Returns (Success msg snap) g' ->
        idleTurn (gameState g')
        /\ Forall2 undeclared (players (gameState g)) (players (gameState g')))
  /\ (forall now g g',
        status (gameState g) = playing -> turnExpiresAt g <> None ->
        handleTurnTimeout now g = Returns tt g' ->
        idleTurn (gameState g')
        /\ Forall2 undeclared (players (gameState g)) (players (gameState g'))).
Proof.
  split.
  { intros gs. destruct (nextTurn_idle gs) as (? & ? & ? & ?).
    repeat (split; [done|]). done. }
  split.
  { intros * H. split; [|by eapply playCard_undeclared].
    apply playCard_advances in H as [gs0 ->]. apply nextTurn_idle. }
  split.
  { intros * H. split; [|by eapply drawCard_undeclared].
    apply drawCard_advances in H as [gs0 ->]. apply nextTurn_idle. }
  split.
  { intros * H. split; [|by eapply endTurn_undeclared].
    apply endTurn_advances in H as [gs0 ->]. apply nextTurn_idle. }
  split.
  { intros * H. split; [|by eapply callUno_undeclared].
    apply callUno_advances in H as [gs0 ->]. apply nextTurn_idle. }
  intros * Hst Hexp H. split; [|by eapply handleTurnTimeout_undeclared].
  by eapply handleTurnTimeout_idle.
Qed.

Lemma turn_advance_resets_witness :
  hasUno <$> players (gameState declaredTable) = [false; true]
  /\ (exists snap g',
        playCard "a" (Some 0) None declaredTable
        = Returns (Success "Card played" snap) g'
        /\ id <$> players (gameState g') = ["a"; "b"]%string
        /\ hasUno <$> players (gameState g') = [false; false]
        /\ idleTurn (gameState g')
        /\ Forall2 undeclared (players (gameState declaredTable))
                   (players (gameState g')))
  /\ waitingForUno (gameState declarationPending) = true
  /\ exists snap g',
       callUno "a" declarationPending
       = Returns (Success "UNO called" snap) g'
       /\ id <$> players (gameState g') = ["a"; "b"]%string
       /\ hasUno <$> players (gameState g') = [false; false]
       /\ idleTurn (gameState g')
       /\ Forall2 undeclared (players (gameState declarationPending))
                  (players (gameState g')).
Proof.
  split; [reflexivity|]. split.
  { assert (H : exists snap,
               playCard "a" (Some 0) None declaredTable
               = Returns (Success "Card played" snap)
                   (finalState (playCard "a" (Some 0) None declaredTable)))
      by (vm_compute; eexists; reflexivity).
    destruct H as (snap & H).
    exists snap, (finalState (playCard "a" (Some 0) None declaredTable)).
    split; [exact H|]. split; [vm_compute; reflexivity|].
    split; [vm_compute; reflexivity|].
    exact (proj1 (proj2 turn_advance_resets) _ _ _ _ _ _ H). }
  split; [vm_compute; reflexivity|].
  assert (H : exists snap,
             callUno "a" declarationPending
             = Returns (Success "UNO called" snap)
                 (finalState (callUno "a" declarationPending)))
    by (vm_compute; eexists; reflexivity).
  destruct H as (snap & H).
  exists snap, (finalState (callUno "a" declarationPending)).
  split; [exact H|]. split; [vm_compute; reflexivity|].
  split; [vm_compute; reflexivity|].
  exact (proj1 (proj2 (proj2 (proj2 (proj2 turn_advance_resets))))
           _ _ _ _ _ H).
Defined.
